(** * VideoToSRT: the engine of [backend/engine.py]

    A shallow embedding of [format_timestamp], [apply_profanity_filter] and
    [generate_output], and the properties of the rendered captions; then of
    the audio loader [load_wav_mono_16k] and of the commands of the engine,
    [analyze_file], [load_ai_model], [process_file] and [main], with what
    they print, run, remove and write.

    Conventions of the embedding.
    - A Python [str] is a [string]; its characters are the code points below
      256, so [len] is [String.length].
    - A Python [float] is a binary64 value, [spec_float] with precision 53 and
      maximal exponent 1024; arithmetic on it is the correctly rounded
      arithmetic of [SpecFloat].
    - A Python [int] is a [Z].
    - A raised exception is the [Raise] branch of [outcome].
    - What the file system, the loader, the recogniser and the programs
      beside the engine answer is an argument of the command that asks. *)

From Stdlib Require Import ZArith List Bool Ascii String Lia.
From Stdlib Require Import Floats.SpecFloat.
From Stdlib Require Import Strings.Byte.
Import ListNotations.

Local Open Scope string_scope.
Local Open Scope Z_scope.

(** ** Exceptions *)

Inductive exn : Type :=
| ValueError
| OverflowError.

Inductive outcome (A : Type) : Type :=
| Ok (a : A)
| Raise (e : exn).

Arguments Ok {A} a.
Arguments Raise {A} e.

Definition bind {A B : Type} (m : outcome A) (k : A -> outcome B) : outcome B :=
  match m with
  | Ok a => k a
  | Raise e => Raise e
  end.

Notation "x <- m ;; k" := (bind m (fun x => k))
  (at level 61, m at next level, right associativity).

(** ** Python strings *)

(** The line break, written ["\n"] in the source. *)
Definition nl : string := String (ascii_of_nat 10) "".

Definition len (s : string) : Z := Z.of_nat (String.length s).

(** [c.isspace()] on the code points below 256: TAB to CR, FS to US and the
    space, NEL and the no-break space. *)
Definition is_space (c : ascii) : bool :=
  let n := nat_of_ascii c in
  ((9 <=? n) && (n <=? 13) || (28 <=? n) && (n <=? 32)
   || (n =? 133) || (n =? 160))%nat.

Fixpoint lstrip (s : string) : string :=
  match s with
  | "" => ""
  | String c r => if is_space c then lstrip r else s
  end.

Fixpoint rstrip (s : string) : string :=
  match s with
  | "" => ""
  | String c r =>
      match rstrip r with
      | "" => if is_space c then "" else String c ""
      | r' => String c r'
      end
  end.

(** [s.strip()] *)
Definition strip (s : string) : string := rstrip (lstrip s).

(** [sep.join(parts)] *)
Definition join (sep : string) (parts : list string) : string :=
  String.concat sep parts.

(** [c * n] for a one-character string [c] *)
Fixpoint repeat_char (c : ascii) (n : nat) : string :=
  match n with
  | O => ""
  | S k => String c (repeat_char c k)
  end.

(** ** [re.compile(re.escape(word), re.IGNORECASE).sub(repl, text)]

    The pattern is a literal; under [re.IGNORECASE] a character of the text
    matches a character of the pattern when both have the same lower-case
    form.  [to_lower] folds the letters A to Z, which decides the match
    for a pattern made of ASCII letters, as every listed word is. *)

Definition to_lower (c : ascii) : ascii :=
  let n := nat_of_ascii c in
  if ((65 <=? n) && (n <=? 90))%nat then ascii_of_nat (n + 32) else c.

Definition char_eq_ci (p c : ascii) : bool :=
  Ascii.eqb (to_lower p) (to_lower c).

(** Does the literal [w] match at the head of [text]? *)
Fixpoint match_here (w text : string) : bool :=
  match w, text with
  | "", _ => true
  | String _ _, "" => false
  | String p w', String c t' => char_eq_ci p c && match_here w' t'
  end.

(** The scan of [sub] for a non-empty literal: the text is read from the
    left; where the pattern matches, the replacement is written and the scan
    resumes behind the match, so that matches never overlap; elsewhere the
    character is copied.  [skip] counts the characters of the current match
    that are still to be passed over. *)
Fixpoint re_sub_from (w repl : string) (skip : nat) (text : string) : string :=
  match text with
  | "" => ""
  | String c rest =>
      match skip with
      | S k => re_sub_from w repl k rest
      | O =>
          if match_here w text
          then repl ++ re_sub_from w repl (String.length w - 1) rest
          else String c (re_sub_from w repl 0 rest)
      end
  end.

Definition re_sub (w repl text : string) : string :=
  re_sub_from w repl 0 text.

(** ** [apply_profanity_filter] *)

Definition bad_words : list string :=
  ["fuck"; "shit"; "bitch"; "asshole"; "cunt"; "dick"].

Definition mask_char : ascii := "*"%char.

(** One turn of the loop: [text = pattern.sub("*" * len(word), text)]. *)
Definition mask_word (text word : string) : string :=
  re_sub word (repeat_char mask_char (String.length word)) text.

Definition apply_profanity_filter (text : string) : string :=
  fold_left mask_word bad_words text.

(** ** Python floats and ints *)

Definition float : Type := spec_float.

Definition prec : Z := 53.
Definition emax : Z := 1024.

(** [x - y], [x * y] and [x < y] on floats *)
Definition fsub (x y : float) : float := SFsub prec emax x y.
Definition fmul (x y : float) : float := SFmul prec emax x y.
Definition fltb (x y : float) : bool := SFltb x y.

(** The float of an integer literal (exact below 2^53). *)
Definition float_of_Z (n : Z) : float := binary_normalize prec emax n 0 false.

Definition f_one : float := float_of_Z 1.

Definition is_zero (x : float) : bool :=
  match x with
  | S754_zero _ => true
  | _ => false
  end.

(** C's [modf] on a finite [x]: the integer part, rounded toward zero, and
    the fractional part, which has the sign of [x]; both are exact. *)
Definition int_part (x : float) : Z :=
  match x with
  | S754_finite s m (Zneg k) => cond_Zopp s (Z.shiftr (Zpos m) (Zpos k))
  | S754_finite s m e => cond_Zopp s (Z.shiftl (Zpos m) e)
  | _ => 0
  end.

Definition frac_part (x : float) : float :=
  match x with
  | S754_finite s m (Zneg k) =>
      binary_normalize prec emax
        (cond_Zopp s (Z.land (Zpos m) (Z.ones (Zpos k)))) (Zneg k) s
  | S754_finite s _ _ => S754_zero s
  | _ => x
  end.

(** [int(x)], also [PyLong_FromDouble]: NaN and the infinities raise. *)
Definition int_of_float (x : float) : outcome Z :=
  match x with
  | S754_nan => Raise ValueError
  | S754_infinity _ => Raise OverflowError
  | _ => Ok (int_part x)
  end.

(** [a / b] on ints with [0 < b]: the quotient, correctly rounded to the
    nearest float, ties to even.  The division of [SpecFloat] is applied to
    the two ints themselves, as mantissas at the exponent 0, so that the
    quotient is rounded once. *)
Definition int_true_divide (a b : Z) : float :=
  match a with
  | 0 => S754_zero false
  | _ =>
      let '(mz, ez, lz) := SFdiv_core_binary prec emax (Z.abs a) 0 b 0 in
      binary_round_aux prec emax (a <? 0) mz ez lz
  end.

(** [str(n)] for an int *)
Definition digit_char (d : Z) : ascii := ascii_of_nat (48 + Z.to_nat d).

Fixpoint decimal_digits (fuel : nat) (n : Z) : string :=
  match fuel with
  | O => ""
  | S f =>
      (if n <? 10 then "" else decimal_digits f (n / 10))
      ++ String (digit_char (n mod 10)) ""
  end.

Definition decimal (n : Z) : string :=
  decimal_digits (S (Z.to_nat (Z.log2 n))) n.

Definition str_of_int (n : Z) : string :=
  if n <? 0 then "-" ++ decimal (- n) else decimal n.

(** [s.zfill(width)] on a string of digits *)
Definition zfill (width : nat) (s : string) : string :=
  repeat_char "0"%char (width - String.length s) ++ s.

(** The format spec [{n:0w}] for an int: zero padding to [w] characters,
    the sign counted in. *)
Definition format_int_0 (width : nat) (n : Z) : string :=
  if n <? 0 then "-" ++ zfill (width - 1) (decimal (- n))
  else zfill width (decimal n).

(** ** [datetime.timedelta]

    The constructor as CPython has it, for the one argument [seconds], a
    float: the argument is split by [modf], both parts are brought to
    microseconds, and what is left below a microsecond is rounded, a tie
    going to the even total; the total is then normalised into days, seconds
    and microseconds, and the days must not exceed 999999999 in
    magnitude. *)

Record timedelta : Type := mk_timedelta {
  td_days : Z;
  td_seconds : Z;
  td_microseconds : Z
}.

Definition us_per_second : Z := 1000000.

(** The constructor's accumulation of the [seconds] argument, in
    microseconds: the integer part is scaled exactly; the fractional part is
    scaled in float arithmetic and split again; what is left over is below
    one microsecond. *)
Definition accum_seconds (num : float) : outcome (Z * float) :=
  x <- int_of_float num ;;
  let sum := x * us_per_second in
  let fracpart := frac_part num in
  if is_zero fracpart then Ok (sum, S754_zero false)
  else
    let dnum := fmul (float_of_Z us_per_second) fracpart in
    Ok (sum + int_part dnum, frac_part dnum).

(** The leftover, rounded to a whole number of microseconds: to the nearest,
    and at one half to the side that makes the total [x] even. *)
Definition round_leftover (x : Z) (leftover : float) : Z :=
  match leftover with
  | S754_finite s m (Zneg k) =>
      match 2 * Zpos m ?= 2 ^ Zpos k with
      | Lt => 0
      | Gt => cond_Zopp s 1
      | Eq => if Z.odd x then cond_Zopp s 1 else 0
      end
  | _ => 0
  end.

(** Normalisation of a microsecond total; the days are limited. *)
Definition microseconds_to_delta (us : Z) : outcome timedelta :=
  let s := us / us_per_second in
  let d := s / 86400 in
  if (-999999999 <=? d) && (d <=? 999999999)
  then Ok (mk_timedelta d (s mod 86400) (us mod us_per_second))
  else Raise OverflowError.

(** [datetime.timedelta(seconds=seconds)] for a float *)
Definition timedelta_of_seconds (seconds : float) : outcome timedelta :=
  acc <- accum_seconds seconds ;;
  let '(x, leftover_us) := acc in
  microseconds_to_delta (x + round_leftover x leftover_us).

Definition delta_to_microseconds (td : timedelta) : Z :=
  (td_days td * 86400 + td_seconds td) * us_per_second + td_microseconds td.

(** [td.total_seconds()] *)
Definition total_seconds (td : timedelta) : float :=
  int_true_divide (delta_to_microseconds td) us_per_second.

(** ** [format_timestamp] *)

Definition format_timestamp (seconds : float) (fmt : string)
  : outcome string :=
  td <- timedelta_of_seconds seconds ;;
  total_seconds <- int_of_float (total_seconds td) ;;
  let hours := total_seconds / 3600 in
  let minutes := (total_seconds mod 3600) / 60 in
  let secs := total_seconds mod 60 in
  millis <- int_of_float (int_true_divide (td_microseconds td) 1000) ;;
  if (fmt =? "vtt")%string
  then Ok (format_int_0 2 hours ++ ":" ++ format_int_0 2 minutes ++ ":"
           ++ format_int_0 2 secs ++ "." ++ format_int_0 3 millis)
  else Ok (format_int_0 2 hours ++ ":" ++ format_int_0 2 minutes ++ ":"
           ++ format_int_0 2 secs ++ "," ++ format_int_0 3 millis).

(** ** The transcript *)

(** A word of a segment: the keys [word], [start] and [end] *)
Record Word : Type := mk_word {
  w_word : string;
  w_start : float;
  w_end : float
}.

(** A segment: the keys [text], [start], [end] and, when present, [words] *)
Record Segment : Type := mk_segment {
  s_text : string;
  s_start : float;
  s_end : float;
  s_words : option (list Word)
}.

(** The value of [result]: the key [segments] *)
Record Transcript : Type := mk_transcript {
  segments : list Segment
}.

(** A line and a block of the subtitle path: the keys [text], [start], [end] *)
Record Line : Type := mk_line {
  l_text : string;
  l_start : float;
  l_end : float
}.

Record Block : Type := mk_block {
  b_start : float;
  b_end : float;
  b_text : string
}.

(** ** [generate_output]: the words *)

Definition collect_words (segs : list Segment) : list Word :=
  fold_left
    (fun all_words segment =>
       match s_words segment with
       | Some ws => (all_words ++ ws)%list
       | None => all_words
       end)
    segs [].

(** ** [generate_output]: the text path *)

(** [enumerate(l)] *)
Definition enumerate {A : Type} (l : list A) : list (nat * A) :=
  combine (seq 0 (List.length l)) l.

(** One turn of the loop over [enumerate(segments)]. *)
Definition txt_step (segs : list Segment) (use_profanity : bool)
    (output_str : string) (entry : nat * Segment) : string :=
  let '(i, segment) := entry in
  let text := strip (s_text segment) in
  let text := if use_profanity then apply_profanity_filter text else text in
  let output_str := output_str ++ text in
  if Z.of_nat i <? Z.of_nat (List.length segs) - 1 then
    let gap := fsub (s_start (nth (i + 1) segs segment)) (s_end segment) in
    if fltb f_one gap then output_str ++ nl ++ nl
    else output_str ++ " "
  else output_str.

Definition render_txt (segs : list Segment) (use_profanity : bool) : string :=
  fold_left (txt_step segs use_profanity) (enumerate segs) "".

(** ** [generate_output]: the subtitle path *)

(** The block of a word in the [tiktok] preset *)
Definition word_block (w : Word) : Block :=
  mk_block (w_start w) (w_end w) (strip (w_word w)).

(** The accumulators of the packed layout: the list [final_blocks] and the
    variables the two closures share. *)
Record PackState : Type := mk_pack {
  final_blocks : list Block;
  current_block_lines : list Line;
  current_line_words : list Word;
  current_line_len : Z
}.

Definition pack_init : PackState := mk_pack [] [] [] 0.

Definition flush_line (st : PackState) : PackState :=
  match current_line_words st with
  | [] => st
  | first :: _ =>
      let s := w_start first in
      let e := w_end (last (current_line_words st) first) in
      let txt := strip (String.concat "" (map w_word (current_line_words st))) in
      mk_pack (final_blocks st)
              (current_block_lines st ++ [mk_line txt s e])%list
              [] 0
  end.

Definition flush_block (st : PackState) : PackState :=
  match current_block_lines st with
  | [] => st
  | first :: _ =>
      let s := l_start first in
      let e := l_end (last (current_block_lines st) first) in
      let txt := join nl (map l_text (current_block_lines st)) in
      mk_pack (final_blocks st ++ [mk_block s e txt])%list
              []
              (current_line_words st) (current_line_len st)
  end.

(** The test at the head of the loop body, and the flushes it commands. *)
Definition make_room (max_chars max_lines : Z) (st : PackState) (w_obj : Word)
  : PackState :=
  let word_len := len (w_word w_obj) in
  if (current_line_len st + word_len >? max_chars) && (current_line_len st >? 0)
  then
    let st := flush_line st in
    if Z.of_nat (List.length (current_block_lines st)) >=? max_lines
    then flush_block st else st
  else st.

(** The end of the loop body: the word joins the current line. *)
Definition append_word (st : PackState) (w_obj : Word) : PackState :=
  mk_pack (final_blocks st) (current_block_lines st)
          (current_line_words st ++ [w_obj])%list
          (current_line_len st + len (w_word w_obj)).

Definition pack_step (max_chars max_lines : Z) (st : PackState) (w_obj : Word)
  : PackState :=
  append_word (make_room max_chars max_lines st w_obj) w_obj.

Definition pack_loop (max_chars max_lines : Z) (all_words : list Word)
  : PackState :=
  fold_left (pack_step max_chars max_lines) all_words pack_init.

Definition pack_blocks (max_chars max_lines : Z) (all_words : list Word)
  : list Block :=
  final_blocks (flush_block (flush_line (pack_loop max_chars max_lines all_words))).

(** The loop that writes the blocks; [counter] is the number of the next
    block. *)
Fixpoint render_blocks (format_type : string) (use_profanity : bool)
    (blocks : list Block) (output_str : string) (counter : Z)
  : outcome string :=
  match blocks with
  | [] => Ok output_str
  | b :: rest =>
      let text := b_text b in
      let text := if use_profanity then apply_profanity_filter text else text in
      s_ts <- format_timestamp (b_start b) format_type ;;
      e_ts <- format_timestamp (b_end b) format_type ;;
      let sep := if (format_type =? "srt")%string then " --> " else " --> " in
      render_blocks format_type use_profanity rest
        (output_str ++ str_of_int counter ++ nl ++ s_ts ++ sep ++ e_ts ++ nl
                    ++ text ++ nl ++ nl)
        (counter + 1)
  end.

Definition header (format_type : string) : string :=
  if (format_type =? "vtt")%string then "WEBVTT" ++ nl ++ nl else "".

(** ** [generate_output] *)

Definition generate_output (result : Transcript)
    (format_type preset_mode : string) (max_chars max_lines : Z)
    (use_profanity : bool) : outcome (string * Z) :=
  let all_words := collect_words (segments result) in
  match all_words with
  | [] => Ok ("", 0)
  | _ :: _ =>
      if (format_type =? "txt")%string then
        Ok (render_txt (segments result) use_profanity,
            Z.of_nat (List.length all_words))
      else
        let final_blocks :=
          if (preset_mode =? "tiktok")%string
          then map word_block all_words
          else pack_blocks max_chars max_lines all_words in
        output_str <- render_blocks format_type use_profanity final_blocks
                        (header format_type) 1 ;;
        Ok (output_str, Z.of_nat (List.length all_words))
  end.

(** * Specifications *)

(** ** What the redaction is to produce

    [occurrence w u]: the string [u] is the word [w] up to the case of its
    letters. *)
Fixpoint occurrence (w u : string) : bool :=
  match w, u with
  | "", "" => true
  | String p w', String c u' => char_eq_ci p c && occurrence w' u'
  | _, _ => false
  end.

(** [masked w t t']: reading [t] from the left, every occurrence of [w] that
    starts where the reading stands is replaced by as many mask characters
    as it is long, and the reading resumes behind it; every other character
    is kept. *)
Inductive masked (w : string) : string -> string -> Prop :=
| masked_end : masked w "" ""
| masked_keep (c : ascii) (t t' : string) :
    match_here w (String c t) = false ->
    masked w t t' ->
    masked w (String c t) (String c t')
| masked_hit (u t t' : string) :
    occurrence w u = true ->
    masked w t t' ->
    masked w (u ++ t) (repeat_char mask_char (String.length u) ++ t').

(** The words are taken in the order of the list, each on the text the
    earlier ones left. *)
Inductive masked_in_order : list string -> string -> string -> Prop :=
| masked_none (t : string) : masked_in_order [] t t
| masked_next (w : string) (ws : list string) (t t1 t2 : string) :
    masked w t t1 ->
    masked_in_order ws t1 t2 ->
    masked_in_order (w :: ws) t t2.

(** [stars_over t t']: [t'] is [t] with some characters replaced by the
    mask character. *)
Fixpoint stars_over (t t' : string) : Prop :=
  match t, t' with
  | "", "" => True
  | String c r, String c' r' => (c' = c \/ c' = mask_char) /\ stars_over r r'
  | _, _ => False
  end.

(** Does [w] occur somewhere in [t]? *)
Fixpoint occurs (w t : string) : bool :=
  match_here w t
  || match t with
     | "" => false
     | String _ r => occurs w r
     end.

(** A word the mask character cannot be part of an occurrence of. *)
Fixpoint mask_free (w : string) : bool :=
  match w with
  | "" => true
  | String p w' => negb (char_eq_ci p mask_char) && mask_free w'
  end.

Definition word_ok (w : string) : bool :=
  negb (w =? "")%string && mask_free w.

Fixpoint drop_str (n : nat) (s : string) : string :=
  match n, s with
  | O, _ => s
  | S _, "" => ""
  | S k, String _ r => drop_str k r
  end.

Fixpoint take_str (n : nat) (s : string) : string :=
  match n, s with
  | O, _ => ""
  | S _, "" => ""
  | S k, String c r => String c (take_str k r)
  end.

(** ** What the text path is to produce *)

Definition segment_words (segment : Segment) : list Word :=
  match s_words segment with
  | Some ws => ws
  | None => []
  end.

(** The text a segment contributes. *)
Definition segment_text (use_profanity : bool) (segment : Segment) : string :=
  let text := strip (s_text segment) in
  if use_profanity then apply_profanity_filter text else text.

(** The silence between a segment and the next one, and what is written
    for it: a paragraph break when it is above one second, a space
    otherwise. *)
Definition gap_after (segment next : Segment) : float :=
  fsub (s_start next) (s_end segment).

Definition separator (segment next : Segment) : string :=
  if fltb f_one (gap_after segment next) then nl ++ nl else " ".

Fixpoint paragraphs (use_profanity : bool) (segs : list Segment) : string :=
  match segs with
  | [] => ""
  | segment :: rest =>
      segment_text use_profanity segment
      ++ match rest with
         | [] => ""
         | next :: _ => separator segment next ++ paragraphs use_profanity rest
         end
  end.

(** ** What the subtitle path is to write

    A caption: the number, a line break, the two timestamps joined by the
    arrow, a line break, the text and a blank line. *)
Definition shown_text (use_profanity : bool) (b : Block) : string :=
  if use_profanity then apply_profanity_filter (b_text b) else b_text b.

Definition caption (format_type : string) (use_profanity : bool)
    (entry : Z * Block) : outcome string :=
  let '(number, b) := entry in
  s_ts <- format_timestamp (b_start b) format_type ;;
  e_ts <- format_timestamp (b_end b) format_type ;;
  Ok (str_of_int number ++ nl ++ s_ts ++ " --> " ++ e_ts ++ nl
      ++ shown_text use_profanity b ++ nl ++ nl).

(** The blocks with their numbers, from [first] on. *)
Fixpoint number_from (first : Z) (blocks : list Block) : list (Z * Block) :=
  match blocks with
  | [] => []
  | b :: rest => (first, b) :: number_from (first + 1) rest
  end.

Fixpoint map_outcome {A B : Type} (f : A -> outcome B) (l : list A)
  : outcome (list B) :=
  match l with
  | [] => Ok []
  | a :: rest =>
      b <- f a ;;
      bs <- map_outcome f rest ;;
      Ok (b :: bs)
  end.

(** The document: the header of the format, then the captions of the blocks
    in order, numbered from 1. *)
Definition caption_document (format_type : string) (use_profanity : bool)
    (blocks : list Block) : outcome string :=
  captions <- map_outcome (caption format_type use_profanity)
                          (number_from 1 blocks) ;;
  Ok (header format_type ++ String.concat "" captions).

(** The blocks of the chosen layout. *)
Definition layout_blocks (preset_mode : string) (max_chars max_lines : Z)
    (all_words : list Word) : list Block :=
  if (preset_mode =? "tiktok")%string
  then map word_block all_words
  else pack_blocks max_chars max_lines all_words.

(** ** What the packed layout is to produce

    A layout is the list of the blocks, a block the list of its lines, a line
    the list of its words. *)

(** The characters of the words of a line. *)
Definition width (ws : list Word) : Z :=
  fold_right (fun w acc => len (w_word w) + acc) 0 ws.

Definition no_word : Word := mk_word "" (S754_zero false) (S754_zero false).

(** The line made of the words [ws], and the block made of the lines [ls],
    as the two closures build them. *)
Definition line_of_words (ws : list Word) : Line :=
  let first := hd no_word ws in
  mk_line (strip (String.concat "" (map w_word ws)))
          (w_start first) (w_end (last ws first)).

Definition block_of_lines (ls : list Line) : Block :=
  let first := hd (line_of_words []) ls in
  mk_block (l_start first) (l_end (last ls first)) (join nl (map l_text ls)).

Definition block_of_layout (lines : list (list Word)) : Block :=
  block_of_lines (map line_of_words lines).

(** [fits max_chars g]: every word of the line [g] joined it when the line
    held no character yet, or when the characters of the line and of the
    word together did not exceed [max_chars]. *)
Definition fits (max_chars : Z) (g : list Word) : Prop :=
  forall g1 w g2,
    g = (g1 ++ w :: g2)%list ->
    width g1 = 0 \/ width g1 + len (w_word w) <= max_chars.

Definition good_line (max_chars : Z) (g : list Word) : Prop :=
  g <> [] /\ fits max_chars g.

Definition good_block (max_chars : Z) (lines : list (list Word)) : Prop :=
  lines <> [] /\ Forall (good_line max_chars) lines.

(** The state of the loop after the words [seen], explained by the blocks
    [done] already written and the lines [lines] of the block in the
    making. *)
Record pack_inv (max_chars max_lines : Z) (seen : list Word) (st : PackState)
    (done : list (list (list Word))) (lines : list (list Word)) : Prop :=
  mk_pack_inv {
    inv_blocks : final_blocks st = map block_of_layout done;
    inv_lines : current_block_lines st = map line_of_words lines;
    inv_words :
      (List.concat (List.concat done) ++ List.concat lines
       ++ current_line_words st)%list
      = seen;
    inv_len : current_line_len st = width (current_line_words st);
    inv_done : Forall (good_block max_chars) done;
    inv_open : Forall (good_line max_chars) lines;
    inv_fits : fits max_chars (current_line_words st);
    inv_height :
      0 < max_lines ->
      Z.of_nat (List.length lines) < max_lines
      /\ Forall (fun ls => Z.of_nat (List.length ls) = max_lines) done
  }.

(** ** What a timestamp is to look like *)

Definition is_digit (c : ascii) : bool :=
  let n := nat_of_ascii c in ((48 <=? n) && (n <=? 57))%nat.

(** The number a string of decimal digits stands for. *)
Fixpoint decimal_value_from (acc : Z) (s : string) : Z :=
  match s with
  | "" => acc
  | String c r => decimal_value_from (10 * acc + (Z.of_nat (nat_of_ascii c) - 48)) r
  end.

Definition decimal_value (s : string) : Z := decimal_value_from 0 s.

Fixpoint all_digits (s : string) : bool :=
  match s with
  | "" => true
  | String c r => is_digit c && all_digits r
  end.

Definition two_digits (n : Z) : string :=
  String (digit_char (n / 10)) (String (digit_char (n mod 10)) "").

Definition three_digits (n : Z) : string :=
  String (digit_char (n / 100)) (two_digits (n mod 100)).

(** The hours: two digits, and as many as the number has from 100 on. *)
Definition hours_field (h : Z) : string :=
  if h <? 100 then two_digits h else decimal h.

Definition fraction_mark (fmt : string) : string :=
  if (fmt =? "vtt")%string then "." else ",".

(** The clock reading of a total of [us] microseconds. *)
Definition clock (us : Z) (fmt : string) : string :=
  hours_field (us / 3600000000) ++ ":"
  ++ two_digits (us / 60000000 mod 60) ++ ":"
  ++ two_digits (us / 1000000 mod 60) ++ fraction_mark fmt
  ++ three_digits (us / 1000 mod 1000).

(** The whole milliseconds within the second of a finite float that is not
    negative, taken from its exact value: the integer part of a thousand
    times the value, modulo 1000. *)
Definition exact_millis (x : float) : Z :=
  match x with
  | S754_finite false m (Zneg k) => (1000 * Zpos m / 2 ^ Zpos k) mod 1000
  | S754_finite false m e => (1000 * Zpos m * 2 ^ e) mod 1000
  | _ => 0
  end.

(** A float that is not a negative finite number. *)
Definition sign_clear (x : float) : bool :=
  match x with
  | S754_finite true _ _ => false
  | _ => true
  end.

(** ** Examples *)

(** The floats 0.0, 0.5, 1.4567, 0.9999996, 1e14, -0.5 and -1.5 *)
Definition f_zero : float := S754_zero false.
Definition f_half : float := S754_finite false 4503599627370496 (-53).
Definition f_1_4567 : float := S754_finite false 6560393577190602 (-52).
Definition f_0_9999996 : float := S754_finite false 9007195651861290 (-53).
Definition f_1e14 : float := float_of_Z 100000000000000.
Definition f_minus_half : float := S754_finite true 4503599627370496 (-53).
Definition f_minus_one_and_half : float :=
  S754_finite true 6755399441055744 (-52).

(** The words of the example, with the leading space the recogniser gives
    them, and as the bare letters. *)
Definition example_words : list Word :=
  [mk_word " Hi" f_zero f_half; mk_word " there" f_half f_one].

Definition example_words_bare : list Word :=
  [mk_word "Hi" f_zero f_half; mk_word "there" f_half f_one].

Definition example_transcript (ws : list Word) : Transcript :=
  mk_transcript [mk_segment " Hi there" f_zero f_one (Some ws)].

(** ** The packed layout as two passes

    [wrap_from max_chars line ws]: the lines the words [ws] make when [line]
    is the line in the making; [group_from max_lines block lines]: the
    blocks the lines make when [block] is the block in the making. *)
Fixpoint wrap_from (max_chars : Z) (line : list Word) (ws : list Word)
  : list (list Word) :=
  match ws with
  | [] =>
      match line with
      | [] => []
      | _ :: _ => [line]
      end
  | w :: rest =>
      if (width line + len (w_word w) >? max_chars) && (width line >? 0)
      then line :: wrap_from max_chars [w] rest
      else wrap_from max_chars (line ++ [w]) rest
  end.

Definition wrap_lines (max_chars : Z) (ws : list Word) : list (list Word) :=
  wrap_from max_chars [] ws.

Fixpoint group_from (max_lines : Z) (block : list (list Word))
    (lines : list (list Word)) : list (list (list Word)) :=
  match lines with
  | [] =>
      match block with
      | [] => []
      | _ :: _ => [block]
      end
  | l :: rest =>
      if Z.of_nat (List.length (block ++ [l])) >=? max_lines
      then (block ++ [l])%list :: group_from max_lines [] rest
      else group_from max_lines (block ++ [l]) rest
  end.

Definition group_lines (max_lines : Z) (lines : list (list Word))
  : list (list (list Word)) :=
  group_from max_lines [] lines.

(** [tight max_chars lines]: wherever a line is followed by another, the
    line holds characters and the first word of the next one would have
    brought it over [max_chars]. *)
Fixpoint tight (max_chars : Z) (lines : list (list Word)) : Prop :=
  match lines with
  | [] => True
  | g :: rest =>
      match rest with
      | (w :: _) :: _ =>
          0 < width g /\ max_chars < width g + len (w_word w)
      | _ => True
      end
      /\ tight max_chars rest
  end.

(** ** Trimmed text *)

(** A string that neither begins nor ends with white space. *)
Definition trimmed (s : string) : Prop := lstrip s = s /\ rstrip s = s.

(** ** What the redaction changes in a document

    [same_but_masked plain redacted]: both renderings fail, with the same
    exception, or both succeed, with the same count of words and documents
    that differ only where the second has a mask character. *)
Definition same_but_masked (plain redacted : outcome (string * Z)) : Prop :=
  match plain, redacted with
  | Ok (a, n), Ok (b, m) => stars_over a b /\ n = m
  | Raise e, Raise e' => e = e'
  | _, _ => False
  end.

(** * The audio loader

    ** NumPy's [float32] and [int16]

    A [float32] is a binary32 value, [spec_float] with precision 24 and
    maximal exponent 128.  [np.frombuffer(buf, dtype=np.int16)] reads the
    buffer two bytes at a time, the low byte first (the byte order of the
    machines the program runs on), each pair a signed 16-bit int; a buffer
    of odd size is refused. *)

Definition float32 : Type := spec_float.

Definition prec32 : Z := 24.
Definition emax32 : Z := 128.

(** [astype(np.float32)] on an int below 2^24 in magnitude *)
Definition float32_of_Z (n : Z) : float32 :=
  binary_normalize prec32 emax32 n 0 false.

Definition fdiv32 (x y : float32) : float32 := SFdiv prec32 emax32 x y.

(** The divisor 32768.0, as a [float32] *)
Definition f32_32768 : float32 := S754_finite false 8388608 (-8).

Definition int16_of_bytes (lo hi : Byte.byte) : Z :=
  let u := Z.of_N (Byte.to_N lo) + 256 * Z.of_N (Byte.to_N hi) in
  if u <? 32768 then u else u - 65536.

Fixpoint frombuffer_int16 (buf : list Byte.byte) : outcome (list Z) :=
  match buf with
  | [] => Ok []
  | [_] => Raise ValueError
  | lo :: hi :: rest =>
      values <- frombuffer_int16 rest ;;
      Ok (int16_of_bytes lo hi :: values)
  end.

(** One element of [… .astype(np.float32) / 32768.0] *)
Definition pcm_sample (v : Z) : float32 :=
  fdiv32 (float32_of_Z v) f32_32768.

(** [np.frombuffer(buf, dtype=np.int16).astype(np.float32) / 32768.0] *)
Definition pcm16_to_float32 (buf : list Byte.byte) : outcome (list float32) :=
  values <- frombuffer_int16 buf ;;
  Ok (map pcm_sample values).

(** ** [load_wav_mono_16k]

    The opened file: what the header says, and the bytes [readframes]
    returns. *)
Record WavFile : Type := mk_wav {
  n_channels : Z;
  sampwidth : Z;
  framerate : Z;
  n_frames : Z;
  audio_bytes : list Byte.byte
}.

Definition load_wav_mono_16k (wf : WavFile) : outcome (list float32) :=
  if negb (n_channels wf =? 1) || negb (sampwidth wf =? 2)
     || negb (framerate wf =? 16000)
  then Raise ValueError
  else pcm16_to_float32 (audio_bytes wf).

(** ** What a sample is to be *)

(** [is_ratio x n k]: the float [x] is the number [n / 2 ^ k]. *)
Definition is_ratio (x : spec_float) (n k : Z) : bool :=
  match x with
  | S754_zero _ => n =? 0
  | S754_finite s m e =>
      if 0 <=? e + k then n =? cond_Zopp s (Zpos m) * 2 ^ (e + k)
      else n * 2 ^ (- (e + k)) =? cond_Zopp s (Zpos m)
  | _ => false
  end.

(** The floats 1.0 and -1.0, as [float32] *)
Definition f32_one : float32 := S754_finite false 8388608 (-23).
Definition f32_minus_one : float32 := S754_finite true 8388608 (-23).

(** A mono file of two samples, 1 and -32768. *)
Definition example_wav : WavFile :=
  mk_wav 1 2 16000 2 [Byte.x01; Byte.x00; Byte.x00; Byte.x80].

(** * The engine's commands

    The commands talk to the front end, to the file system and to the
    programs beside the engine.  What they send and what they run is kept
    as a list of events, in order; what the world answers is an argument. *)

(** ** More of Python's strings *)

(** [c.lower()] on the code points below 256: the letters A to Z, and the
    accented capitals, 192 to 222 but for the sign at 215. *)
Definition lower_char (c : ascii) : ascii :=
  let n := nat_of_ascii c in
  if ((65 <=? n) && (n <=? 90) || (192 <=? n) && (n <=? 214)
      || (216 <=? n) && (n <=? 222))%nat
  then ascii_of_nat (n + 32) else c.

Fixpoint lower (s : string) : string :=
  match s with
  | "" => ""
  | String c r => String (lower_char c) (lower r)
  end.

(** [p.rfind(c)]: the index of the last [c] in [p], or -1 *)
Fixpoint rfind (c : ascii) (p : string) : Z :=
  match p with
  | "" => -1
  | String a r =>
      let i := rfind c r in
      if 0 <=? i then i + 1 else if Ascii.eqb a c then 0 else -1
  end.

(** ** [os.path.splitext]

    The separators are those of the system: the slash, and on Windows the
    backslash as well. *)
Inductive platform : Type :=
| posix
| nt.

(** The loop over the leading dots of the name: is there a character that
    is no dot before the last dot? *)
Fixpoint skip_dots (name : string) : bool :=
  match name with
  | "" => false
  | String c r => if negb (Ascii.eqb c ".") then true else skip_dots r
  end.

Definition splitext (os : platform) (p : string) : string * string :=
  let sepIndex :=
    match os with
    | posix => rfind "/" p
    | nt => Z.max (rfind "\" p) (rfind "/" p)
    end in
  let dotIndex := rfind "." p in
  if (dotIndex >? sepIndex)
     && skip_dots (take_str (Z.to_nat (dotIndex - (sepIndex + 1)))
                            (drop_str (Z.to_nat (sepIndex + 1)) p))
  then (take_str (Z.to_nat dotIndex) p, drop_str (Z.to_nat dotIndex) p)
  else (p, "").

(** ** [send_to_electron]

    The payload: the type, the message and, when the data are a true value,
    the data.  The data of the program are nothing, a percentage, the result
    of an analysis and the result of a transcription. *)
Inductive Data : Type :=
| data_none
| data_percent (n : Z)
| data_analysis (path duration : string) (thumbnail : option string)
| data_success (path savePath : string) (wordCount confidence : Z).

Record Payload : Type := mk_payload {
  p_type : string;
  p_message : string;
  p_data : option Data
}.

(** [if data:] *)
Definition truthy (data : Data) : bool :=
  match data with
  | data_none => false
  | data_percent n => negb (n =? 0)
  | _ => true
  end.

Definition send_to_electron (type message : string) (data : Data) : Payload :=
  mk_payload type message (if truthy data then Some data else None).

(** What a command asks of the world, call by call: a line printed, a
    program started, the loader or the recogniser called, a file removed or
    opened for writing.  A call is listed whether or not it succeeds. *)
Inductive Event : Type :=
| Printed (payload : Payload)
| RanFfprobe (file_path : string)
| RanFfmpegFrame (file_path : string)
| RanFfmpegAudio (video_path temp_audio : string)
| LoadModel (name device : string)
| Transcribe (audio_path : string) (language : option string)
| Remove (path : string)
| Write (save_path content : string).

(** What the world answers to a call that may raise: the value, or the text
    of the exception. *)
Inductive answer (A : Type) : Type :=
| Gives (a : A)
| Fails (str_e : string).

Arguments Gives {A} a.
Arguments Fails {A} str_e.

(** [str(e)] for the exceptions of [int(x)] *)
Definition int_error_text (e : exn) : string :=
  match e with
  | ValueError => "cannot convert float NaN to integer"
  | OverflowError => "cannot convert float infinity to integer"
  end.

(** ** [analyze_file] *)

Definition audio_exts : list string :=
  [".mp3"; ".wav"; ".m4a"; ".aac"; ".flac"; ".ogg"].

(** [x in s] for a set of strings *)
Definition str_in (x : string) (s : list string) : bool :=
  existsb (String.eqb x) s.

(** The two lines [m, s = divmod(int(duration_sec), 60)] and
    [duration_str = f"{m:02}:{s:02}"] *)
Definition duration_string (duration_sec : float) : outcome string :=
  n <- int_of_float duration_sec ;;
  let m := n / 60 in
  let s := n mod 60 in
  Ok (format_int_0 2 m ++ ":" ++ format_int_0 2 s).

(** The answers of the world to [analyze_file]: whether the file exists;
    the duration [ffprobe] prints, read as a float; the frame [ffmpeg]
    writes, when it writes one. *)
Record AnalysisWorld : Type := mk_analysis_world {
  file_exists : bool;
  probed_duration : answer float;
  grabbed_frame : option (list Byte.byte)
}.

Section Analysis.

(** [base64.b64encode(data).decode('utf-8')] *)
Variable b64encode : list Byte.byte -> string.

Definition analyze_file (os : platform) (w : AnalysisWorld)
    (file_path : string) : list Event :=
  if negb (file_exists w) then
    [Printed (send_to_electron "error" "File analysis failed: Not found"
                               data_none)]
  else
    let ext := lower (snd (splitext os file_path)) in
    match probed_duration w with
    | Fails str_e =>
        [RanFfprobe file_path;
         Printed (send_to_electron "error" ("Analysis failed: " ++ str_e)
                                   data_none)]
    | Gives duration_sec =>
        match duration_string duration_sec with
        | Raise e =>
            [RanFfprobe file_path;
             Printed (send_to_electron "error"
                        ("Analysis failed: " ++ int_error_text e)
                        data_none)]
        | Ok duration_str =>
            if negb (str_in ext audio_exts) then
              let b64_thumb :=
                match grabbed_frame w with
                | Some thumb_data =>
                    Some ("data:image/jpeg;base64," ++ b64encode thumb_data)
                | None => None
                end in
              [RanFfprobe file_path; RanFfmpegFrame file_path;
               Printed (send_to_electron "analysis-result" "Analyzed"
                          (data_analysis file_path duration_str b64_thumb))]
            else
              [RanFfprobe file_path;
               Printed (send_to_electron "analysis-result" "Analyzed"
                          (data_analysis file_path duration_str None))]
        end
    end.

End Analysis.

(** ** [get_device] and [load_ai_model] *)

Definition MODEL_MAP : list (string * string) :=
  [("lightning", "tiny"); ("standard", "base"); ("enhanced", "small");
   ("professional", "medium"); ("studio", "large")].

(** [d.get(key, default)] *)
Fixpoint dict_get (d : list (string * string)) (key default : string)
  : string :=
  match d with
  | [] => default
  | (k, v) :: rest => if (k =? key)%string then v else dict_get rest key default
  end.

(** [cuda_is_available] is the answer of [torch.cuda.is_available()]. *)
Definition get_device (cuda_is_available : bool) (pref : string) : string :=
  if (pref =? "cpu")%string then "cpu"
  else if (pref =? "cuda")%string && cuda_is_available then "cuda"
  else if cuda_is_available then "cuda" else "cpu".

Section Models.

(** The models of the recogniser; a model is a true value. *)
Variable Model : Type.

(** [s.title()] and [s.upper()] *)
Variable title upper : string -> string.

(** The three globals *)
Record Globals : Type := mk_globals {
  current_model : option Model;
  loaded_model_name : option string;
  loaded_device : option string
}.

Definition globals_init : Globals := mk_globals None None None.

(** [x == s] for a global that is [None] or a string *)
Definition is_str (x : option string) (s : string) : bool :=
  match x with
  | Some t => (t =? s)%string
  | None => false
  end.

(** [loaded] is the answer of [whisper.load_model], should it be
    called. *)
Definition load_ai_model (cuda_is_available : bool) (loaded : answer Model)
    (model_alias device_pref : string) (g : Globals)
  : option Model * Globals * list Event :=
  let real_name := dict_get MODEL_MAP model_alias "base" in
  let target_device := get_device cuda_is_available device_pref in
  let cached :=
    match current_model g with
    | Some _ =>
        is_str (loaded_model_name g) real_name
        && is_str (loaded_device g) target_device
    | None => false
    end in
  if cached then (current_model g, g, [])
  else
    let announce :=
      Printed (send_to_electron "status"
                 ("Loading AI Model: " ++ title model_alias ++ " ("
                  ++ upper target_device ++ ")...")
                 data_none) in
    match loaded with
    | Gives model =>
        (Some model,
         mk_globals (Some model) (Some real_name) (Some target_device),
         [announce; LoadModel real_name target_device;
          Printed (send_to_electron "status" "Model Loaded. Ready."
                                    data_none)])
    | Fails str_e =>
        (None, g,
         [announce; LoadModel real_name target_device;
          Printed (send_to_electron "error"
                     ("Failed to load model: " ++ str_e) data_none)])
    end.

End Models.

Arguments mk_globals {Model} _ _ _.
Arguments current_model {Model} _.
Arguments loaded_model_name {Model} _.
Arguments loaded_device {Model} _.
Arguments globals_init {Model}.
Arguments load_ai_model {Model} _ _ _ _ _ _ _.

(** ** What a run of a command shows *)

(** The payloads printed in the course of a run, in order. *)
Definition printed (events : list Event) : list Payload :=
  flat_map (fun ev => match ev with Printed p => [p] | _ => [] end) events.

Definition is_command (ev : Event) : Prop :=
  match ev with
  | Printed _ => False
  | _ => True
  end.

Definition model_names : list string :=
  ["tiny"; "base"; "small"; "medium"; "large"].

(** A world in which a file of ten minutes and five seconds exists, and the
    frame cannot be grabbed. *)
Definition f_605 : float := float_of_Z 605.

Definition example_analysis_world : AnalysisWorld :=
  mk_analysis_world true (Gives f_605) None.

(** ** [process_file]: the name of the output *)

(** [c.isalnum()] on the code points below 256: the digits, the letters,
    the two ordinal indicators, the micro sign, the superscript digits and
    the three fractions. *)
Definition isalnum (c : ascii) : bool :=
  let n := nat_of_ascii c in
  ((48 <=? n) && (n <=? 57) || (65 <=? n) && (n <=? 90)
   || (97 <=? n) && (n <=? 122) || (n =? 170) || (178 <=? n) && (n <=? 179)
   || (n =? 181) || (185 <=? n) && (n <=? 186) || (188 <=? n) && (n <=? 190)
   || (192 <=? n) && (n <=? 214) || (216 <=? n) && (n <=? 246)
   || (248 <=? n) && (n <=? 255))%nat.

(** [s.lstrip(".")] *)
Fixpoint lstrip_dots (s : string) : string :=
  match s with
  | "" => ""
  | String c r => if Ascii.eqb c "." then lstrip_dots r else s
  end.

(** ["".join([c for c in s if keep(c)])] *)
Fixpoint keep_chars (keep : ascii -> bool) (s : string) : string :=
  match s with
  | "" => ""
  | String c r =>
      if keep c then String c (keep_chars keep r) else keep_chars keep r
  end.

(** [c.isalnum() or c in "_-"] *)
Definition safe_char (c : ascii) : bool :=
  isalnum c || Ascii.eqb c "_" || Ascii.eqb c "-".

(** The lines from [base_name] to [file_stem], and the name given to
    [os.path.join]; [name] is [os.path.basename(path)]. *)
Definition file_stem (os : platform) (name : string) : string :=
  let base_name := fst (splitext os name) in
  let src_ext := lower (lstrip_dots (snd (splitext os name))) in
  if negb (src_ext =? "")%string then base_name ++ "_" ++ src_ext
  else base_name.

Definition output_name (os : platform) (name ext suffix : string) : string :=
  let safe_suffix := keep_chars safe_char suffix in
  file_stem os name ++ "_" ++ safe_suffix ++ "." ++ ext.

(** ** [process_file] *)

(** The keys of [args]; [path] is there, any other may be missing. *)
Record Args : Type := mk_args {
  a_path : string;
  a_model : option string;
  a_device : option string;
  a_language : option string;
  a_format : option string;
  a_preset : option string;
  a_maxChars : option Z;
  a_maxLines : option Z;
  a_profanity : option bool;
  a_outputName : option string;
  a_outputDir : option string
}.

(** [args.get(key, default)] *)
Definition get_or {A : Type} (value : option A) (default : A) : A :=
  match value with
  | Some a => a
  | None => default
  end.

(** The language handed to the recogniser: the one of [args], unless it is
    missing, empty or [auto]. *)
Definition language_option (args : Args) : option string :=
  match a_language args with
  | Some l =>
      if negb (l =? "")%string && negb (l =? "auto")%string then Some l
      else None
  | None => None
  end.

Section Processing.

Variable Model : Type.
Variable title upper : string -> string.

(** [os.path.basename], [os.path.dirname] and [os.path.join] *)
Variable basename dirname : string -> string.
Variable join_path : string -> string -> string.

(** The answers of the world to [process_file]: whether the input exists;
    whether cuda is available; the model the loader gives; the name of the
    temporary file and whether [ffmpeg] wrote it; the transcript; whether
    the temporary file exists afterwards and whether it can be removed; the
    confidence computed from the transcript; the text of an exception of
    the rendering; whether the output folder exists; whether the output can
    be written. *)
Record World : Type := mk_world {
  input_exists : bool;
  cuda_is_available : bool;
  loaded : answer Model;
  temp_audio : string;
  extracted : bool;
  transcribed : answer Transcript;
  temp_exists : bool;
  removed : answer unit;
  confidence : answer Z;
  raised_text : exn -> string;
  out_dir_exists : bool;
  written : answer unit
}.

(** [extract_audio_silent]: the name of the file, or [None] *)
Definition extract_audio_silent (w : World) (video_path : string)
  : option string * list Event :=
  (if extracted w then Some (temp_audio w) else None,
   [RanFfmpegAudio video_path (temp_audio w)]).

(** The end of a run within [try]: an exception becomes an error. *)
Definition report_error (str_e : string) : list Event :=
  [Printed (send_to_electron "error" str_e data_none)].

(** The save logic and the report, once the content is there. *)
Definition save_output (os : platform) (w : World) (args : Args)
    (content : string) (word_count confidence : Z) : list Event :=
  let path := a_path args in
  let ext := get_or (a_format args) "srt" in
  let suffix := get_or (a_outputName args) "subs" in
  let out_dir := get_or (a_outputDir args) "" in
  let out_dir :=
    if (out_dir =? "")%string || negb (out_dir_exists w)
    then dirname path else out_dir in
  let save_path :=
    join_path out_dir (output_name os (basename path) ext suffix) in
  match written w with
  | Fails str_e => Write save_path content :: report_error str_e
  | Gives _ =>
      [Write save_path content;
       Printed (send_to_electron "success" "Done!"
                  (data_success path save_path word_count confidence))]
  end.

(** What follows the transcription within [try]. *)
Definition format_result (os : platform) (w : World) (args : Args)
    (result : Transcript) : list Event :=
  Printed (send_to_electron "progress" "Formatting..." (data_percent 90))
  :: match confidence w with
     | Fails str_e => report_error str_e
     | Gives confidence =>
         match generate_output result
                 (get_or (a_format args) "srt")
                 (get_or (a_preset args) "standard")
                 (get_or (a_maxChars args) 42)
                 (get_or (a_maxLines args) 2)
                 (get_or (a_profanity args) false) with
         | Raise e => report_error (raised_text w e)
         | Ok (content, word_count) =>
             save_output os w args content word_count confidence
         end
     end.

(** The body of [try]. *)
Definition transcribe_file (os : platform) (w : World) (args : Args)
    (temp_audio_path : string) : list Event :=
  let path := a_path args in
  Transcribe temp_audio_path (language_option args)
  :: match transcribed w with
     | Fails str_e => report_error str_e
     | Gives result =>
         if negb (temp_audio_path =? path)%string && temp_exists w then
           Remove temp_audio_path
           :: match removed w with
              | Fails str_e => report_error str_e
              | Gives _ => format_result os w args result
              end
         else format_result os w args result
     end.

Definition process_file (os : platform) (w : World) (args : Args)
    (g : Globals Model) : Globals Model * list Event :=
  let path := a_path args in
  if negb (input_exists w) then
    (g, [Printed (send_to_electron "error" "File not found" data_none)])
  else
    let '(model, g, loading) :=
      load_ai_model title upper (cuda_is_available w) (loaded w)
        (get_or (a_model args) "standard") (get_or (a_device args) "auto") g in
    match model with
    | None => (g, loading)
    | Some _ =>
        let '(temp_audio_path, extraction) := extract_audio_silent w path in
        let temp_audio_path :=
          match temp_audio_path with
          | Some t => if (t =? "")%string then path else t
          | None => path
          end in
        (g,
         loading
         ++ [Printed (send_to_electron "progress" "Transcribing..."
                                       (data_percent 10))]
         ++ extraction
         ++ transcribe_file os w args temp_audio_path)%list
    end.

End Processing.

Arguments mk_world {Model}.
Arguments extract_audio_silent {Model}.
Arguments save_output {Model}.
Arguments format_result {Model}.
Arguments transcribe_file {Model}.
Arguments process_file {Model}.
Arguments input_exists {Model} _.
Arguments cuda_is_available {Model} _.
Arguments loaded {Model} _.
Arguments temp_audio {Model} _.
Arguments extracted {Model} _.
Arguments transcribed {Model} _.
Arguments temp_exists {Model} _.
Arguments removed {Model} _.
Arguments confidence {Model} _.
Arguments raised_text {Model} _ _.
Arguments out_dir_exists {Model} _.
Arguments written {Model} _.

(** ** What a run of [process_file] shows *)

Fixpoint all_chars (keep : ascii -> bool) (s : string) : bool :=
  match s with
  | "" => true
  | String c r => keep c && all_chars keep r
  end.

(** An event that is no answer to the command: a call, or a payload that
    tells of the state or of the progress. *)
Definition is_quiet (ev : Event) : Prop :=
  match ev with
  | Printed p => p_type p = "status" \/ p_type p = "progress"
  | _ => True
  end.

(** The payload that answers a command. *)
Definition is_final (p : Payload) : Prop :=
  p_type p = "success" \/ p_type p = "error".

(** A world in which everything works, and a request with a language. *)
Definition example_world : World nat :=
  mk_world true false (Gives 7%nat) "/tmp/v2s_temp_1.wav" true
           (Gives (example_transcript example_words)) true (Gives tt)
           (Gives 93) int_error_text true (Gives tt).

Definition example_args : Args :=
  mk_args "/in/video.mp4" None None (Some "en") None None None None None
          None None.

(** A run that is answered: the last thing it does is to print the
    payload that answers the command, and nothing it did before is an
    answer. *)
Definition answered (events : list Event) : Prop :=
  exists (earlier : list Event) (payload : Payload),
    events = (earlier ++ [Printed payload])%list
    /\ is_final payload
    /\ Forall is_quiet earlier.

(** ** Reading a timestamp back

    The whole milliseconds a timestamp stands for: its last ten characters
    are the colon, the minutes, the colon, the seconds, the mark and the
    milliseconds; what stands before them is the hours. *)
Definition clock_millis (s : string) : Z :=
  let n := String.length s in
  let hours := take_str (n - 10) s in
  let rest := drop_str (n - 10) s in
  decimal_value hours * 3600000
  + decimal_value (take_str 2 (drop_str 1 rest)) * 60000
  + decimal_value (take_str 2 (drop_str 4 rest)) * 1000
  + decimal_value (drop_str 7 rest).

(** ** What a shift to the right keeps

    [shr_inv P j mrs]: the record [mrs] is the number [P] after [j] shifts
    to the right: its mantissa is [P] without its last [j] bits, its round
    bit tells whether these bits make a half or more, its sticky bit
    whether they make something else than nothing and a half. *)
Definition shr_inv (P j : Z) (mrs : shr_record) : Prop :=
  0 <= shr_m mrs
  /\ 0 <= P - shr_m mrs * 2 ^ j < 2 ^ j
  /\ (shr_r mrs = true <-> 2 ^ j <= 2 * (P - shr_m mrs * 2 ^ j))
  /\ (shr_s mrs = true
      <-> P - shr_m mrs * 2 ^ j <> 0
          /\ 2 * (P - shr_m mrs * 2 ^ j) <> 2 ^ j).

(** ** [main]

    A line of the input, as [json.loads] reads it: no JSON; JSON that is
    no object, on which [data.get] raises an [AttributeError]; an object,
    with its command, with the arguments when the path is among them, and
    with what the world answers while the line is served.  Without a path
    [os.path.exists(None)] raises a [TypeError].  Neither exception is
    caught. *)
Inductive InputLine (Model : Type) : Type :=
| line_bad
| line_other
| line_object (command : option string) (args : option Args)
              (aw : AnalysisWorld) (pw : World Model).

Arguments line_bad {Model}.
Arguments line_other {Model}.
Arguments line_object {Model} _ _ _ _.

(** How the loop ends: at the end of the input, or by an exception that
    nothing catches. *)
Inductive Ending : Type :=
| at_end_of_input
| by_exception.

Section Main.

Variable Model : Type.
Variable title upper : string -> string.
Variable basename dirname : string -> string.
Variable join_path : string -> string -> string.
Variable b64encode : list Byte.byte -> string.

Definition is_command_name (command : option string) (name : string) : bool :=
  match command with
  | Some c => (c =? name)%string
  | None => false
  end.

(** The loop over the lines; [g] holds the globals. *)
Fixpoint main_loop (os : platform) (lines : list (InputLine Model))
    (g : Globals Model) : list Event * Ending :=
  match lines with
  | [] => ([], at_end_of_input)
  | line_bad :: rest => main_loop os rest g
  | line_other :: rest => ([], by_exception)
  | line_object command args aw pw :: rest =>
      if is_command_name command "analyze" then
        match args with
        | None => ([], by_exception)
        | Some args =>
            let '(events, ending) := main_loop os rest g in
            (analyze_file b64encode os aw (a_path args) ++ events, ending)%list
        end
      else if is_command_name command "transcribe" then
        match args with
        | None => ([], by_exception)
        | Some args =>
            let '(g, served) :=
              process_file title upper basename dirname join_path os pw
                           args g in
            let '(events, ending) := main_loop os rest g in
            ((served ++ events)%list, ending)
        end
      else main_loop os rest g
  end.

Definition main (os : platform) (cuda_is_available : bool)
    (lines : list (InputLine Model)) : list Event * Ending :=
  let '(events, ending) := main_loop os lines globals_init in
  (Printed (send_to_electron "status" "Engine Ready" data_none)
   :: Printed (send_to_electron "info"
                 ("System: " ++ upper (get_device cuda_is_available "auto")
                  ++ " Acceleration Detected") data_none)
   :: events,
   ending).

End Main.

Arguments main_loop {Model}.
Arguments main {Model}.

(** The requests that are served: the lines with the command analyze or
    transcribe, up to the first line that ends the loop. *)
Fixpoint served_requests {Model : Type} (lines : list (InputLine Model)) : nat :=
  match lines with
  | [] => 0
  | line_bad :: rest => served_requests rest
  | line_other :: rest => 0
  | line_object command args _ _ :: rest =>
      if is_command_name command "analyze"
         || is_command_name command "transcribe"
      then match args with
           | None => 0%nat
           | Some _ => S (served_requests rest)
           end
      else served_requests rest
  end.

(** The payloads that answer a request: a success, an error, or the result
    of an analysis. *)
Definition is_answer (p : Payload) : bool :=
  (p_type p =? "success")%string || (p_type p =? "error")%string
  || (p_type p =? "analysis-result")%string.

Definition answers (events : list Event) : list Payload :=
  filter is_answer (printed events).

(** * Properties *)

(** ** Strings *)

Lemma append_nil_r (s : string) : s ++ "" = s.
Proof. induction s as [|c s IH]; simpl; [reflexivity | now rewrite IH]. Qed.

Lemma append_assoc (s t u : string) : (s ++ t) ++ u = s ++ (t ++ u).
Proof. induction s as [|c s IH]; simpl; [reflexivity | now rewrite IH]. Qed.

Lemma length_append (s t : string) :
  String.length (s ++ t) = (String.length s + String.length t)%nat.
Proof. induction s as [|c s IH]; simpl; [reflexivity | now rewrite IH]. Qed.

Lemma length_repeat_char (c : ascii) (n : nat) :
  String.length (repeat_char c n) = n.
Proof. induction n as [|n IH]; simpl; [reflexivity | now rewrite IH]. Qed.

Lemma take_drop_str (n : nat) (s : string) : take_str n s ++ drop_str n s = s.
Proof.
  revert s; induction n as [|n IH]; intros [|c r]; simpl; try reflexivity.
  now rewrite IH.
Qed.

Lemma length_drop_str (n : nat) (s : string) :
  String.length (drop_str n s) = (String.length s - n)%nat.
Proof.
  revert s; induction n as [|n IH]; intros [|c r]; simpl; try reflexivity.
  apply IH.
Qed.

(** ** The scan *)

Lemma match_here_occurrence (w text : string) :
  match_here w text = true ->
  occurrence w (take_str (String.length w) text) = true.
Proof.
  revert text; induction w as [|p w IH]; intros [|c t]; simpl; try easy.
  intros H; apply andb_true_iff in H as [Hc Ht].
  now rewrite Hc, (IH _ Ht).
Qed.

Lemma occurrence_match_here (w u t : string) :
  occurrence w u = true -> match_here w (u ++ t) = true.
Proof.
  revert u; induction w as [|p w IH]; intros [|c u]; simpl; try easy.
  intros H; apply andb_true_iff in H as [Hc Hu].
  now rewrite Hc, (IH _ Hu).
Qed.

Lemma occurrence_length (w u : string) :
  occurrence w u = true -> String.length u = String.length w.
Proof.
  revert u; induction w as [|p w IH]; intros [|c u]; simpl; try easy.
  intros H; apply andb_true_iff in H as [_ Hu].
  now rewrite (IH _ Hu).
Qed.

Lemma re_sub_from_skip (w repl : string) (k : nat) (text : string) :
  re_sub_from w repl k text = re_sub_from w repl 0 (drop_str k text).
Proof.
  revert k; induction text as [|c rest IH]; intros [|k]; simpl; try reflexivity.
  rewrite IH. now destruct (drop_str k rest).
Qed.

Lemma masked_match (w text t' : string) :
  match_here w text = true ->
  masked w (drop_str (String.length w) text) t' ->
  masked w text (repeat_char mask_char (String.length w) ++ t').
Proof.
  intros Hm Ht.
  pose proof (match_here_occurrence _ _ Hm) as Hocc.
  pose proof (masked_hit w _ _ _ Hocc Ht) as M.
  now rewrite take_drop_str, (occurrence_length _ _ Hocc) in M.
Qed.

Lemma re_sub_masked_fuel (w : string) (n : nat) :
  w <> "" ->
  forall text, (String.length text <= n)%nat ->
    masked w text (re_sub w (repeat_char mask_char (String.length w)) text).
Proof.
  intros Hw; induction n as [|n IH]; intros [|c rest] Hlen; simpl in Hlen;
    try (apply masked_end); try lia.
  unfold re_sub; simpl re_sub_from.
  destruct (match_here w (String c rest)) eqn:Hm.
  - rewrite re_sub_from_skip.
    apply masked_match; [exact Hm|].
    destruct w as [|p w]; [contradiction|].
    simpl. rewrite Nat.sub_0_r.
    apply IH. rewrite length_drop_str. lia.
  - apply masked_keep; [exact Hm|].
    apply IH. lia.
Qed.

Lemma re_sub_masked (w text : string) :
  w <> "" ->
  masked w text (re_sub w (repeat_char mask_char (String.length w)) text).
Proof.
  intros Hw. apply (re_sub_masked_fuel w (String.length text) Hw). lia.
Qed.

Lemma masked_length (w t t' : string) :
  masked w t t' -> String.length t' = String.length t.
Proof.
  induction 1 as [|c t t' _ _ IH|u t t' _ _ IH]; simpl.
  - reflexivity.
  - now rewrite IH.
  - now rewrite !length_append, length_repeat_char, IH.
Qed.

Lemma stars_over_refl (t : string) : stars_over t t.
Proof. induction t as [|c t IH]; simpl; auto. Qed.

Lemma stars_over_trans (t1 t2 t3 : string) :
  stars_over t1 t2 -> stars_over t2 t3 -> stars_over t1 t3.
Proof.
  revert t2 t3; induction t1 as [|c1 t1 IH]; intros [|c2 t2] [|c3 t3];
    simpl; try easy.
  intros [H12 Hr12] [H23 Hr23]; split; [|eauto].
  destruct H23 as [->| ->]; auto.
Qed.

Lemma stars_over_mask (u t t' : string) :
  stars_over t t' ->
  stars_over (u ++ t) (repeat_char mask_char (String.length u) ++ t').
Proof.
  intros H; induction u as [|c u IH]; simpl; auto.
Qed.

Lemma masked_stars_over (w t t' : string) :
  masked w t t' -> stars_over t t'.
Proof.
  induction 1 as [|c t t' _ _ IH|u t t' _ _ IH]; simpl; auto.
  now apply stars_over_mask.
Qed.

Lemma stars_over_match (w t t' : string) :
  mask_free w = true ->
  stars_over t t' ->
  match_here w t' = true -> match_here w t = true.
Proof.
  revert t t'; induction w as [|p w IH]; intros [|c t] [|c' t'];
    simpl; try easy.
  intros Hfree [Hc Hr] Hm.
  apply andb_true_iff in Hfree as [Hp Hfree].
  apply andb_true_iff in Hm as [Hpc Hm].
  destruct Hc as [->| ->].
  - now rewrite Hpc, (IH _ _ Hfree Hr Hm).
  - now rewrite Hpc in Hp.
Qed.

Lemma stars_over_occurs (w t t' : string) :
  mask_free w = true ->
  stars_over t t' ->
  occurs w t = false -> occurs w t' = false.
Proof.
  intros Hfree; revert t'; induction t as [|c t IH]; intros [|c' t'];
    try easy.
  intros Hso Hocc.
  simpl in Hocc. apply orb_false_iff in Hocc as [Hm Hocc].
  change (match_here w (String c' t') || occurs w t' = false).
  apply orb_false_iff; split.
  - destruct (match_here w (String c' t')) eqn:Hm'; [|reflexivity].
    now rewrite (stars_over_match _ _ _ Hfree Hso Hm') in Hm.
  - destruct Hso as [_ Hso]. now apply IH.
Qed.

Lemma occurs_mask_run (w t : string) (n : nat) :
  word_ok w = true ->
  occurs w (repeat_char mask_char n ++ t) = occurs w t.
Proof.
  intros Hok; induction n as [|n IH]; [reflexivity|].
  change (match_here w (String mask_char (repeat_char mask_char n ++ t))
          || occurs w (repeat_char mask_char n ++ t) = occurs w t).
  rewrite IH.
  destruct w as [|p w]; [discriminate|].
  unfold word_ok in Hok; simpl in Hok.
  apply andb_true_iff in Hok as [Hp _].
  simpl match_here.
  now destruct (char_eq_ci p mask_char).
Qed.

Lemma masked_occurs (w t t' : string) :
  word_ok w = true ->
  masked w t t' -> occurs w t' = false.
Proof.
  intros Hok.
  assert (Hfree : mask_free w = true)
    by (unfold word_ok in Hok; now apply andb_true_iff in Hok).
  induction 1 as [|c t t' Hm Hmask IH|u t t' Hocc Hmask IH].
  - destruct w; [discriminate | reflexivity].
  - change (match_here w (String c t') || occurs w t' = false).
    rewrite IH, orb_false_r.
    destruct (match_here w (String c t')) eqn:Hm'; [|reflexivity].
    assert (Hso : stars_over (String c t) (String c t'))
      by (simpl; split; [now left | now apply masked_stars_over with w]).
    now rewrite (stars_over_match _ _ _ Hfree Hso Hm') in Hm.
  - now rewrite occurs_mask_run.
Qed.

Lemma re_sub_absent (w repl t : string) :
  occurs w t = false -> re_sub w repl t = t.
Proof.
  unfold re_sub; induction t as [|c t IH]; [reflexivity|].
  intros Hocc. simpl in Hocc. apply orb_false_iff in Hocc as [Hm Hocc].
  simpl re_sub_from. rewrite Hm. now rewrite IH.
Qed.

(** ** The passes over the list of words *)

Lemma mask_word_masked (w t : string) :
  word_ok w = true -> masked w t (mask_word t w).
Proof.
  intros Hok. apply re_sub_masked.
  intros ->. discriminate.
Qed.

Lemma fold_mask_in_order (ws : list string) :
  forallb word_ok ws = true ->
  forall t, masked_in_order ws t (fold_left mask_word ws t).
Proof.
  induction ws as [|w ws IH]; intros Hok t; simpl.
  - apply masked_none.
  - simpl in Hok. apply andb_true_iff in Hok as [Hw Hws].
    apply masked_next with (mask_word t w); [now apply mask_word_masked|].
    now apply IH.
Qed.

Lemma masked_in_order_stars_over (ws : list string) (t t' : string) :
  masked_in_order ws t t' -> stars_over t t'.
Proof.
  induction 1 as [t|w ws t t1 t2 Hm _ IH].
  - apply stars_over_refl.
  - apply stars_over_trans with t1; [|exact IH].
    now apply masked_stars_over with w.
Qed.

Lemma stars_over_length (t t' : string) :
  stars_over t t' -> String.length t' = String.length t.
Proof.
  revert t'; induction t as [|c t IH]; intros [|c' t']; simpl; try easy.
  intros [_ H]. now rewrite (IH _ H).
Qed.

Lemma masked_in_order_absent (ws : list string) (t t' : string) :
  forallb word_ok ws = true ->
  masked_in_order ws t t' ->
  forallb (fun w => negb (occurs w t')) ws = true.
Proof.
  intros Hok H; induction H as [t|w ws t t1 t2 Hm Hrest IH]; [reflexivity|].
  simpl in Hok. apply andb_true_iff in Hok as [Hw Hws].
  simpl. rewrite (IH Hws), andb_true_r.
  apply negb_true_iff.
  apply stars_over_occurs with t1.
  - unfold word_ok in Hw. now apply andb_true_iff in Hw.
  - now apply masked_in_order_stars_over with ws.
  - now apply masked_occurs with t.
Qed.

Lemma fold_mask_absent (ws : list string) (t : string) :
  forallb (fun w => negb (occurs w t)) ws = true ->
  fold_left mask_word ws t = t.
Proof.
  induction ws as [|w ws IH]; simpl; [reflexivity|].
  intros H. apply andb_true_iff in H as [Hw Hws].
  apply negb_true_iff in Hw.
  unfold mask_word at 2. rewrite (re_sub_absent _ _ _ Hw).
  now apply IH.
Qed.

Lemma bad_words_ok : forallb word_ok bad_words = true.
Proof. reflexivity. Qed.

(** C7.  The redaction takes the listed words in the order of the list; for
    each it replaces, reading from the left, every occurrence of the word
    (whatever the case of its letters, wherever it stands, occurrences not
    overlapping) by as many mask characters as the occurrence is long and
    keeps every other character; the result differs from the text only
    where a mask character stands, and it is as long as the text. *)
Theorem apply_profanity_filter_masks (text : string) :
  masked_in_order bad_words text (apply_profanity_filter text)
  /\ stars_over text (apply_profanity_filter text)
  /\ String.length (apply_profanity_filter text) = String.length text.
Proof.
  assert (H : masked_in_order bad_words text (apply_profanity_filter text))
    by (apply fold_mask_in_order, bad_words_ok).
  pose proof (masked_in_order_stars_over _ _ _ H) as Hso.
  split; [exact H|]. split; [exact Hso|].
  now apply stars_over_length.
Qed.

(** C10.  The redaction is idempotent: no listed word contains the mask
    character, so no occurrence of a listed word is left in, or created by,
    one application, and a second application changes nothing. *)
Theorem apply_profanity_filter_idempotent (text : string) :
  forallb (fun w => negb (occurs w (apply_profanity_filter text))) bad_words
    = true
  /\ apply_profanity_filter (apply_profanity_filter text)
     = apply_profanity_filter text.
Proof.
  assert (H : forallb (fun w => negb (occurs w (apply_profanity_filter text)))
                bad_words = true).
  { apply masked_in_order_absent with text; [apply bad_words_ok|].
    apply fold_mask_in_order, bad_words_ok. }
  split; [exact H|].
  now apply fold_mask_absent.
Qed.

(** ** The words of a transcript *)

Lemma collect_words_from (segs : list Segment) (acc : list Word) :
  fold_left
    (fun all_words segment =>
       match s_words segment with
       | Some ws => (all_words ++ ws)%list
       | None => all_words
       end)
    segs acc
  = (acc ++ flat_map segment_words segs)%list.
Proof.
  revert acc; induction segs as [|seg segs IH]; intros acc; simpl.
  - now rewrite app_nil_r.
  - rewrite IH. unfold segment_words at 2.
    destruct (s_words seg); [now rewrite app_assoc | reflexivity].
Qed.

Lemma collect_words_flat_map (segs : list Segment) :
  collect_words segs = flat_map segment_words segs.
Proof. unfold collect_words. now rewrite collect_words_from. Qed.

(** C5.  A transcript none of whose segments carries a timed word is
    rendered as the empty string with the count zero, whatever the format,
    the preset, the limits and the redaction switch, and whatever text the
    segments hold. *)
Theorem generate_output_no_words (result : Transcript)
    (format_type preset_mode : string) (max_chars max_lines : Z)
    (use_profanity : bool) :
  Forall (fun segment => s_words segment = None \/ s_words segment = Some [])
         (segments result) ->
  generate_output result format_type preset_mode max_chars max_lines
                  use_profanity
  = Ok ("", 0).
Proof.
  intros H. unfold generate_output.
  rewrite collect_words_flat_map.
  replace (flat_map segment_words (segments result)) with (@nil Word);
    [reflexivity|].
  induction H as [|seg segs Hseg _ IH]; [reflexivity|].
  simpl. rewrite <- IH. unfold segment_words.
  now destruct Hseg as [-> | ->].
Qed.

Lemma generate_output_no_words_witness :
  generate_output
    (mk_transcript [mk_segment " Some text" (S754_zero false) f_one None;
                    mk_segment " and more" f_one f_one (Some [])])
    "srt" "standard" 42 2 true
  = Ok ("", 0).
Proof.
  apply generate_output_no_words.
  constructor; [now left|].
  constructor; [now right|].
  constructor.
Defined.

(** ** The text path *)

Lemma render_txt_from (use_profanity : bool) (suf pre : list Segment)
    (out : string) :
  fold_left (txt_step (pre ++ suf) use_profanity)
            (combine (seq (List.length pre) (List.length suf)) suf) out
  = out ++ paragraphs use_profanity suf.
Proof.
  revert pre out; induction suf as [|seg rest IH]; intros pre out.
  - simpl. now rewrite append_nil_r.
  - simpl fold_left.
    replace (pre ++ seg :: rest)%list with ((pre ++ [seg]) ++ rest)%list
      by now rewrite <- app_assoc.
    replace (S (List.length pre)) with (List.length (pre ++ [seg])%list)
      by (rewrite length_app; simpl; lia).
    rewrite IH.
    unfold txt_step.
    rewrite <- app_assoc. simpl app.
    fold (segment_text use_profanity seg).
    rewrite length_app. simpl List.length.
    destruct rest as [|next rest].
    + match goal with
      | |- context [?a <? ?b] => destruct (Z.ltb_spec a b) as [Hlt|Hge]
      end; [simpl in Hlt; lia|].
      simpl. now rewrite !append_nil_r.
    + match goal with
      | |- context [?a <? ?b] => destruct (Z.ltb_spec a b) as [Hlt|Hge]
      end; [|simpl in Hge; lia].
      replace (nth (List.length pre + 1) (pre ++ seg :: next :: rest) seg)
        with next.
      2:{ rewrite app_nth2 by lia.
          now replace (List.length pre + 1 - List.length pre)%nat with 1%nat
            by lia. }
      change (paragraphs use_profanity (seg :: next :: rest))
        with (segment_text use_profanity seg
              ++ separator seg next
              ++ paragraphs use_profanity (next :: rest)).
      unfold separator, gap_after.
      destruct (fltb f_one (fsub (s_start next) (s_end seg)));
        now rewrite !append_assoc.
Qed.

Lemma render_txt_paragraphs (segs : list Segment) (use_profanity : bool) :
  render_txt segs use_profanity = paragraphs use_profanity segs.
Proof.
  unfold render_txt, enumerate.
  exact (render_txt_from use_profanity segs [] "").
Qed.

Lemma separator_cases (seg next : Segment) :
  (separator seg next = nl ++ nl <-> fltb f_one (gap_after seg next) = true)
  /\ (separator seg next = " " <-> fltb f_one (gap_after seg next) = false).
Proof.
  unfold separator.
  destruct (fltb f_one (gap_after seg next)); split; split;
    try reflexivity; discriminate.
Qed.

(** C4.  In the text format a transcript with a timed word is rendered as
    the trimmed (and, when asked, redacted) texts of its segments in order;
    between a segment and the next stands a paragraph break, two line
    breaks, exactly when the start of the next minus the end of the
    segment, as the float subtraction yields it, is above 1.0, and a single
    space otherwise, so also at a gap of exactly 1.0; nothing follows the
    last segment. *)
Theorem generate_output_txt_paragraphs (result : Transcript)
    (preset_mode : string) (max_chars max_lines : Z) (use_profanity : bool) :
  collect_words (segments result) <> [] ->
  generate_output result "txt" preset_mode max_chars max_lines use_profanity
  = Ok (paragraphs use_profanity (segments result),
        Z.of_nat (List.length (collect_words (segments result))))
  /\ (forall seg next,
        (separator seg next = nl ++ nl
         <-> fltb f_one (gap_after seg next) = true)
        /\ (separator seg next = " "
            <-> fltb f_one (gap_after seg next) = false))
  /\ (forall seg next, gap_after seg next = f_one -> separator seg next = " ")
  /\ (forall seg, paragraphs use_profanity [seg] = segment_text use_profanity seg).
Proof.
  intros Hwords. split; [|split; [|split]].
  - unfold generate_output.
    destruct (collect_words (segments result)) as [|w ws] eqn:E;
      [contradiction|].
    simpl String.eqb. cbv iota.
    now rewrite render_txt_paragraphs.
  - intros seg next. apply separator_cases.
  - intros seg next H. unfold separator. now rewrite H.
  - intros seg. simpl. apply append_nil_r.
Qed.

Lemma generate_output_txt_paragraphs_witness :
  generate_output
    (mk_transcript
       [mk_segment " One. " f_zero f_one
          (Some [mk_word " One." f_zero f_one]);
        mk_segment " Two. " (float_of_Z 2) (float_of_Z 3) None;
        mk_segment " Three. " (float_of_Z 5) (float_of_Z 6) None])
    "txt" "standard" 42 2 false
  = Ok ("One. Two." ++ nl ++ nl ++ "Three.", 1).
Proof.
  refine (eq_trans
            (proj1 (generate_output_txt_paragraphs _ "standard" 42 2 false _))
            _).
  - discriminate.
  - reflexivity.
Defined.

(** ** The subtitle path: writing the blocks *)

Lemma concat_empty_cons (x : string) (xs : list string) :
  String.concat "" (x :: xs) = x ++ String.concat "" xs.
Proof.
  destruct xs as [|y ys]; simpl; [now rewrite append_nil_r | reflexivity].
Qed.

Lemma render_blocks_cons (format_type : string) (use_profanity : bool)
    (b : Block) (rest : list Block) (out : string) (counter : Z) :
  render_blocks format_type use_profanity (b :: rest) out counter
  = (c <- caption format_type use_profanity (counter, b) ;;
     render_blocks format_type use_profanity rest (out ++ c) (counter + 1)).
Proof.
  simpl render_blocks. unfold caption, shown_text.
  destruct (format_timestamp (b_start b) format_type) as [s_ts|e];
    [|reflexivity].
  destruct (format_timestamp (b_end b) format_type) as [e_ts|e];
    [|reflexivity].
  simpl bind.
  now destruct (format_type =? "srt")%string.
Qed.

Lemma render_blocks_captions (format_type : string) (use_profanity : bool)
    (blocks : list Block) :
  forall (out : string) (counter : Z),
    render_blocks format_type use_profanity blocks out counter
    = (captions <- map_outcome (caption format_type use_profanity)
                               (number_from counter blocks) ;;
       Ok (out ++ String.concat "" captions)).
Proof.
  induction blocks as [|b rest IH]; intros out counter.
  - simpl. now rewrite append_nil_r.
  - rewrite render_blocks_cons.
    change (map_outcome (caption format_type use_profanity)
              (number_from counter (b :: rest)))
      with (c <- caption format_type use_profanity (counter, b) ;;
            bs <- map_outcome (caption format_type use_profanity)
                    (number_from (counter + 1) rest) ;;
            Ok (c :: bs)).
    destruct (caption format_type use_profanity (counter, b)) as [c|e];
      [|reflexivity].
    unfold bind at 1 3. rewrite IH.
    destruct (map_outcome (caption format_type use_profanity)
                (number_from (counter + 1) rest)) as [caps|e];
      [|reflexivity].
    unfold bind. now rewrite concat_empty_cons, append_assoc.
Qed.

Lemma number_from_numbers (blocks : list Block) (first : Z) :
  map fst (number_from first blocks)
  = map (fun i => first + Z.of_nat i) (seq 0 (List.length blocks))
  /\ map snd (number_from first blocks) = blocks.
Proof.
  revert first; induction blocks as [|b rest IH]; intros first;
    [now split|].
  destruct (IH (first + 1)) as [IHn IHb].
  simpl. rewrite IHn, IHb, <- seq_shift, map_map. split; [|reflexivity].
  f_equal; [lia|].
  apply map_ext. intros i. lia.
Qed.

Lemma generate_output_subtitles (result : Transcript)
    (format_type preset_mode : string) (max_chars max_lines : Z)
    (use_profanity : bool) :
  collect_words (segments result) <> [] ->
  (format_type =? "txt")%string = false ->
  generate_output result format_type preset_mode max_chars max_lines
                  use_profanity
  = (document <- caption_document format_type use_profanity
                   (layout_blocks preset_mode max_chars max_lines
                                  (collect_words (segments result))) ;;
     Ok (document, Z.of_nat (List.length (collect_words (segments result))))).
Proof.
  intros Hwords Hfmt. unfold generate_output, caption_document, layout_blocks.
  destruct (collect_words (segments result)) as [|w ws] eqn:E;
    [contradiction|].
  rewrite Hfmt, render_blocks_captions.
  now destruct (map_outcome _ _).
Qed.

(** C3, as amended.  For a transcript with a timed word and either caption
    format, the output is the document of the blocks of the layout: the
    header (the line WEBVTT and a blank line for vtt, nothing for srt), then
    for each block in order its caption: the number, a line break, the start
    timestamp, the arrow, the end timestamp, a line break, the text
    (redacted when asked) and a blank line; the numbers are 1, 2, 3 and so
    on; a timestamp that cannot be formatted fails the whole rendering.
    The text of a line is the concatenation of the words as they are given,
    so the example needs the words with their leading spaces. *)
Theorem generate_output_captions (result : Transcript)
    (format_type preset_mode : string) (max_chars max_lines : Z)
    (use_profanity : bool) :
  collect_words (segments result) <> [] ->
  format_type = "srt" \/ format_type = "vtt" ->
  let blocks := layout_blocks preset_mode max_chars max_lines
                  (collect_words (segments result)) in
  generate_output result format_type preset_mode max_chars max_lines
                  use_profanity
  = (document <- caption_document format_type use_profanity blocks ;;
     Ok (document, Z.of_nat (List.length (collect_words (segments result)))))
  /\ header "srt" = ""
  /\ header "vtt" = "WEBVTT" ++ nl ++ nl
  /\ map fst (number_from 1 blocks)
     = map (fun i => 1 + Z.of_nat i) (seq 0 (List.length blocks))
  /\ map snd (number_from 1 blocks) = blocks.
Proof.
  intros Hwords Hfmt blocks.
  split; [|split; [reflexivity|split; [reflexivity|]]].
  - apply generate_output_subtitles; [exact Hwords|].
    now destruct Hfmt as [-> | ->].
  - apply number_from_numbers.
Qed.

Lemma generate_output_captions_witness :
  generate_output (example_transcript example_words) "srt" "standard" 10 2 false
  = Ok ("1" ++ nl ++ "00:00:00,000 --> 00:00:01,000" ++ nl ++ "Hi there"
        ++ nl ++ nl, 2).
Proof.
  refine (eq_trans
            (proj1 (generate_output_captions
                      (example_transcript example_words)
                      "srt" "standard" 10 2 false _ _))
            _).
  - discriminate.
  - now left.
  - vm_compute. reflexivity.
Defined.

(** The example of C3 as it is written, the words without spaces: the line
    is the two words run together. *)
Lemma generate_output_bare_words_example :
  generate_output (example_transcript example_words_bare)
                  "srt" "standard" 10 2 false
  = Ok ("1" ++ nl ++ "00:00:00,000 --> 00:00:01,000" ++ nl ++ "Hithere"
        ++ nl ++ nl, 2)
  /\ generate_output (example_transcript example_words_bare)
                     "srt" "standard" 10 2 false
     <> Ok ("1" ++ nl ++ "00:00:00,000 --> 00:00:01,000" ++ nl ++ "Hi there"
            ++ nl ++ nl, 2).
Proof.
  split; [vm_compute; reflexivity|].
  vm_compute. discriminate.
Qed.

(** ** The packed layout *)

Lemma width_nonneg (ws : list Word) : 0 <= width ws.
Proof.
  induction ws as [|w ws IH]; simpl; [lia|].
  unfold len. lia.
Qed.

Lemma width_app (ws1 ws2 : list Word) :
  width (ws1 ++ ws2) = width ws1 + width ws2.
Proof. induction ws1 as [|w ws1 IH]; simpl; [reflexivity | lia]. Qed.

Lemma snoc_split {A : Type} (g g1 g2 : list A) (w x : A) :
  (g ++ [w])%list = (g1 ++ x :: g2)%list ->
  (g2 = [] /\ g1 = g /\ x = w)
  \/ exists g2', g2 = (g2' ++ [w])%list /\ g = (g1 ++ x :: g2')%list.
Proof.
  induction g2 as [|y g2' _] using rev_ind.
  - intros H. apply app_inj_tail in H as [-> ->]. now left.
  - intros H. right. exists g2'.
    change (g1 ++ x :: g2' ++ [y])%list with (g1 ++ (x :: g2') ++ [y])%list in H.
    rewrite app_assoc in H.
    apply app_inj_tail in H as [-> ->]. now split.
Qed.

Lemma fits_nil (max_chars : Z) : fits max_chars [].
Proof. intros [|x g1] w g2 H; discriminate. Qed.

Lemma fits_snoc (max_chars : Z) (g : list Word) (w : Word) :
  fits max_chars g ->
  width g = 0 \/ width g + len (w_word w) <= max_chars ->
  fits max_chars (g ++ [w]).
Proof.
  intros Hg Hw g1 x g2 H.
  apply snoc_split in H as [(_ & -> & ->) | (g2' & _ & ->)]; [exact Hw|].
  now apply (Hg g1 x g2').
Qed.

Lemma flush_line_some (st : PackState) :
  current_line_words st <> [] ->
  flush_line st
  = mk_pack (final_blocks st)
            (current_block_lines st ++ [line_of_words (current_line_words st)])
            [] 0.
Proof.
  unfold flush_line, line_of_words.
  destruct (current_line_words st); [contradiction | reflexivity].
Qed.

Lemma flush_line_none (st : PackState) :
  current_line_words st = [] -> flush_line st = st.
Proof. unfold flush_line. now intros ->. Qed.

Lemma flush_block_some (st : PackState) :
  current_block_lines st <> [] ->
  flush_block st
  = mk_pack (final_blocks st ++ [block_of_lines (current_block_lines st)])
            [] (current_line_words st) (current_line_len st).
Proof.
  unfold flush_block, block_of_lines.
  destruct (current_block_lines st); [contradiction | reflexivity].
Qed.

Lemma flush_block_none (st : PackState) :
  current_block_lines st = [] -> flush_block st = st.
Proof. unfold flush_block. now intros ->. Qed.

Lemma pack_inv_init (max_chars max_lines : Z) :
  pack_inv max_chars max_lines [] pack_init [] [].
Proof.
  constructor; simpl; auto using fits_nil.
Qed.

Lemma concat_snoc {A : Type} (ls : list (list A)) (l : list A) :
  List.concat (ls ++ [l]) = (List.concat ls ++ l)%list.
Proof. rewrite concat_app. simpl. now rewrite app_nil_r. Qed.

Lemma make_room_inv (max_chars max_lines : Z) (seen : list Word)
    (st : PackState) (done : list (list (list Word)))
    (lines : list (list Word)) (w : Word) :
  pack_inv max_chars max_lines seen st done lines ->
  exists done' lines',
    pack_inv max_chars max_lines seen (make_room max_chars max_lines st w)
             done' lines'
    /\ (current_line_len (make_room max_chars max_lines st w) = 0
        \/ current_line_len (make_room max_chars max_lines st w)
           + len (w_word w) <= max_chars).
Proof.
  intros I. unfold make_room.
  destruct (Z.gtb_spec (current_line_len st + len (w_word w)) max_chars)
    as [Hover|Hfit];
    [destruct (Z.gtb_spec (current_line_len st) 0) as [Hpos|Hzero]|];
    simpl andb; cbv iota.
  - assert (Hne : current_line_words st <> []).
    { intros E. pose proof (inv_len _ _ _ _ _ _ I) as Hl.
      rewrite E in Hl. simpl in Hl. lia. }
    rewrite (flush_line_some _ Hne).
    set (L := (lines ++ [current_line_words st])%list).
    assert (HL : (current_block_lines st
                  ++ [line_of_words (current_line_words st)])%list
                 = map line_of_words L).
    { unfold L. rewrite map_app. simpl. now rewrite (inv_lines _ _ _ _ _ _ I). }
    assert (HLgood : Forall (good_line max_chars) L).
    { unfold L. apply Forall_app; split; [exact (inv_open _ _ _ _ _ _ I)|].
      apply Forall_cons; [|apply Forall_nil].
      split; [exact Hne | exact (inv_fits _ _ _ _ _ _ I)]. }
    assert (HLlen : List.length L = S (List.length lines)).
    { unfold L. rewrite length_app. simpl. lia. }
    simpl current_block_lines. rewrite HL, length_map.
    destruct (Z.geb_spec (Z.of_nat (List.length L)) max_lines) as [Hfull|Hopen].
    + rewrite flush_block_some
        by (simpl; unfold L; now destruct lines).
      simpl. exists (done ++ [L])%list, []. split; [|now left].
      constructor; simpl.
      * now rewrite map_app, (inv_blocks _ _ _ _ _ _ I).
      * reflexivity.
      * rewrite app_nil_r, concat_snoc, concat_app.
        unfold L. rewrite concat_snoc.
        rewrite <- (inv_words _ _ _ _ _ _ I). now rewrite <- ?app_assoc.
      * reflexivity.
      * apply Forall_app; split; [exact (inv_done _ _ _ _ _ _ I)|].
        apply Forall_cons; [|apply Forall_nil].
        split; [unfold L; now destruct lines | exact HLgood].
      * constructor.
      * apply fits_nil.
      * intros Hml. destruct (inv_height _ _ _ _ _ _ I Hml) as [Hlt Hdone].
        split; [simpl; lia|].
        apply Forall_app; split; [exact Hdone|].
        apply Forall_cons; [lia | apply Forall_nil].
    + simpl. exists done, L. split; [|now left].
      constructor; simpl.
      * exact (inv_blocks _ _ _ _ _ _ I).
      * reflexivity.
      * unfold L. rewrite concat_snoc, app_nil_r.
        rewrite <- (inv_words _ _ _ _ _ _ I). now rewrite <- ?app_assoc.
      * reflexivity.
      * exact (inv_done _ _ _ _ _ _ I).
      * exact HLgood.
      * apply fits_nil.
      * intros Hml. destruct (inv_height _ _ _ _ _ _ I Hml) as [Hlt Hdone].
        split; [lia | exact Hdone].
  - exists done, lines. split; [exact I|]. left.
    pose proof (inv_len _ _ _ _ _ _ I) as Hl.
    pose proof (width_nonneg (current_line_words st)). lia.
  - exists done, lines. split; [exact I|]. now right.
Qed.

Lemma append_word_inv (max_chars max_lines : Z) (seen : list Word)
    (st : PackState) (done : list (list (list Word)))
    (lines : list (list Word)) (w : Word) :
  pack_inv max_chars max_lines seen st done lines ->
  current_line_len st = 0
  \/ current_line_len st + len (w_word w) <= max_chars ->
  pack_inv max_chars max_lines (seen ++ [w]) (append_word st w) done lines.
Proof.
  intros I Hw. pose proof (inv_len _ _ _ _ _ _ I) as Hl.
  constructor; simpl.
  - exact (inv_blocks _ _ _ _ _ _ I).
  - exact (inv_lines _ _ _ _ _ _ I).
  - rewrite <- (inv_words _ _ _ _ _ _ I). now rewrite <- ?app_assoc.
  - rewrite width_app, Hl. simpl. lia.
  - exact (inv_done _ _ _ _ _ _ I).
  - exact (inv_open _ _ _ _ _ _ I).
  - apply fits_snoc; [exact (inv_fits _ _ _ _ _ _ I)|].
    now rewrite <- Hl.
  - exact (inv_height _ _ _ _ _ _ I).
Qed.

Lemma pack_step_inv (max_chars max_lines : Z) (seen : list Word)
    (st : PackState) (done : list (list (list Word)))
    (lines : list (list Word)) (w : Word) :
  pack_inv max_chars max_lines seen st done lines ->
  exists done' lines',
    pack_inv max_chars max_lines (seen ++ [w])
             (pack_step max_chars max_lines st w) done' lines'.
Proof.
  intros I.
  destruct (make_room_inv _ _ _ _ _ _ w I) as (done' & lines' & I' & Hw).
  exists done', lines'. now apply append_word_inv.
Qed.

Lemma pack_fold_inv (max_chars max_lines : Z) (ws : list Word) :
  forall (seen : list Word) (st : PackState) done lines,
    pack_inv max_chars max_lines seen st done lines ->
    exists done' lines',
      pack_inv max_chars max_lines (seen ++ ws)
               (fold_left (pack_step max_chars max_lines) ws st) done' lines'.
Proof.
  induction ws as [|w ws IH]; intros seen st done lines I; simpl.
  - rewrite app_nil_r. now exists done, lines.
  - destruct (pack_step_inv _ _ _ _ _ _ w I) as (done1 & lines1 & I1).
    destruct (IH _ _ _ _ I1) as (done2 & lines2 & I2).
    exists done2, lines2. now rewrite <- app_assoc in I2.
Qed.

Lemma pack_loop_inv (max_chars max_lines : Z) (ws : list Word) :
  exists done lines,
    pack_inv max_chars max_lines ws (pack_loop max_chars max_lines ws)
             done lines.
Proof.
  exact (pack_fold_inv max_chars max_lines ws [] pack_init [] []
           (pack_inv_init max_chars max_lines)).
Qed.

Lemma Forall_removelast {A : Type} (P : A -> Prop) (l : list A) :
  Forall P l -> Forall P (removelast l).
Proof.
  induction 1 as [|x l Hx Hl IH]; simpl; [constructor|].
  destruct l; [constructor | now constructor].
Qed.

(** The blocks of the packed layout come from a layout of the words. *)
Lemma pack_blocks_layout (max_chars max_lines : Z) (all_words : list Word) :
  exists layout : list (list (list Word)),
    pack_blocks max_chars max_lines all_words = map block_of_layout layout
    /\ List.concat (List.concat layout) = all_words
    /\ Forall (good_block max_chars) layout
    /\ (0 < max_lines ->
        Forall (fun lines => Z.of_nat (List.length lines) <= max_lines) layout
        /\ Forall (fun lines => Z.of_nat (List.length lines) = max_lines)
                  (removelast layout)).
Proof.
  destruct (pack_loop_inv max_chars max_lines all_words) as (done & lines & I).
  unfold pack_blocks.
  set (st := pack_loop max_chars max_lines all_words) in *.
  assert (Hline : exists L,
             final_blocks (flush_line st) = map block_of_layout done
             /\ current_block_lines (flush_line st) = map line_of_words L
             /\ (List.concat (List.concat done) ++ List.concat L)%list
                = all_words
             /\ Forall (good_line max_chars) L
             /\ (0 < max_lines -> Z.of_nat (List.length L) <= max_lines)).
  { destruct (current_line_words st) as [|w0 cur] eqn:E.
    - exists lines. rewrite (flush_line_none _ E).
      pose proof (inv_words _ _ _ _ _ _ I) as Hw.
      rewrite E, app_nil_r in Hw.
      repeat split;
        [exact (inv_blocks _ _ _ _ _ _ I) | exact (inv_lines _ _ _ _ _ _ I)
        | exact Hw | exact (inv_open _ _ _ _ _ _ I) |].
      intros Hml. destruct (inv_height _ _ _ _ _ _ I Hml). lia.
    - assert (Hne : current_line_words st <> []) by now rewrite E.
      exists (lines ++ [current_line_words st])%list.
      rewrite (flush_line_some _ Hne). simpl.
      repeat split.
      + exact (inv_blocks _ _ _ _ _ _ I).
      + rewrite map_app. simpl. now rewrite (inv_lines _ _ _ _ _ _ I).
      + rewrite concat_snoc. exact (inv_words _ _ _ _ _ _ I).
      + apply Forall_app; split; [exact (inv_open _ _ _ _ _ _ I)|].
        apply Forall_cons; [|apply Forall_nil].
        split; [exact Hne | exact (inv_fits _ _ _ _ _ _ I)].
      + intros Hml. destruct (inv_height _ _ _ _ _ _ I Hml).
        rewrite length_app. simpl. lia. }
  destruct Hline as (L & Hb & Hl & Hw & HL & Hh).
  destruct L as [|l0 L'] eqn:EL.
  - exists done.
    rewrite flush_block_none by (rewrite Hl; reflexivity).
    simpl in Hw. rewrite app_nil_r in Hw.
    repeat split; [exact Hb | exact Hw | exact (inv_done _ _ _ _ _ _ I) | |].
    + destruct (inv_height _ _ _ _ _ _ I H) as [_ Hd].
      eapply Forall_impl; [|exact Hd]. simpl. lia.
    + destruct (inv_height _ _ _ _ _ _ I H) as [_ Hd].
      now apply Forall_removelast.
  - rewrite <- EL in *.
    assert (HLne : L <> []) by now rewrite EL.
    exists (done ++ [L])%list.
    rewrite flush_block_some by (rewrite Hl, EL; discriminate).
    simpl. rewrite Hb, Hl, map_app.
    repeat split.
    + now rewrite concat_snoc, concat_app.
    + apply Forall_app; split; [exact (inv_done _ _ _ _ _ _ I)|].
      apply Forall_cons; [now split | apply Forall_nil].
    + destruct (inv_height _ _ _ _ _ _ I H) as [_ Hd].
      apply Forall_app; split.
      * eapply Forall_impl; [|exact Hd]. simpl. lia.
      * apply Forall_cons; [now apply Hh | apply Forall_nil].
    + rewrite removelast_last.
      now destruct (inv_height _ _ _ _ _ _ I H).
Qed.

Lemma width_zero (ws : list Word) :
  width ws = 0 -> Forall (fun w => w_word w = "") ws.
Proof.
  induction ws as [|w ws IH]; intros H; [constructor|].
  change (len (w_word w) + width ws = 0) in H.
  pose proof (width_nonneg ws).
  assert (Hw : 0 <= len (w_word w)) by (unfold len; lia).
  constructor; [|apply IH; lia].
  assert (Hl : String.length (w_word w) = 0%nat) by (unfold len in *; lia).
  now destruct (w_word w).
Qed.

Lemma good_line_long_word (max_chars : Z) (g1 g2 : list Word) (w : Word) :
  fits max_chars (g1 ++ w :: g2) ->
  0 < max_chars < len (w_word w) ->
  width g1 = 0 /\ g2 = [].
Proof.
  intros Hfits Hlong.
  pose proof (width_nonneg g1) as Hg1.
  assert (H1 : width g1 = 0)
    by (destruct (Hfits g1 w g2 eq_refl); lia).
  split; [exact H1|].
  destruct g2 as [|x g2]; [reflexivity|].
  assert (E : (g1 ++ w :: x :: g2)%list = ((g1 ++ [w]) ++ x :: g2)%list)
    by now rewrite <- app_assoc.
  pose proof (Hfits _ _ _ E) as H2.
  rewrite width_app in H2. simpl in H2.
  assert (0 <= len (w_word x)) by (unfold len; lia).
  lia.
Qed.

(** C1, as amended.  In the packed layout, at the moment a word joins the
    current line, the line holds no character yet (it is empty, or its words
    all have an empty text) or its characters and those of the word together
    do not exceed [max_chars]; the blocks are built from a layout that holds
    every word once and in order, none dropped and none split; and, for a
    positive [max_chars], a word longer than [max_chars] has only words of
    empty text before it and no word behind it on its line. *)
Theorem packed_line_width (max_chars max_lines : Z) (all_words : list Word) :
  (forall pre w post,
      all_words = (pre ++ w :: post)%list ->
      let st := make_room max_chars max_lines
                  (pack_loop max_chars max_lines pre) w in
      current_line_len st = width (current_line_words st)
      /\ (current_line_len st = 0
          \/ current_line_len st + len (w_word w) <= max_chars)
      /\ (current_line_len st = 0 ->
          Forall (fun w' => w_word w' = "") (current_line_words st))
      /\ current_line_words
           (pack_step max_chars max_lines (pack_loop max_chars max_lines pre) w)
         = (current_line_words st ++ [w])%list)
  /\ exists layout : list (list (list Word)),
      pack_blocks max_chars max_lines all_words = map block_of_layout layout
      /\ List.concat (List.concat layout) = all_words
      /\ (forall lines g, In lines layout -> In g lines ->
            g <> [] /\ fits max_chars g)
      /\ (forall lines g1 w g2,
            In lines layout -> In (g1 ++ w :: g2)%list lines ->
            0 < max_chars < len (w_word w) ->
            Forall (fun w' => w_word w' = "") g1 /\ g2 = []).
Proof.
  split.
  - intros pre w post _ st.
    destruct (pack_loop_inv max_chars max_lines pre) as (done & lines & I).
    destruct (make_room_inv _ _ _ _ _ _ w I) as (done' & lines' & I' & Hw).
    fold st in I', Hw.
    split; [exact (inv_len _ _ _ _ _ _ I')|].
    split; [exact Hw|]. split; [|reflexivity].
    intros Hz. apply width_zero.
    now rewrite <- (inv_len _ _ _ _ _ _ I').
  - destruct (pack_blocks_layout max_chars max_lines all_words)
      as (layout & Hb & Hw & Hgood & _).
    exists layout.
    assert (Hline : forall lines g, In lines layout -> In g lines ->
                      g <> [] /\ fits max_chars g).
    { intros lines g Hlines Hg.
      rewrite Forall_forall in Hgood.
      destruct (Hgood _ Hlines) as [_ Hl].
      rewrite Forall_forall in Hl. exact (Hl _ Hg). }
    repeat split; try assumption; try (now apply (Hline lines g)).
    + destruct (Hline _ _ H H0) as [_ Hf].
      destruct (good_line_long_word _ _ _ _ Hf H1) as [Hz _].
      now apply width_zero.
    + destruct (Hline _ _ H H0) as [_ Hf].
      now destruct (good_line_long_word _ _ _ _ Hf H1).
Qed.

(** The claim C1 as it is written fails on a word of empty text: when the
    long word joins the line, the line holds a word, and the characters
    exceed the limit; the long word then shares its line. *)
Lemma packed_line_empty_text_word :
  let w1 := mk_word "" f_zero f_half in
  let w2 := mk_word "abcdef" f_half f_one in
  let st := make_room 5 2 (pack_loop 5 2 [w1]) w2 in
  current_line_words st = [w1]
  /\ current_line_len st + len (w_word w2) = 6
  /\ ~ (current_line_words st = []
        \/ current_line_len st + len (w_word w2) <= 5)
  /\ current_line_words (pack_loop 5 2 [w1; w2]) = [w1; w2].
Proof.
  vm_compute. repeat split.
  intros [H|H]; [discriminate | now apply H].
Qed.

(** C2.  In the packed layout with a positive [max_lines], every block
    written is made of at least one and at most [max_lines] lines, and every
    block but the last of exactly [max_lines]. *)
Theorem pack_blocks_height (max_chars max_lines : Z) (all_words : list Word) :
  0 < max_lines ->
  exists layout : list (list (list Word)),
    pack_blocks max_chars max_lines all_words = map block_of_layout layout
    /\ List.concat (List.concat layout) = all_words
    /\ Forall (fun lines => 1 <= Z.of_nat (List.length lines) <= max_lines)
              layout
    /\ Forall (fun lines => Z.of_nat (List.length lines) = max_lines)
              (removelast layout).
Proof.
  intros Hml.
  destruct (pack_blocks_layout max_chars max_lines all_words)
    as (layout & Hb & Hw & Hgood & Hh).
  destruct (Hh Hml) as [Hle Hfull].
  exists layout. repeat split; try assumption.
  rewrite Forall_forall in *. intros lines Hin.
  specialize (Hle _ Hin). destruct (Hgood _ Hin) as [Hne _].
  destruct lines; [contradiction|]. simpl List.length in *. lia.
Qed.

Lemma pack_blocks_height_witness :
  exists layout : list (list (list Word)),
    pack_blocks 4 1 example_words = map block_of_layout layout
    /\ List.concat (List.concat layout) = example_words
    /\ Forall (fun lines => 1 <= Z.of_nat (List.length lines) <= 1) layout
    /\ Forall (fun lines => Z.of_nat (List.length lines) = 1)
              (removelast layout).
Proof.
  apply (pack_blocks_height 4 1 example_words). lia.
Defined.

(** ** Options are not checked *)

Lemma map_outcome_raise {A B : Type} (f : A -> outcome B) (l : list A)
    (e : exn) :
  map_outcome f l = Raise e -> exists a, In a l /\ f a = Raise e.
Proof.
  induction l as [|a l IH]; simpl; [discriminate|].
  destruct (f a) as [b|e'] eqn:Ea; simpl.
  - intros H. destruct (map_outcome f l) as [bs|e'']; [discriminate|].
    destruct (IH H) as (a' & Hin & Ha'). exists a'. auto.
  - intros H. injection H as ->. exists a. auto.
Qed.

Lemma number_from_In (blocks : list Block) (first number : Z) (b : Block) :
  In (number, b) (number_from first blocks) -> In b blocks.
Proof.
  revert first; induction blocks as [|b0 rest IH]; intros first; simpl;
    [easy|].
  intros [H|H]; [injection H as _ ->; now left | right; eauto].
Qed.

Lemma format_timestamp_not_vtt (seconds : float) (fmt : string) :
  (fmt =? "vtt")%string = false ->
  format_timestamp seconds fmt = format_timestamp seconds "srt".
Proof. intros H. unfold format_timestamp. now rewrite H. Qed.

Lemma render_blocks_not_vtt (fmt : string) (use_profanity : bool)
    (blocks : list Block) :
  (fmt =? "vtt")%string = false ->
  forall out counter,
    render_blocks fmt use_profanity blocks out counter
    = render_blocks "srt" use_profanity blocks out counter.
Proof.
  intros H; induction blocks as [|b rest IH]; intros out counter;
    [reflexivity|].
  simpl render_blocks. rewrite !(format_timestamp_not_vtt _ _ H).
  destruct (format_timestamp (b_start b) "srt"); [|reflexivity].
  destruct (format_timestamp (b_end b) "srt"); [|reflexivity].
  simpl bind. rewrite IH.
  now destruct (fmt =? "srt")%string.
Qed.

Lemma make_room_low_chars (max_chars max_lines : Z) (st : PackState)
    (w : Word) :
  max_chars <= 0 ->
  make_room max_chars max_lines st w = make_room 0 max_lines st w.
Proof.
  intros H. unfold make_room.
  assert (0 <= len (w_word w)) by (unfold len; lia).
  destruct (Z.gtb_spec (current_line_len st) 0) as [Hpos|Hzero].
  - destruct (Z.gtb_spec (current_line_len st + len (w_word w)) max_chars);
      destruct (Z.gtb_spec (current_line_len st + len (w_word w)) 0);
      try lia; reflexivity.
  - now rewrite !andb_false_r.
Qed.

Lemma pack_loop_low_chars (max_chars max_lines : Z) (ws : list Word) :
  max_chars <= 0 ->
  pack_loop max_chars max_lines ws = pack_loop 0 max_lines ws.
Proof.
  intros H. unfold pack_loop. generalize pack_init.
  induction ws as [|w ws IH]; intros st; simpl; [reflexivity|].
  unfold pack_step at 2 4. now rewrite (make_room_low_chars _ _ _ _ H).
Qed.

Lemma make_room_low_lines (max_chars max_lines : Z) (st : PackState)
    (w : Word) :
  max_lines <= 0 ->
  current_line_len st = width (current_line_words st) ->
  make_room max_chars max_lines st w = make_room max_chars 1 st w.
Proof.
  intros H Hlen. unfold make_room.
  destruct (Z.gtb_spec (current_line_len st) 0) as [Hpos|Hzero];
    [|now rewrite !andb_false_r].
  destruct (current_line_len st + len (w_word w) >? max_chars);
    [|reflexivity].
  simpl andb. cbv iota.
  rewrite flush_line_some
    by (intros E; rewrite E in Hlen; simpl in Hlen; lia).
  simpl current_block_lines. rewrite length_app. simpl List.length.
  destruct (Z.geb_spec
              (Z.of_nat (List.length (current_block_lines st) + 1)) max_lines);
    destruct (Z.geb_spec
                (Z.of_nat (List.length (current_block_lines st) + 1)) 1);
    try lia; reflexivity.
Qed.

Lemma pack_fold_low_lines (max_chars max_lines : Z) (ws : list Word) :
  max_lines <= 0 ->
  forall seen st done lines,
    pack_inv max_chars max_lines seen st done lines ->
    fold_left (pack_step max_chars max_lines) ws st
    = fold_left (pack_step max_chars 1) ws st.
Proof.
  intros H; induction ws as [|w ws IH]; intros seen st done lines I;
    [reflexivity|].
  simpl.
  destruct (pack_step_inv _ _ _ _ _ _ w I) as (done' & lines' & I').
  rewrite (IH _ _ _ _ I').
  unfold pack_step.
  now rewrite (make_room_low_lines _ _ _ _ H (inv_len _ _ _ _ _ _ I)).
Qed.

Lemma pack_loop_low_lines (max_chars max_lines : Z) (ws : list Word) :
  max_lines <= 0 ->
  pack_loop max_chars max_lines ws = pack_loop max_chars 1 ws.
Proof.
  intros H.
  exact (pack_fold_low_lines max_chars max_lines ws H [] pack_init [] []
           (pack_inv_init max_chars max_lines)).
Qed.

(** C9, as amended.  [generate_output] checks none of its options and
    rejects none: it fails only when the timestamp of a block cannot be
    formatted; a format other than txt and vtt is written as srt is, a
    preset other than tiktok is the packed layout, a [max_chars] below 1 is
    used as 0 is and a [max_lines] below 1 as 1 is. *)
Theorem generate_output_accepts_options (result : Transcript)
    (format_type preset_mode : string) (max_chars max_lines : Z)
    (use_profanity : bool) :
  (forall e,
      generate_output result format_type preset_mode max_chars max_lines
                      use_profanity = Raise e ->
      exists b,
        In b (layout_blocks preset_mode max_chars max_lines
                            (collect_words (segments result)))
        /\ (format_timestamp (b_start b) format_type = Raise e
            \/ format_timestamp (b_end b) format_type = Raise e))
  /\ ((format_type =? "txt")%string = false ->
      (format_type =? "vtt")%string = false ->
      generate_output result format_type preset_mode max_chars max_lines
                      use_profanity
      = generate_output result "srt" preset_mode max_chars max_lines
                        use_profanity)
  /\ ((preset_mode =? "tiktok")%string = false ->
      generate_output result format_type preset_mode max_chars max_lines
                      use_profanity
      = generate_output result format_type "standard" max_chars max_lines
                        use_profanity)
  /\ (max_chars <= 0 ->
      generate_output result format_type preset_mode max_chars max_lines
                      use_profanity
      = generate_output result format_type preset_mode 0 max_lines
                        use_profanity)
  /\ (max_lines <= 0 ->
      generate_output result format_type preset_mode max_chars max_lines
                      use_profanity
      = generate_output result format_type preset_mode max_chars 1
                        use_profanity).
Proof.
  split; [|split; [|split; [|split]]].
  - intros e H.
    destruct (collect_words (segments result)) as [|w0 ws0] eqn:Ew.
    { unfold generate_output in H. rewrite Ew in H. discriminate. }
    destruct (format_type =? "txt")%string eqn:Ef.
    { unfold generate_output in H. rewrite Ew, Ef in H. discriminate. }
    rewrite generate_output_subtitles in H
      by (rewrite ?Ew; solve [discriminate | exact Ef]).
    rewrite Ew in H. unfold caption_document in H.
    destruct (map_outcome _ _) as [caps|e'] eqn:Em; [discriminate|].
    simpl in H. injection H as ->.
    apply map_outcome_raise in Em as ([number b] & Hin & Hb).
    exists b. split; [now apply number_from_In in Hin|].
    unfold caption in Hb.
    destruct (format_timestamp (b_start b) format_type); [|now left].
    destruct (format_timestamp (b_end b) format_type); [discriminate|].
    now right.
  - intros Htxt Hvtt. unfold generate_output. rewrite Htxt.
    unfold header. rewrite Hvtt. simpl String.eqb.
    now rewrite (render_blocks_not_vtt _ _ _ Hvtt).
  - intros H. unfold generate_output. now rewrite H.
  - intros H. unfold generate_output, pack_blocks.
    now rewrite (pack_loop_low_chars _ _ _ H).
  - intros H. unfold generate_output, pack_blocks.
    now rewrite (pack_loop_low_lines _ _ _ H).
Qed.

(** Limits below 1, an unknown format and an unknown preset are all
    rendered. *)
Lemma generate_output_invalid_options_rendered :
  generate_output (example_transcript example_words)
                  "srt" "standard" (-7) (-3) false
  = Ok ("1" ++ nl ++ "00:00:00,000 --> 00:00:00,500" ++ nl ++ "Hi" ++ nl ++ nl
        ++ "2" ++ nl ++ "00:00:00,500 --> 00:00:01,000" ++ nl ++ "there"
        ++ nl ++ nl, 2)
  /\ generate_output (example_transcript example_words)
                     "sub" "wide" 10 2 false
     = Ok ("1" ++ nl ++ "00:00:00,000 --> 00:00:01,000" ++ nl ++ "Hi there"
           ++ nl ++ nl, 2).
Proof. split; vm_compute; reflexivity. Qed.

(** ** Float division of ints, and its integer part *)

Lemma digits2_pos_bounds (p : positive) :
  2 ^ (Zpos (digits2_pos p) - 1) <= Zpos p < 2 ^ Zpos (digits2_pos p).
Proof.
  induction p as [p IH|p IH|]; simpl digits2_pos.
  - rewrite Pos2Z.inj_succ.
    replace (Z.succ (Zpos (digits2_pos p)) - 1) with (Z.succ (Zpos (digits2_pos p) - 1)) by lia.
    rewrite !Z.pow_succ_r by lia. lia.
  - rewrite Pos2Z.inj_succ.
    replace (Z.succ (Zpos (digits2_pos p)) - 1) with (Z.succ (Zpos (digits2_pos p) - 1)) by lia.
    rewrite !Z.pow_succ_r by lia. lia.
  - simpl. lia.
Qed.

Lemma Zdigits2_unique (m d : Z) :
  0 < d -> 2 ^ (d - 1) <= m < 2 ^ d -> Zdigits2 m = d.
Proof.
  intros Hd [Hlo Hhi].
  destruct m as [|p|p]; try (pose proof (Z.pow_pos_nonneg 2 (d - 1)); lia).
  simpl. pose proof (digits2_pos_bounds p) as [Plo Phi].
  set (k := Zpos (digits2_pos p)) in *.
  assert (k > 0) by (unfold k; lia).
  destruct (Z.lt_trichotomy k d) as [H1|[H1|H1]]; [|exact H1|].
  - assert (2 ^ k <= 2 ^ (d - 1)) by (apply Z.pow_le_mono_r; lia). lia.
  - assert (2 ^ d <= 2 ^ (k - 1)) by (apply Z.pow_le_mono_r; lia). lia.
Qed.

Lemma loc_of_shr_record_of_loc (m : Z) (l : location) :
  loc_of_shr_record (shr_record_of_loc m l) = l.
Proof. now destruct l as [|[]]. Qed.

Lemma round_nearest_even_cases (m : Z) (l : location) :
  round_nearest_even m l = m \/ round_nearest_even m l = m + 1.
Proof. destruct l as [|[]]; simpl; auto. destruct (Z.even m); auto. Qed.

Lemma shr_1_pos (m : Z) (r s : bool) :
  0 <= m -> shr_m (shr_1 (Build_shr_record m r s)) = m / 2.
Proof.
  intros Hm. destruct m as [|[p|p|]|]; simpl shr_m; try lia.
  all: cbn [shr_1 shr_m]; try reflexivity.
  - apply (Z.div_unique (Zpos p~1) 2 (Zpos p) 1); lia.
  - apply (Z.div_unique (Zpos p~0) 2 (Zpos p) 0); lia.
Qed.

Lemma shr_fexp_53 (m e : Z) (l : location) :
  2 ^ 52 <= m < 2 ^ 53 -> -1074 <= e ->
  shr_fexp prec emax m e l = (shr_record_of_loc m l, e).
Proof.
  intros Hm He. unfold shr_fexp.
  rewrite (Zdigits2_unique m 53) by lia.
  replace (fexp prec emax (53 + e) - e) with 0
    by (unfold fexp, emin, prec, emax; lia).
  reflexivity.
Qed.

Lemma shr_fexp_54 (m e : Z) (l : location) :
  2 ^ 53 <= m < 2 ^ 54 -> -1074 <= e ->
  shr_fexp prec emax m e l = (shr_1 (shr_record_of_loc m l), e + 1).
Proof.
  intros Hm He. unfold shr_fexp.
  rewrite (Zdigits2_unique m 54) by lia.
  replace (fexp prec emax (54 + e) - e) with 1
    by (unfold fexp, emin, prec, emax; lia).
  reflexivity.
Qed.

Lemma shr_record_of_loc_m (m : Z) (l : location) :
  shr_m (shr_record_of_loc m l) = m.
Proof. now destruct l as [|[]]. Qed.

Lemma int_of_float_finite (sx : bool) (m : positive) (e : Z) :
  e < 0 ->
  int_of_float (S754_finite sx m e) = Ok (cond_Zopp sx (Zpos m / 2 ^ (- e))).
Proof.
  intros He. destruct e as [|k|k]; try lia.
  unfold int_of_float, int_part.
  now rewrite Z.shiftr_div_pow2 by lia.
Qed.

(** A mantissa of 53 bits, or the 54-bit one, rounded as it stands. *)
Lemma binary_round_exact (sx : bool) (M e : Z) :
  2 ^ 52 <= M <= 2 ^ 53 -> -1000 <= e <= -3 ->
  int_of_float
    (let '(mrs, e') := shr_fexp prec emax M e loc_Exact in
     match shr_m mrs with
     | 0 => S754_zero sx
     | Z.pos m =>
         if e' <=? emax - prec then S754_finite sx m e'
         else S754_infinity sx
     | Z.neg _ => S754_nan
     end)
  = Ok (cond_Zopp sx (M / 2 ^ (- e))).
Proof.
  intros HM He.
  destruct (Z.eq_dec M (2 ^ 53)) as [->|NE].
  - rewrite shr_fexp_54 by lia.
    change (shr_m (shr_1 (shr_record_of_loc (2 ^ 53) loc_Exact)))
      with (2 ^ 52).
    replace (e + 1 <=? emax - prec) with true
      by (symmetry; apply Z.leb_le; unfold emax, prec; lia).
    change (2 ^ 52) with (Zpos (2 ^ 52)%positive) at 1.
    cbv iota beta. rewrite int_of_float_finite by lia.
    do 2 f_equal.
    replace (- e) with (Z.succ (- (e + 1))) by lia.
    rewrite Z.pow_succ_r by lia.
    change (2 ^ 53) with (2 * Zpos (2 ^ 52)%positive).
    rewrite Z.div_mul_cancel_l; [reflexivity | | lia].
    apply Z.pow_nonzero; lia.
  - rewrite shr_fexp_53 by lia.
    rewrite shr_record_of_loc_m.
    replace (e <=? emax - prec) with true
      by (symmetry; apply Z.leb_le; unfold emax, prec; lia).
    destruct M as [|m|m]; try lia.
    cbv iota beta. now rewrite int_of_float_finite by lia.
Qed.

(** Rounding a mantissa of 53 or 54 bits at a negative exponent: the result
    is finite, and its integer part is that of the mantissa shortened to 53
    bits and then kept or raised by one. *)
Lemma binary_round_aux_int (sx : bool) (mx ex : Z) (lx : location) :
  2 ^ 52 <= mx < 2 ^ 54 -> -1000 <= ex <= -4 ->
  exists t M1,
    (t = 0 \/ t = 1)
    /\ (M1 = mx / 2 ^ t \/ M1 = mx / 2 ^ t + 1)
    /\ int_of_float (binary_round_aux prec emax sx mx ex lx)
       = Ok (cond_Zopp sx (M1 / 2 ^ (- (ex + t)))).
Proof.
  intros Hmx Hex. unfold binary_round_aux.
  destruct (Z.lt_ge_cases mx (2 ^ 53)) as [Hlt|Hge].
  - exists 0, (round_nearest_even mx lx).
    rewrite shr_fexp_53 by lia.
    rewrite loc_of_shr_record_of_loc, shr_record_of_loc_m.
    change (2 ^ 0) with 1. rewrite Z.div_1_r, Z.add_0_r.
    pose proof (round_nearest_even_cases mx lx) as HM.
    repeat split; auto.
    apply binary_round_exact; lia.
  - exists 1, (round_nearest_even (mx / 2)
                 (loc_of_shr_record (shr_1 (shr_record_of_loc mx lx)))).
    rewrite shr_fexp_54 by lia.
    assert (Hm : shr_m (shr_1 (shr_record_of_loc mx lx)) = mx / 2).
    { destruct lx as [|[]]; apply shr_1_pos; lia. }
    rewrite Hm. change (2 ^ 1) with 2.
    assert (2 ^ 52 <= mx / 2 < 2 ^ 53).
    { split; [apply Z.div_le_lower_bound | apply Z.div_lt_upper_bound]; lia. }
    pose proof (round_nearest_even_cases (mx / 2)
                  (loc_of_shr_record (shr_1 (shr_record_of_loc mx lx)))) as HM.
    repeat split; auto.
    apply binary_round_exact; lia.
Qed.

(** The float quotient of two ints, the divisor positive and the quotient
    well below 2^49: it is finite; its integer part is that of a mantissa
    [M1], the quotient scaled by [2 ^ K], cut to an integer and kept or
    raised by one, with [K] the bits behind the point. *)
Lemma int_true_divide_rounded (a b : Z) :
  a <> 0 -> 0 < b ->
  -900 <= Zdigits2 (Z.abs a) - Zdigits2 b <= 49 ->
  exists K t M1,
    (t = 0 \/ t = 1)
    /\ K = 53 + Zdigits2 b - Zdigits2 (Z.abs a) - t
    /\ (M1 = Z.abs a * 2 ^ (K + t) / b / 2 ^ t
        \/ M1 = Z.abs a * 2 ^ (K + t) / b / 2 ^ t + 1)
    /\ int_of_float (int_true_divide a b)
       = Ok (cond_Zopp (a <? 0) (M1 / 2 ^ K)).
Proof.
  intros Ha Hb.
  assert (E : int_true_divide a b
              = let '(mz, ez, lz) :=
                  SFdiv_core_binary prec emax (Z.abs a) 0 b 0 in
                binary_round_aux prec emax (a <? 0) mz ez lz)
    by (destruct a; [contradiction | reflexivity | reflexivity]).
  rewrite E. clear E.
  assert (Hp : 0 < Z.abs a) by lia.
  destruct (Z.abs a) as [|p|p] eqn:Ep; try lia.
  destruct b as [|pb|pb]; try lia.
  pose proof (digits2_pos_bounds p) as Dp.
  pose proof (digits2_pos_bounds pb) as Db.
  unfold SFdiv_core_binary. cbn [Zdigits2].
  set (d1 := Zpos (digits2_pos p)) in *.
  set (d2 := Zpos (digits2_pos pb)) in *.
  intros Hd.
  assert (Hd1 : 1 <= d1) by (unfold d1; lia).
  assert (Hd2 : 1 <= d2) by (unfold d2; lia).
  replace (Z.min (fexp prec emax (d1 + 0 - (d2 + 0))) (0 - 0))
    with (d1 - d2 - 53) by (unfold fexp, emin, prec, emax; lia).
  replace (0 - 0 - (d1 - d2 - 53)) with (53 + d2 - d1) by lia.
  set (s := 53 + d2 - d1).
  assert (Hs : 0 < s) by (unfold s; lia).
  replace (match s with
           | Z.pos _ => Z.shiftl (Zpos p) s
           | 0 => Zpos p
           | Z.neg _ => 0
           end)
    with (Zpos p * 2 ^ s)
    by (destruct s; try lia; now rewrite Z.shiftl_mul_pow2 by lia).
  destruct (Z.div_eucl (Zpos p * 2 ^ s) (Zpos pb)) as [Q R] eqn:E.
  assert (HQ : Q = Zpos p * 2 ^ s / Zpos pb) by (unfold Z.div; now rewrite E).
  assert (P52 : 2 ^ (d1 - 1) * 2 ^ s = 2 ^ 52 * 2 ^ d2).
  { rewrite <- !Z.pow_add_r by lia. f_equal. unfold s. lia. }
  assert (P54 : 2 ^ d1 * 2 ^ s = 2 ^ 54 * 2 ^ (d2 - 1)).
  { rewrite <- !Z.pow_add_r by lia. f_equal. unfold s. lia. }
  assert (Ps : 0 < 2 ^ s) by (apply Z.pow_pos_nonneg; lia).
  assert (HQb : 2 ^ 52 <= Q < 2 ^ 54).
  { rewrite HQ. split.
    - apply Z.div_le_lower_bound; [lia|]. nia.
    - apply Z.div_lt_upper_bound; [lia|]. nia. }
  destruct (binary_round_aux_int (a <? 0) Q (d1 - d2 - 53)
              (new_location (Zpos pb) R) HQb ltac:(lia))
    as (t & M1 & Ht & HM1 & ->).
  exists (s - t), t, M1.
  split; [exact Ht|]. split; [unfold s; lia|].
  split.
  - replace (s - t + t) with s by lia. now rewrite <- HQ.
  - now replace (- (d1 - d2 - 53 + t)) with (s - t) by (unfold s; lia).
Qed.

Lemma floor_of_rounded_quotient (a b K t M1 : Z) :
  0 < a -> 0 < b -> 0 <= K -> 0 <= t -> b < 2 ^ K ->
  M1 = a * 2 ^ (K + t) / b / 2 ^ t \/ M1 = a * 2 ^ (K + t) / b / 2 ^ t + 1 ->
  M1 / 2 ^ K = a / b.
Proof.
  intros Ha Hb HK Ht HbK HM.
  assert (P : 0 < 2 ^ K) by (apply Z.pow_pos_nonneg; lia).
  assert (Pt : 0 < 2 ^ t) by (apply Z.pow_pos_nonneg; lia).
  assert (E : a * 2 ^ (K + t) / b / 2 ^ t = a * 2 ^ K / b).
  { rewrite Z.div_div by lia.
    rewrite Z.pow_add_r by lia.
    rewrite Z.mul_assoc. apply Z.div_mul_cancel_r; lia. }
  rewrite E in HM. clear E.
  set (q := a / b).
  assert (Hq : b * q <= a < b * (q + 1)).
  { unfold q. pose proof (Z.div_mod a b ltac:(lia)).
    pose proof (Z.mod_pos_bound a b Hb). lia. }
  assert (Lo : q * 2 ^ K <= a * 2 ^ K / b)
    by (apply Z.div_le_lower_bound; [lia | nia]).
  assert (Hi : a * 2 ^ K / b < (q + 1) * 2 ^ K - 1)
    by (apply Z.div_lt_upper_bound; [lia | nia]).
  symmetry. apply (Z.div_unique M1 (2 ^ K) q (M1 - q * 2 ^ K)); [left|]; nia.
Qed.

Lemma Zdigits2_bounds (m : Z) :
  0 < m -> 0 < Zdigits2 m /\ 2 ^ (Zdigits2 m - 1) <= m < 2 ^ Zdigits2 m.
Proof.
  intros Hm. destruct m as [|p|p]; try lia.
  split; [simpl; lia | apply digits2_pos_bounds].
Qed.

Lemma Zdigits2_le (m k : Z) : 0 < m -> 0 <= k -> m < 2 ^ k -> Zdigits2 m <= k.
Proof.
  intros Hm Hk Hlt. destruct (Zdigits2_bounds m Hm) as [Hd [Hlo _]].
  destruct (Z.le_gt_cases (Zdigits2 m) k) as [H|H]; [exact H|].
  assert (2 ^ k <= 2 ^ (Zdigits2 m - 1)) by (apply Z.pow_le_mono_r; lia).
  lia.
Qed.

Lemma Zdigits2_ge (m k : Z) : 0 <= k -> 2 ^ k <= m -> k + 1 <= Zdigits2 m.
Proof.
  intros Hk Hle.
  assert (Hm : 0 < m) by (pose proof (Z.pow_pos_nonneg 2 k); lia).
  destruct (Zdigits2_bounds m Hm) as [Hd [_ Hhi]].
  destruct (Z.le_gt_cases (k + 1) (Zdigits2 m)) as [H|H]; [exact H|].
  assert (2 ^ Zdigits2 m <= 2 ^ k) by (apply Z.pow_le_mono_r; lia).
  lia.
Qed.

(** Below 2^52 the integer part of the float quotient is the integer
    quotient. *)
Lemma int_true_divide_floor (a b : Z) :
  0 <= a < 2 ^ 52 -> 2 ^ 9 <= b < 2 ^ 52 ->
  int_of_float (int_true_divide a b) = Ok (a / b).
Proof.
  intros Ha Hb.
  destruct (Z.eq_dec a 0) as [->|Hne]; [reflexivity|].
  pose proof (Zdigits2_le a 52 ltac:(lia) ltac:(lia) ltac:(lia)) as A1.
  pose proof (Zdigits2_bounds a ltac:(lia)) as [A0 _].
  pose proof (Zdigits2_le b 52 ltac:(lia) ltac:(lia) ltac:(lia)) as B1.
  pose proof (Zdigits2_ge b 9 ltac:(lia) ltac:(lia)) as B0.
  pose proof (Zdigits2_bounds b ltac:(lia)) as [_ [_ Bhi]].
  destruct (int_true_divide_rounded a b Hne ltac:(lia))
    as (K & t & M1 & Ht & HK & HM1 & ->).
  { rewrite Z.abs_eq by lia. lia. }
  rewrite Z.abs_eq in * by lia.
  replace (a <? 0) with false by (symmetry; apply Z.ltb_ge; lia).
  simpl cond_Zopp. f_equal.
  apply (floor_of_rounded_quotient a b K t M1); try lia.
  assert (2 ^ Zdigits2 b <= 2 ^ K) by (apply Z.pow_le_mono_r; lia).
  lia.
Qed.

(** The float quotient of an int of the size of a microsecond total by
    a million has an integer part. *)
Lemma int_true_divide_total (a : Z) :
  Z.abs a < 2 ^ 67 ->
  exists z, int_of_float (int_true_divide a 1000000) = Ok z.
Proof.
  intros Ha.
  destruct (Z.eq_dec a 0) as [->|Hne]; [now exists 0|].
  pose proof (Zdigits2_le (Z.abs a) 67 ltac:(lia) ltac:(lia) Ha) as A1.
  pose proof (Zdigits2_bounds (Z.abs a) ltac:(lia)) as [A0 _].
  destruct (int_true_divide_rounded a 1000000 Hne ltac:(lia))
    as (K & t & M1 & _ & _ & _ & ->).
  { change (Zdigits2 1000000) with 20. lia. }
  eauto.
Qed.

(** ** Decimal digits *)

Lemma digit_char_code (d : Z) :
  0 <= d <= 9 ->
  Z.of_nat (nat_of_ascii (digit_char d)) - 48 = d
  /\ is_digit (digit_char d) = true.
Proof.
  intros Hd. unfold digit_char, is_digit.
  rewrite nat_ascii_embedding by lia.
  split; [lia|].
  apply andb_true_iff; split; apply Nat.leb_le; lia.
Qed.

Lemma decimal_value_from_app (s t : string) (acc : Z) :
  decimal_value_from acc (s ++ t)
  = decimal_value_from (decimal_value_from acc s) t.
Proof.
  revert acc; induction s as [|c s IH]; intros acc; simpl;
    [reflexivity | apply IH].
Qed.

Lemma all_digits_app (s t : string) :
  all_digits (s ++ t) = all_digits s && all_digits t.
Proof.
  induction s as [|c s IH]; simpl; [reflexivity|].
  now rewrite IH, andb_assoc.
Qed.

Lemma decimal_value_snoc (s : string) (c : ascii) :
  decimal_value (s ++ String c "")
  = 10 * decimal_value s + (Z.of_nat (nat_of_ascii c) - 48).
Proof. unfold decimal_value. now rewrite decimal_value_from_app. Qed.

Lemma all_digits_snoc (s : string) (c : ascii) :
  all_digits (s ++ String c "") = all_digits s && is_digit c.
Proof.
  rewrite all_digits_app.
  change (all_digits (String c "")) with (is_digit c && true).
  now rewrite andb_true_r.
Qed.

Lemma decimal_digits_succ (fuel : nat) (n : Z) :
  decimal_digits (S fuel) n
  = (if n <? 10 then "" else decimal_digits fuel (n / 10))
    ++ String (digit_char (n mod 10)) "".
Proof. reflexivity. Qed.

Lemma decimal_digits_spec (fuel : nat) :
  forall n, 0 <= n < 10 ^ Z.of_nat fuel ->
    decimal_value (decimal_digits fuel n) = n
    /\ all_digits (decimal_digits fuel n) = true.
Proof.
  induction fuel as [|fuel IH]; intros n Hn.
  - change (10 ^ Z.of_nat 0) with 1 in Hn.
    assert (n = 0) by lia. subst. now split.
  - rewrite Nat2Z.inj_succ, Z.pow_succ_r in Hn by lia.
    rewrite decimal_digits_succ, decimal_value_snoc, all_digits_snoc.
    pose proof (Z.mod_pos_bound n 10 ltac:(lia)) as Hm.
    pose proof (Z.div_mod n 10 ltac:(lia)) as Hd.
    destruct (digit_char_code (n mod 10) ltac:(lia)) as [Hc Hdig].
    rewrite Hc, Hdig.
    destruct (Z.ltb_spec n 10) as [Hlt|Hge].
    + change (decimal_value "") with 0. change (all_digits "") with true.
      split; [|reflexivity].
      rewrite Z.mod_small by lia. lia.
    + destruct (IH (n / 10)) as [Hv Ha].
      { split; [apply Z.div_pos; lia|].
        apply Z.div_lt_upper_bound; lia. }
      rewrite Hv, Ha.
      split; [lia | reflexivity].
Qed.

Lemma decimal_spec (n : Z) :
  0 <= n ->
  decimal_value (decimal n) = n /\ all_digits (decimal n) = true.
Proof.
  intros Hn. unfold decimal. apply decimal_digits_spec.
  split; [exact Hn|].
  rewrite Nat2Z.inj_succ, Z2Nat.id by apply Z.log2_nonneg.
  destruct (Z.eq_dec n 0) as [->|Hpos]; [reflexivity|].
  destruct (Z.log2_spec n ltac:(lia)) as [_ Hlt].
  assert (2 ^ Z.succ (Z.log2 n) <= 10 ^ Z.succ (Z.log2 n)).
  { apply Z.pow_le_mono_l. lia. }
  lia.
Qed.

Lemma decimal_value_bound (s : string) :
  all_digits s = true ->
  forall acc, 0 <= acc ->
    0 <= decimal_value_from acc s
    < (acc + 1) * 10 ^ Z.of_nat (String.length s).
Proof.
  induction s as [|c s IH]; intros Hs acc Hacc.
  - change (10 ^ Z.of_nat (String.length "")) with 1.
    change (decimal_value_from acc "") with acc. lia.
  - change (all_digits (String c s)) with (is_digit c && all_digits s) in Hs.
    apply andb_true_iff in Hs as [Hc Hs].
    unfold is_digit in Hc. apply andb_true_iff in Hc as [Hc1 Hc2].
    apply Nat.leb_le in Hc1, Hc2.
    change (decimal_value_from acc (String c s))
      with (decimal_value_from
              (10 * acc + (Z.of_nat (nat_of_ascii c) - 48)) s).
    change (String.length (String c s)) with (S (String.length s)).
    rewrite Nat2Z.inj_succ, Z.pow_succ_r by lia.
    set (d := Z.of_nat (nat_of_ascii c) - 48).
    assert (Hd : 0 <= d <= 9) by (unfold d; lia).
    specialize (IH Hs (10 * acc + d) ltac:(lia)).
    set (P := 10 ^ Z.of_nat (String.length s)) in *.
    assert (HP : 0 < P) by (apply Z.pow_pos_nonneg; lia).
    assert ((10 * acc + d + 1) * P <= (acc + 1) * (10 * P)) by nia.
    lia.
Qed.

Lemma decimal_length (n : Z) :
  100 <= n -> (3 <= String.length (decimal n))%nat.
Proof.
  intros Hn.
  destruct (decimal_spec n ltac:(lia)) as [Hv Ha].
  pose proof (decimal_value_bound _ Ha 0 ltac:(lia)) as Hb.
  fold (decimal_value (decimal n)) in Hb. rewrite Hv in Hb.
  destruct (String.length (decimal n)) as [|[|[|k]]];
    simpl in Hb; lia.
Qed.

Lemma format_two_digits (n : Z) :
  0 <= n < 100 -> format_int_0 2 n = two_digits n.
Proof.
  intros Hn.
  assert (H : forallb
                (fun k => (format_int_0 2 (Z.of_nat k)
                           =? two_digits (Z.of_nat k))%string)
                (seq 0 100) = true)
    by (vm_compute; reflexivity).
  rewrite forallb_forall in H.
  specialize (H (Z.to_nat n)). rewrite Z2Nat.id in H by lia.
  apply String.eqb_eq, H, in_seq. lia.
Qed.

Lemma format_three_digits (n : Z) :
  0 <= n < 1000 -> format_int_0 3 n = three_digits n.
Proof.
  intros Hn.
  assert (H : forallb
                (fun k => (format_int_0 3 (Z.of_nat k)
                           =? three_digits (Z.of_nat k))%string)
                (seq 0 1000) = true)
    by (vm_compute; reflexivity).
  rewrite forallb_forall in H.
  specialize (H (Z.to_nat n)). rewrite Z2Nat.id in H by lia.
  apply String.eqb_eq, H, in_seq. lia.
Qed.

Lemma format_hours (h : Z) :
  0 <= h -> format_int_0 2 h = hours_field h.
Proof.
  intros Hh. unfold hours_field.
  destruct (Z.ltb_spec h 100) as [Hlt|Hge];
    [apply format_two_digits; lia|].
  unfold format_int_0.
  replace (h <? 0) with false by (symmetry; apply Z.ltb_ge; lia).
  unfold zfill.
  pose proof (decimal_length h Hge) as Hl.
  now replace (2 - String.length (decimal h))%nat with 0%nat by lia.
Qed.

Lemma hours_field_spec (h : Z) :
  0 <= h ->
  decimal_value (hours_field h) = h
  /\ all_digits (hours_field h) = true
  /\ (2 <= String.length (hours_field h))%nat.
Proof.
  intros Hh. unfold hours_field.
  destruct (Z.ltb_spec h 100) as [Hlt|Hge].
  - pose proof (Z.mod_pos_bound h 10 ltac:(lia)) as Hm.
    pose proof (Z.div_mod h 10 ltac:(lia)) as Hd.
    assert (Hq : 0 <= h / 10 <= 9).
    { assert (h / 10 < 10) by (apply Z.div_lt_upper_bound; lia).
      split; [apply Z.div_pos; lia | lia]. }
    destruct (digit_char_code _ Hq) as [Hc1 Hd1].
    destruct (digit_char_code (h mod 10) ltac:(lia)) as [Hc2 Hd2].
    unfold two_digits, decimal_value.
    cbn [decimal_value_from all_digits String.length].
    rewrite Hc1, Hc2, Hd1, Hd2. repeat split; lia.
  - destruct (decimal_spec h Hh) as [Hv Ha].
    pose proof (decimal_length h Hge). repeat split; auto; lia.
Qed.

(** ** The timestamp *)

Lemma microseconds_to_delta_fields (us : Z) (td : timedelta) :
  microseconds_to_delta us = Ok td ->
  delta_to_microseconds td = us
  /\ td_microseconds td = us mod 1000000
  /\ Z.abs us < 2 ^ 67.
Proof.
  unfold microseconds_to_delta, delta_to_microseconds, us_per_second.
  destruct (_ && _) eqn:Hd; [|discriminate].
  apply andb_true_iff in Hd as [Hlo Hhi].
  apply Z.leb_le in Hlo, Hhi.
  intros H. injection H as <-. simpl.
  split; [|split; [reflexivity|]]; Z.div_mod_to_equations; lia.
Qed.

Lemma timedelta_of_seconds_fields (seconds : float) (td : timedelta) :
  timedelta_of_seconds seconds = Ok td ->
  td_microseconds td = delta_to_microseconds td mod 1000000
  /\ Z.abs (delta_to_microseconds td) < 2 ^ 67.
Proof.
  unfold timedelta_of_seconds.
  destruct (accum_seconds seconds) as [[x leftover]|e]; [|discriminate].
  simpl bind. intros H.
  destruct (microseconds_to_delta_fields _ _ H) as (-> & -> & Hr).
  now split.
Qed.

(** The timestamp of an input fails exactly when the constructor refuses
    the input. *)
Lemma format_timestamp_raises (seconds : float) (fmt : string) (e : exn) :
  format_timestamp seconds fmt = Raise e
  <-> timedelta_of_seconds seconds = Raise e.
Proof.
  unfold format_timestamp.
  destruct (timedelta_of_seconds seconds) as [td|e'] eqn:Htd;
    [|simpl bind; split; intros H; injection H as ->; reflexivity].
  simpl bind.
  destruct (timedelta_of_seconds_fields _ _ Htd) as [Hus Hr].
  unfold total_seconds, us_per_second.
  destruct (int_true_divide_total _ Hr) as [z ->]. simpl bind.
  rewrite Hus, int_true_divide_floor
    by (try (pose proof (Z.mod_pos_bound (delta_to_microseconds td) 1000000
                           ltac:(lia))); lia).
  simpl bind.
  split; [|discriminate].
  now destruct (fmt =? "vtt")%string.
Qed.

(** *** Inputs beyond the range of [timedelta] *)

Lemma binary_round_aux_sign_clear (mx ex : Z) (lx : location) :
  sign_clear (binary_round_aux prec emax false mx ex lx) = true.
Proof.
  unfold binary_round_aux.
  destruct (shr_fexp prec emax mx ex lx) as [mrs' e'].
  destruct (shr_fexp prec emax _ e' loc_Exact) as [mrs'' e''].
  destruct (shr_m mrs''); try reflexivity.
  now destruct (e'' <=? emax - prec).
Qed.

Lemma frac_part_sign_clear (x : float) :
  sign_clear x = true -> sign_clear (frac_part x) = true.
Proof.
  destruct x as [s|s| |[|] m [|k|k]]; try easy.
  intros _. unfold frac_part, cond_Zopp, binary_normalize, binary_round.
  pose proof (Z.land_nonneg (Zpos m) (Z.ones (Zpos k))) as [_ H].
  destruct (Z.land (Zpos m) (Z.ones (Zpos k))) as [|p|p];
    [reflexivity | | lia].
  destruct (shl_align p (Zneg k) _) as [mz ez].
  apply binary_round_aux_sign_clear.
Qed.

Lemma fmul_sign_clear (m : positive) (e : Z) (y : float) :
  sign_clear y = true ->
  sign_clear (fmul (S754_finite false m e) y) = true.
Proof.
  destruct y as [s|s| |[|] my ey]; try easy.
  intros _. apply binary_round_aux_sign_clear.
Qed.

Lemma int_part_sign_clear (x : float) :
  sign_clear x = true -> 0 <= int_part x.
Proof.
  destruct x as [s|s| |[|] m [|k|k]]; intros H; try discriminate H;
    unfold int_part, cond_Zopp; try lia.
  - apply Z.shiftl_nonneg. lia.
  - apply Z.shiftl_nonneg. lia.
  - apply Z.shiftr_nonneg. lia.
Qed.

Lemma round_leftover_sign_clear (x : Z) (leftover : float) :
  sign_clear leftover = true -> 0 <= round_leftover x leftover.
Proof.
  destruct leftover as [s|s| |[|] m [|k|k]]; intros H; try discriminate H;
    unfold round_leftover, cond_Zopp; try lia.
  destruct (_ ?= _); try lia.
  destruct (Z.odd x); lia.
Qed.

Lemma timedelta_of_seconds_beyond (x : float) :
  sign_clear x = true ->
  int_of_float x = Ok (int_part x) ->
  86400000000000 <= int_part x ->
  timedelta_of_seconds x = Raise OverflowError.
Proof.
  intros Hx Hi Hbig.
  unfold timedelta_of_seconds, accum_seconds. rewrite Hi. cbn [bind].
  assert (H : exists add leftover,
             0 <= add /\ sign_clear leftover = true
             /\ (if is_zero (frac_part x)
                 then Ok (int_part x * us_per_second, S754_zero false)
                 else Ok (int_part x * us_per_second
                          + int_part (fmul (float_of_Z us_per_second)
                                           (frac_part x)),
                          frac_part (fmul (float_of_Z us_per_second)
                                          (frac_part x))))
                = Ok (int_part x * us_per_second + add, leftover)).
  { destruct (is_zero (frac_part x)).
    - exists 0, (S754_zero false). now rewrite Z.add_0_r.
    - pose proof (fmul_sign_clear 8589934592000000 (-33) _
                    (frac_part_sign_clear _ Hx)) as Hd.
      replace (S754_finite false 8589934592000000 (-33))
        with (float_of_Z us_per_second) in Hd by (vm_compute; reflexivity).
      eexists _, _. split; [|split; [|reflexivity]].
      + now apply int_part_sign_clear.
      + now apply frac_part_sign_clear. }
  destruct H as (add & leftover & Hadd & Hl & ->). cbn [bind].
  pose proof (round_leftover_sign_clear
                (int_part x * us_per_second + add) leftover Hl) as Hr.
  unfold microseconds_to_delta, us_per_second in *.
  set (T := int_part x * 1000000 + add
            + round_leftover (int_part x * 1000000 + add) leftover) in *.
  assert (999999999 < T / 1000000 / 86400).
  { assert (86400000000000000000 <= T) by (unfold T; lia).
    Z.div_mod_to_equations. lia. }
  replace (T / 1000000 / 86400 <=? 999999999) with false
    by (symmetry; apply Z.leb_gt; lia).
  now rewrite andb_false_r.
Qed.

(** A finite input of a thousand million days or more is refused. *)
Lemma timedelta_of_seconds_large (m : positive) (e : Z) :
  86400000000000 <= int_part (S754_finite false m e) ->
  timedelta_of_seconds (S754_finite false m e) = Raise OverflowError.
Proof.
  intros Hbig. now apply timedelta_of_seconds_beyond.
Qed.

(** C6, as amended.  When the [timedelta] constructor accepts the input
    and the microsecond total it makes of it is not negative and below 2^52
    (more than 140 years), the timestamp is the clock reading of that total:
    the hours in two digits, or in as many as they have from 100 hours on,
    never wrapped; the minutes and the seconds in two digits; the mark, a
    point for vtt and a comma otherwise; and the whole milliseconds of the
    total in three digits, cut and not rounded.  The total is the input
    rounded to the microsecond by the constructor, so the cut is made on the
    rounded value.  The hours are limited all the same: a finite input of
    86400e9 seconds (a thousand million days) or more is refused. *)
Theorem format_timestamp_clock (seconds : float) (fmt : string)
    (td : timedelta) :
  timedelta_of_seconds seconds = Ok td ->
  0 <= delta_to_microseconds td < 2 ^ 52 ->
  format_timestamp seconds fmt = Ok (clock (delta_to_microseconds td) fmt)
  /\ (let h := delta_to_microseconds td / 3600000000 in
      decimal_value (hours_field h) = h
      /\ all_digits (hours_field h) = true
      /\ (2 <= String.length (hours_field h))%nat)
  /\ fraction_mark "srt" = ","
  /\ fraction_mark "vtt" = "."
  /\ (forall m e,
        86400000000000 <= int_part (S754_finite false m e) ->
        format_timestamp (S754_finite false m e) fmt = Raise OverflowError).
Proof.
  intros Htd Hrange.
  pose proof (proj1 (timedelta_of_seconds_fields _ _ Htd)) as Hus.
  set (T := delta_to_microseconds td) in *.
  split; [|split; [|split; [reflexivity|split; [reflexivity|]]]].
  3:{ intros m e Hbig. apply format_timestamp_raises.
      now apply timedelta_of_seconds_large. }
  - unfold format_timestamp. rewrite Htd. simpl bind.
    unfold total_seconds. fold T. unfold us_per_second.
    rewrite int_true_divide_floor by lia. simpl bind.
    rewrite Hus, int_true_divide_floor
      by (try (pose proof (Z.mod_pos_bound T 1000000 ltac:(lia))); lia).
    simpl bind.
    assert (H0 : 0 <= T / 1000000 / 3600)
      by (apply Z.div_pos; [apply Z.div_pos|]; lia).
    rewrite (format_hours _ H0).
    rewrite (format_two_digits ((T / 1000000) mod 3600 / 60))
      by (Z.div_mod_to_equations; lia).
    rewrite (format_two_digits ((T / 1000000) mod 60))
      by (Z.div_mod_to_equations; lia).
    rewrite (format_three_digits (T mod 1000000 / 1000))
      by (Z.div_mod_to_equations; lia).
    replace (T / 1000000 / 3600) with (T / 3600000000)
      by (Z.div_mod_to_equations; lia).
    replace ((T / 1000000) mod 3600 / 60) with (T / 60000000 mod 60)
      by (Z.div_mod_to_equations; lia).
    replace (T mod 1000000 / 1000) with (T / 1000 mod 1000)
      by (Z.div_mod_to_equations; lia).
    unfold clock, fraction_mark.
    now destruct (fmt =? "vtt")%string.
  - apply hours_field_spec. apply Z.div_pos; lia.
Qed.

Lemma format_timestamp_clock_witness :
  format_timestamp f_1_4567 "srt" = Ok "00:00:01,456".
Proof.
  refine (eq_trans
            (proj1 (format_timestamp_clock f_1_4567 "srt"
                      (mk_timedelta 0 1 456700) _ _))
            _).
  - vm_compute. reflexivity.
  - vm_compute. split; [discriminate | reflexivity].
  - vm_compute. reflexivity.
Defined.

(** The claim C6 as it is written fails twice: 0.9999996 has 999 whole
    milliseconds and is rendered as one second, and 1e14, finite and not
    negative, is refused. *)
Lemma format_timestamp_rounds_and_refuses :
  exact_millis f_0_9999996 = 999
  /\ format_timestamp f_0_9999996 "srt" = Ok "00:00:01,000"
  /\ format_timestamp f_1e14 "srt" = Raise OverflowError.
Proof. repeat split; vm_compute; reflexivity. Qed.

(** ** Timestamps that are refused, and timestamps that are not *)

(** C8, as amended.  [format_timestamp] fails on every input that is not
    finite, with the error of the [timedelta] constructor, [ValueError] for
    a NaN and [OverflowError] for an infinity; it fails exactly on the inputs
    the constructor refuses, with the constructor's error, and no string is
    produced then.  (A negative finite input is not refused for its
    sign.) *)
Theorem format_timestamp_not_finite (fmt : string) :
  format_timestamp S754_nan fmt = Raise ValueError
  /\ (forall s, format_timestamp (S754_infinity s) fmt = Raise OverflowError)
  /\ (forall seconds e,
        format_timestamp seconds fmt = Raise e
        <-> timedelta_of_seconds seconds = Raise e).
Proof.
  split; [reflexivity|]. split; [reflexivity|].
  intros seconds e. apply format_timestamp_raises.
Qed.

(** Negative inputs are rendered: minus a half second as a half second,
    minus one and a half seconds with a negative hour. *)
Lemma format_timestamp_negative_rendered :
  format_timestamp f_minus_half "srt" = Ok "00:00:00,500"
  /\ format_timestamp f_minus_one_and_half "srt" = Ok "-1:59:59,500".
Proof. split; vm_compute; reflexivity. Qed.

(** * Further properties *)

(** ** The packed layout is wrapping, then grouping *)

Lemma group_from_last (max_lines : Z) (block : list (list Word))
    (l : list Word) :
  group_from max_lines block [l] = [(block ++ [l])%list].
Proof.
  simpl. destruct (_ >=? _); [reflexivity|].
  now destruct block.
Qed.

Lemma pack_fold_layout (max_chars max_lines : Z) (rest : list Word) :
  forall (st : PackState) (done : list (list (list Word)))
         (lines : list (list Word)),
    final_blocks st = map block_of_layout done ->
    current_block_lines st = map line_of_words lines ->
    current_line_len st = width (current_line_words st) ->
    final_blocks
      (flush_block
         (flush_line (fold_left (pack_step max_chars max_lines) rest st)))
    = map block_of_layout
        (done ++ group_from max_lines lines
                   (wrap_from max_chars (current_line_words st) rest)).
Proof.
  induction rest as [|w rest IH]; intros st done lines Hb Hl Hlen.
  - simpl fold_left. simpl wrap_from.
    destruct (current_line_words st) as [|w0 cur] eqn:Ecur.
    + rewrite (flush_line_none _ Ecur).
      destruct lines as [|l0 lines].
      * rewrite flush_block_none by exact Hl.
        simpl. now rewrite app_nil_r.
      * rewrite flush_block_some by (rewrite Hl; discriminate).
        simpl final_blocks. simpl group_from.
        now rewrite map_app, Hb, Hl.
    + assert (Hne : current_line_words st <> []) by now rewrite Ecur.
      rewrite (flush_line_some _ Hne), Ecur.
      rewrite flush_block_some by (simpl; now destruct (current_block_lines st)).
      simpl final_blocks. simpl current_block_lines.
      rewrite group_from_last, map_app, Hb, Hl.
      simpl. unfold block_of_layout. now rewrite map_app.
  - simpl fold_left. simpl wrap_from. rewrite <- Hlen.
    unfold pack_step at 2. unfold make_room.
    destruct ((current_line_len st + len (w_word w) >? max_chars)
              && (current_line_len st >? 0)) eqn:Hcond.
    + apply andb_true_iff in Hcond as [_ Hpos].
      apply Z.gtb_lt in Hpos.
      assert (Hne : current_line_words st <> []).
      { intros E. rewrite E in Hlen. simpl in Hlen. lia. }
      rewrite (flush_line_some _ Hne). simpl current_block_lines.
      set (L := (lines ++ [current_line_words st])%list).
      assert (HL : (current_block_lines st
                    ++ [line_of_words (current_line_words st)])%list
                   = map line_of_words L)
        by (unfold L; rewrite map_app, Hl; reflexivity).
      rewrite HL, length_map. simpl group_from. fold L.
      destruct (Z.of_nat (List.length L) >=? max_lines).
      * rewrite (flush_block_some
                   (mk_pack (final_blocks st) (map line_of_words L) [] 0))
          by (simpl; unfold L; destruct lines; simpl; discriminate).
        rewrite (IH _ (done ++ [L])%list []).
        -- now rewrite <- app_assoc.
        -- simpl. rewrite map_app, Hb. reflexivity.
        -- reflexivity.
        -- simpl. lia.
      * rewrite (IH _ done L); [reflexivity | exact Hb | reflexivity |].
        simpl. lia.
    + rewrite (IH _ done lines); [reflexivity | exact Hb | exact Hl |].
      simpl. rewrite width_app, Hlen. simpl. lia.
Qed.

Lemma wrap_from_concat (max_chars : Z) (ws : list Word) :
  forall line, List.concat (wrap_from max_chars line ws) = (line ++ ws)%list.
Proof.
  induction ws as [|w ws IH]; intros line; simpl.
  - destruct line; simpl; now rewrite ?app_nil_r.
  - destruct (_ && _); simpl; rewrite IH; [reflexivity|].
    now rewrite <- app_assoc.
Qed.

Lemma wrap_from_nonempty (max_chars : Z) (ws : list Word) :
  forall line, Forall (fun g => g <> []) (wrap_from max_chars line ws).
Proof.
  induction ws as [|w ws IH]; intros line; simpl.
  - destruct line; repeat constructor. discriminate.
  - destruct (_ && _) eqn:Hc; [|apply IH].
    constructor; [|apply IH].
    apply andb_true_iff in Hc as [_ Hpos]. apply Z.gtb_lt in Hpos.
    intros ->. simpl in Hpos. lia.
Qed.

Lemma group_from_concat (max_lines : Z) (lines : list (list Word)) :
  forall block,
    List.concat (group_from max_lines block lines) = (block ++ lines)%list.
Proof.
  induction lines as [|l lines IH]; intros block; simpl.
  - destruct block; simpl; now rewrite ?app_nil_r.
  - destruct (_ >=? _); simpl; rewrite IH; simpl;
      now rewrite <- ?app_assoc.
Qed.

Lemma group_from_nonempty (max_lines : Z) (lines : list (list Word)) :
  forall block,
    Forall (fun b => b <> []) (group_from max_lines block lines).
Proof.
  induction lines as [|l lines IH]; intros block; simpl.
  - destruct block; repeat constructor. discriminate.
  - destruct (_ >=? _); [|apply IH].
    constructor; [now destruct block | apply IH].
Qed.

(** X1.  The blocks of the packed layout are those of two passes made one
    after the other: the words are wrapped into lines, whatever
    [max_lines] is, and the lines are grouped into blocks, whatever
    [max_chars] is; lines and blocks are never empty, and together they hold
    the words once and in order. *)
Theorem pack_blocks_wrap_group (max_chars max_lines : Z)
    (all_words : list Word) :
  pack_blocks max_chars max_lines all_words
  = map block_of_layout (group_lines max_lines (wrap_lines max_chars all_words))
  /\ List.concat (group_lines max_lines (wrap_lines max_chars all_words))
     = wrap_lines max_chars all_words
  /\ List.concat (wrap_lines max_chars all_words) = all_words
  /\ Forall (fun g => g <> []) (wrap_lines max_chars all_words)
  /\ Forall (fun b => b <> [])
            (group_lines max_lines (wrap_lines max_chars all_words)).
Proof.
  split; [|split; [|split; [|split]]].
  - unfold pack_blocks, pack_loop, group_lines, wrap_lines.
    now rewrite (pack_fold_layout max_chars max_lines all_words pack_init [] []).
  - unfold group_lines. now rewrite group_from_concat.
  - unfold wrap_lines. now rewrite wrap_from_concat.
  - apply wrap_from_nonempty.
  - apply group_from_nonempty.
Qed.

Lemma length_lstrip (s : string) :
  (String.length (lstrip s) <= String.length s)%nat.
Proof.
  induction s as [|c s IH]; simpl; [lia|].
  destruct (is_space c); simpl; lia.
Qed.

Lemma length_rstrip (s : string) :
  (String.length (rstrip s) <= String.length s)%nat.
Proof.
  induction s as [|c s IH]; simpl; [lia|].
  destruct (rstrip s); [destruct (is_space c)|]; simpl in *; lia.
Qed.

Lemma length_strip (s : string) :
  (String.length (strip s) <= String.length s)%nat.
Proof.
  unfold strip. pose proof (length_rstrip (lstrip s)).
  pose proof (length_lstrip s). lia.
Qed.

Lemma length_concat_words (g : list Word) :
  len (String.concat "" (map w_word g)) = width g.
Proof.
  induction g as [|w g IH]; [reflexivity|].
  change (map w_word (w :: g)) with (w_word w :: map w_word g).
  rewrite concat_empty_cons. unfold len in *.
  rewrite length_append, Nat2Z.inj_add, IH. reflexivity.
Qed.

Lemma line_text_length (g : list Word) :
  len (l_text (line_of_words g)) <= width g.
Proof.
  rewrite <- length_concat_words. unfold line_of_words, len. simpl l_text.
  pose proof (length_strip (String.concat "" (map w_word g))). lia.
Qed.

Lemma wrap_from_width (max_chars : Z) (ws : list Word) :
  Forall (fun w => len (w_word w) <= max_chars) ws ->
  forall line,
    line = [] \/ width line <= max_chars ->
    Forall (fun g => width g <= max_chars) (wrap_from max_chars line ws).
Proof.
  induction 1 as [|w ws Hw Hws IH]; intros line Hline; simpl.
  - destruct line as [|w0 line]; [constructor|].
    constructor; [|constructor].
    now destruct Hline as [Hline|Hline].
  - pose proof (width_nonneg line) as Hnn.
    destruct (Z.gtb_spec (width line + len (w_word w)) max_chars)
      as [Hover|Hfit];
      [destruct (Z.gtb_spec (width line) 0) as [Hpos|Hzero]|]; simpl.
    + constructor.
      * destruct Hline as [->|Hline]; [simpl in Hpos; lia | exact Hline].
      * apply IH. right. simpl. lia.
    + apply IH. right. rewrite width_app. simpl. lia.
    + apply IH. right. rewrite width_app. simpl. lia.
Qed.



Lemma wrap_from_head (max_chars : Z) (ws : list Word) :
  forall line, line <> [] ->
    exists t ls, wrap_from max_chars line ws = (line ++ t)%list :: ls.
Proof.
  induction ws as [|w ws IH]; intros line Hne; simpl.
  - destruct line; [contradiction|].
    exists [], []. now rewrite app_nil_r.
  - destruct (_ && _).
    + exists [], (wrap_from max_chars [w] ws). now rewrite app_nil_r.
    + destruct (IH (line ++ [w])%list) as (t & ls & E);
        [now destruct line|].
      exists (w :: t), ls. rewrite E. now rewrite <- app_assoc.
Qed.

Lemma wrap_from_tight (max_chars : Z) (ws : list Word) :
  forall line, tight max_chars (wrap_from max_chars line ws).
Proof.
  induction ws as [|w ws IH]; intros line; simpl.
  - destruct line; simpl; auto.
  - destruct (Z.gtb_spec (width line + len (w_word w)) max_chars)
      as [Hover|Hfit];
      [destruct (Z.gtb_spec (width line) 0) as [Hpos|Hzero]|]; simpl;
      try apply IH.
    split; [|apply IH].
    destruct (wrap_from_head max_chars ws [w]) as (t & ls & ->);
      [discriminate|].
    simpl. split; assumption.
Qed.


Lemma last_nonempty {A : Type} (l : list A) (d d' : A) :
  l <> [] -> last l d = last l d'.
Proof.
  induction l as [|x l IH]; [contradiction|]. intros _.
  destruct l as [|y l]; [reflexivity|].
  change (last (y :: l) d = last (y :: l) d'). apply IH. discriminate.
Qed.

Lemma last_app_nonempty {A : Type} (l1 l2 : list A) (d : A) :
  l2 <> [] -> last (l1 ++ l2) d = last l2 d.
Proof.
  intros Hne. induction l1 as [|x l1 IH]; [reflexivity|].
  simpl app. destruct (l1 ++ l2)%list eqn:E; [|exact IH].
  apply app_eq_nil in E as [_ E]. contradiction.
Qed.

Lemma last_map_apply {A B : Type} (f : A -> B) (l : list A) (d : A) :
  last (map f l) (f d) = f (last l d).
Proof.
  induction l as [|x l IH]; [reflexivity|].
  destruct l as [|y l]; [reflexivity|]. exact IH.
Qed.

Lemma last_concat_nonempty {A : Type} (ls : list (list A)) (l0 : list A)
    (d : A) :
  ls <> [] -> Forall (fun g => g <> []) ls ->
  last (List.concat ls) d = last (last ls l0) d.
Proof.
  induction ls as [|g ls IH]; [contradiction|]. intros _ Hne.
  inversion Hne as [|g' ls' Hg Hls]; subst.
  destruct ls as [|g2 ls].
  - simpl. now rewrite app_nil_r.
  - change (List.concat (g :: g2 :: ls))
      with (g ++ List.concat (g2 :: ls))%list.
    change (last (g :: g2 :: ls) l0) with (last (g2 :: ls) l0).
    rewrite <- IH by (auto; discriminate).
    apply last_app_nonempty.
    inversion Hls; subst. destruct g2; [contradiction | discriminate].
Qed.

Lemma block_of_lines_end (ls : list Line) :
  b_end (block_of_lines ls) = l_end (last ls (hd (line_of_words []) ls)).
Proof. reflexivity. Qed.

Lemma line_of_words_end (g : list Word) :
  l_end (line_of_words g) = w_end (last g (hd no_word g)).
Proof. reflexivity. Qed.

Lemma block_of_layout_span (lines : list (list Word)) :
  lines <> [] -> Forall (fun g => g <> []) lines ->
  List.concat lines <> []
  /\ b_start (block_of_layout lines)
     = w_start (hd no_word (List.concat lines))
  /\ b_end (block_of_layout lines)
     = w_end (last (List.concat lines) no_word).
Proof.
  intros Hne Hall.
  destruct lines as [|l ls]; [contradiction|].
  inversion Hall as [|l' ls' Hl Hls]; subst.
  destruct l as [|w l]; [contradiction|].
  split; [discriminate|]. split; [reflexivity|].
  rewrite (last_concat_nonempty _ (w :: l) no_word Hne Hall).
  unfold block_of_layout. rewrite block_of_lines_end.
  change (hd (line_of_words []) (map line_of_words ((w :: l) :: ls)))
    with (line_of_words (w :: l)).
  rewrite last_map_apply, line_of_words_end.
  set (g := last ((w :: l) :: ls) (w :: l)).
  assert (Hg : g <> []).
  { unfold g. destruct (exists_last Hne) as (ls0 & g0 & E).
    rewrite E, last_last.
    rewrite E in Hall. apply Forall_app in Hall as [_ Hall].
    now inversion Hall. }
  f_equal. now apply last_nonempty.
Qed.


(** ** What the redaction leaves alone *)

(** X5.  The redaction returns the text unchanged exactly when no listed
    word occurs in it, whatever the case of the letters. *)
Theorem apply_profanity_filter_fixed (text : string) :
  apply_profanity_filter text = text
  <-> forallb (fun w => negb (occurs w text)) bad_words = true.
Proof.
  split; intros H.
  - rewrite <- H.
    apply masked_in_order_absent with text; [apply bad_words_ok|].
    apply fold_mask_in_order, bad_words_ok.
  - now apply fold_mask_absent.
Qed.

(** ** The number of blocks *)

Lemma pack_blocks_two_passes (max_chars max_lines : Z)
    (all_words : list Word) :
  pack_blocks max_chars max_lines all_words
  = map block_of_layout (group_lines max_lines (wrap_lines max_chars all_words)).
Proof.
  unfold pack_blocks, pack_loop, group_lines, wrap_lines.
  now rewrite (pack_fold_layout max_chars max_lines all_words pack_init [] []).
Qed.

Lemma group_from_count (max_lines : Z) (lines : list (list Word)) :
  0 < max_lines ->
  forall block,
    Z.of_nat (List.length block) < max_lines ->
    Z.of_nat (List.length (group_from max_lines block lines))
    = (Z.of_nat (List.length block) + Z.of_nat (List.length lines)
       + max_lines - 1) / max_lines.
Proof.
  intros Hpos. induction lines as [|l lines IH]; intros block Hlt.
  - simpl group_from. destruct block as [|b block].
    + simpl. symmetry. apply Z.div_small. lia.
    + change (Z.of_nat (List.length [b :: block])) with 1.
      change (Z.of_nat (List.length (@nil (list Word)))) with 0.
      apply Z.div_unique with (Z.of_nat (List.length (b :: block)) - 1).
      * left. simpl List.length in *. lia.
      * lia.
  - simpl group_from. rewrite length_app. simpl List.length.
    destruct (Z.geb_spec (Z.of_nat (List.length block + 1)) max_lines)
      as [Hfull|Hroom].
    + simpl List.length. rewrite Nat2Z.inj_succ, IH by (simpl; lia).
      simpl List.length.
      replace (Z.of_nat (List.length block)
               + Z.of_nat (S (List.length lines)) + max_lines - 1)
        with (0 + Z.of_nat (List.length lines) + max_lines - 1
              + 1 * max_lines) by lia.
      rewrite Z.div_add by lia. lia.
    + rewrite IH by (rewrite length_app; simpl; lia).
      rewrite length_app. simpl List.length. f_equal. lia.
Qed.

Lemma group_from_single (max_lines : Z) (lines : list (list Word)) :
  max_lines <= 1 ->
  group_from max_lines [] lines = map (fun l => [l]) lines.
Proof.
  intros Hle. induction lines as [|l lines IH]; [reflexivity|].
  simpl. destruct (Z.geb_spec 1 max_lines); [|lia].
  now rewrite IH.
Qed.

(** X6.  With a positive [max_lines] the packed layout has as many blocks
    as its lines need when taken [max_lines] at a time: the number of lines
    divided by [max_lines], rounded up; with [max_lines] equal to 1 every
    line is a block of its own. *)
Theorem pack_blocks_count (max_chars max_lines : Z) (all_words : list Word) :
  0 < max_lines ->
  Z.of_nat (List.length (pack_blocks max_chars max_lines all_words))
  = (Z.of_nat (List.length (wrap_lines max_chars all_words)) + max_lines - 1)
    / max_lines
  /\ (max_lines = 1 ->
      pack_blocks max_chars max_lines all_words
      = map (fun l => block_of_layout [l]) (wrap_lines max_chars all_words)).
Proof.
  intros Hpos. rewrite pack_blocks_two_passes. split.
  - rewrite length_map. unfold group_lines.
    rewrite group_from_count by (simpl; lia). reflexivity.
  - intros ->. unfold group_lines.
    rewrite group_from_single by lia. now rewrite map_map.
Qed.

Lemma pack_blocks_count_witness :
  Z.of_nat (List.length (pack_blocks 5 2 example_words))
  = (Z.of_nat (List.length (wrap_lines 5 example_words)) + 2 - 1) / 2
  /\ (2 = 1 ->
      pack_blocks 5 2 example_words
      = map (fun l => block_of_layout [l]) (wrap_lines 5 example_words)).
Proof.
  apply (pack_blocks_count 5 2 example_words). reflexivity.
Defined.

(** ** No white space around a line *)

Lemma rstrip_cons (c : ascii) (r : string) :
  rstrip (String c r) = "" \/ exists r', rstrip (String c r) = String c r'.
Proof.
  simpl. destruct (rstrip r) as [|c' r'].
  - destruct (is_space c); [now left | right; now exists ""].
  - right. now eexists.
Qed.

Lemma rstrip_idempotent (s : string) : rstrip (rstrip s) = rstrip s.
Proof.
  induction s as [|c s IH]; [reflexivity|].
  simpl. destruct (rstrip s) as [|c' r'] eqn:E.
  - destruct (is_space c) eqn:Hc; [reflexivity|].
    simpl. now rewrite Hc.
  - change (rstrip (String c (String c' r')) = String c (String c' r')).
    change (rstrip (String c (String c' r')))
      with (match rstrip (String c' r') with
            | "" => if is_space c then "" else String c ""
            | r1 => String c r1
            end).
    now rewrite IH.
Qed.

Lemma lstrip_head (s : string) :
  lstrip s = "" \/ exists c r, lstrip s = String c r /\ is_space c = false.
Proof.
  induction s as [|c s IH]; [now left|].
  simpl. destruct (is_space c) eqn:Hc; [exact IH|].
  right. now exists c, s.
Qed.

Lemma strip_trimmed (s : string) : trimmed (strip s).
Proof.
  unfold trimmed, strip. split; [|apply rstrip_idempotent].
  destruct (lstrip_head s) as [->|(c & r & -> & Hc)]; [reflexivity|].
  destruct (rstrip_cons c r) as [->|(r' & ->)]; [reflexivity|].
  simpl. now rewrite Hc.
Qed.


(** ** The redaction of a document *)

Lemma stars_over_app (a a' b b' : string) :
  stars_over a a' -> stars_over b b' -> stars_over (a ++ b) (a' ++ b').
Proof.
  revert a'; induction a as [|c a IH]; intros [|c' a']; simpl; try easy.
  intros [Hc Ha] Hb. split; [exact Hc | now apply IH].
Qed.

Lemma apply_profanity_filter_stars (text : string) :
  stars_over text (apply_profanity_filter text).
Proof.
  apply masked_in_order_stars_over with bad_words.
  apply fold_mask_in_order, bad_words_ok.
Qed.

Lemma paragraphs_stars (segs : list Segment) :
  stars_over (paragraphs false segs) (paragraphs true segs).
Proof.
  induction segs as [|segment rest IH]; [exact I|].
  change (stars_over
            (segment_text false segment
             ++ match rest with
                | [] => ""
                | next :: _ => separator segment next ++ paragraphs false rest
                end)
            (segment_text true segment
             ++ match rest with
                | [] => ""
                | next :: _ => separator segment next ++ paragraphs true rest
                end)).
  apply stars_over_app.
  - unfold segment_text. apply apply_profanity_filter_stars.
  - destruct rest as [|next rest']; [exact I|].
    apply stars_over_app; [apply stars_over_refl | exact IH].
Qed.

Lemma caption_stars (format_type : string) (entry : Z * Block) :
  match caption format_type false entry, caption format_type true entry with
  | Ok a, Ok b => stars_over a b
  | Raise e, Raise e' => e = e'
  | _, _ => False
  end.
Proof.
  destruct entry as [number b]. unfold caption.
  destruct (format_timestamp (b_start b) format_type) as [s_ts|e];
    [|reflexivity].
  destruct (format_timestamp (b_end b) format_type) as [e_ts|e];
    [|reflexivity].
  unfold bind.
  repeat (apply stars_over_app; [apply stars_over_refl|]).
  apply stars_over_app; [|apply stars_over_refl].
  unfold shown_text. apply apply_profanity_filter_stars.
Qed.

Lemma captions_stars (format_type : string) (entries : list (Z * Block)) :
  match map_outcome (caption format_type false) entries,
        map_outcome (caption format_type true) entries with
  | Ok a, Ok b => stars_over (String.concat "" a) (String.concat "" b)
  | Raise e, Raise e' => e = e'
  | _, _ => False
  end.
Proof.
  induction entries as [|entry rest IH]; [exact I|].
  change (map_outcome (caption format_type false) (entry :: rest))
    with (c <- caption format_type false entry ;;
          bs <- map_outcome (caption format_type false) rest ;;
          Ok (c :: bs)).
  change (map_outcome (caption format_type true) (entry :: rest))
    with (c <- caption format_type true entry ;;
          bs <- map_outcome (caption format_type true) rest ;;
          Ok (c :: bs)).
  pose proof (caption_stars format_type entry) as Hc.
  destruct (caption format_type false entry) as [a|e],
           (caption format_type true entry) as [a'|e'];
    try contradiction; [|exact Hc].
  unfold bind at 1 3.
  destruct (map_outcome (caption format_type false) rest) as [l|e],
           (map_outcome (caption format_type true) rest) as [l'|e'];
    try contradiction; [|exact IH].
  unfold bind. rewrite !concat_empty_cons.
  now apply stars_over_app.
Qed.

(** X8.  Asking for the redaction changes nothing but letters into mask
    characters: the rendering with it fails exactly when the rendering
    without it does, with the same exception; otherwise both give the same
    count of words, and the two documents have the same length and differ
    only where the redacted one has a mask character, so that numbers,
    timestamps, line breaks and the header are the same. *)
Theorem generate_output_redacted (result : Transcript)
    (format_type preset_mode : string) (max_chars max_lines : Z) :
  same_but_masked
    (generate_output result format_type preset_mode max_chars max_lines false)
    (generate_output result format_type preset_mode max_chars max_lines true).
Proof.
  destruct (collect_words (segments result)) as [|w ws] eqn:E.
  - unfold generate_output. rewrite E. now split.
  - assert (Hne : collect_words (segments result) <> [])
      by (rewrite E; discriminate).
    destruct (format_type =? "txt")%string eqn:Hfmt.
    + unfold generate_output. rewrite E, Hfmt.
      rewrite !render_txt_paragraphs.
      split; [apply paragraphs_stars | reflexivity].
    + rewrite !generate_output_subtitles by assumption.
      unfold caption_document.
      pose proof (captions_stars format_type
                    (number_from 1
                       (layout_blocks preset_mode max_chars max_lines
                          (collect_words (segments result))))) as H.
      destruct (map_outcome (caption format_type false) _) as [l|e],
               (map_outcome (caption format_type true) _) as [l'|e'];
        try contradiction; [|exact H].
      unfold bind, same_but_masked. split; [|reflexivity].
      apply stars_over_app; [apply stars_over_refl | exact H].
Qed.

(** * Properties of the audio loader *)

(** ** Division of a [float32] by 32768 *)

Lemma iter_xO_value (p q : positive) :
  Zpos (Pos.iter xO p q) = Zpos p * 2 ^ Zpos q.
Proof.
  induction q as [|q IH] using Pos.peano_ind.
  - simpl. lia.
  - rewrite Pos.iter_succ, Pos2Z.inj_succ, Z.pow_succ_r by lia.
    rewrite Pos2Z.inj_xO, IH. lia.
Qed.

Lemma shr_fexp_24 (m e : Z) (l : location) :
  2 ^ 23 <= m < 2 ^ 24 -> -149 <= e ->
  shr_fexp prec32 emax32 m e l = (shr_record_of_loc m l, e).
Proof.
  intros Hm He. unfold shr_fexp.
  rewrite (Zdigits2_unique m 24) by lia.
  replace (fexp prec32 emax32 (24 + e) - e) with 0
    by (unfold fexp, emin, prec32, emax32; lia).
  reflexivity.
Qed.

(** A mantissa of 24 bits is kept as it stands. *)
Lemma binary_round_aux_24 (sx : bool) (m : positive) (e : Z) :
  2 ^ 23 <= Zpos m < 2 ^ 24 -> -149 <= e <= 104 ->
  binary_round_aux prec32 emax32 sx (Zpos m) e loc_Exact = S754_finite sx m e.
Proof.
  intros Hm He. unfold binary_round_aux.
  rewrite shr_fexp_24 by lia.
  cbn [shr_record_of_loc shr_m loc_of_shr_record round_nearest_even].
  rewrite shr_fexp_24 by lia.
  cbn [shr_record_of_loc shr_m].
  replace (e <=? emax32 - prec32) with true
    by (symmetry; apply Z.leb_le; unfold emax32, prec32; lia).
  reflexivity.
Qed.

(** A mantissa of 25 bits, the last one clear, loses that bit. *)
Lemma binary_round_aux_25 (sx : bool) (m : positive) (e : Z) :
  2 ^ 23 <= Zpos m < 2 ^ 24 -> -149 <= e <= 103 ->
  binary_round_aux prec32 emax32 sx (Zpos m~0) e loc_Exact
  = S754_finite sx m (e + 1).
Proof.
  intros Hm He. unfold binary_round_aux.
  assert (Hs : shr_fexp prec32 emax32 (Zpos m~0) e loc_Exact
               = (shr_1 (shr_record_of_loc (Zpos m~0) loc_Exact), e + 1)).
  { unfold shr_fexp. rewrite (Zdigits2_unique (Zpos m~0) 25) by lia.
    replace (fexp prec32 emax32 (25 + e) - e) with 1
      by (unfold fexp, emin, prec32, emax32; lia).
    reflexivity. }
  rewrite Hs.
  cbn [shr_record_of_loc shr_1 shr_m shr_r shr_s orb loc_of_shr_record
       round_nearest_even].
  rewrite shr_fexp_24 by lia.
  cbn [shr_record_of_loc shr_m].
  replace (e + 1 <=? emax32 - prec32) with true
    by (symmetry; apply Z.leb_le; unfold emax32, prec32; lia).
  reflexivity.
Qed.

Lemma digits2_pos_24 (p : positive) :
  Zpos p < 2 ^ 24 -> 1 <= Zpos (digits2_pos p) <= 24.
Proof.
  intros Hp. pose proof (digits2_pos_bounds p) as [Hlo Hhi].
  split; [lia|].
  destruct (Z.le_gt_cases (Zpos (digits2_pos p)) 24) as [H|H]; [exact H|].
  assert (2 ^ 24 <= 2 ^ (Zpos (digits2_pos p) - 1))
    by (apply Z.pow_le_mono_r; lia).
  lia.
Qed.

(** The float32 of a positive int below 2^24: the int itself, its bits
    moved to the top of the mantissa. *)
Lemma binary_round_24 (sx : bool) (p : positive) (e : Z) :
  Zpos p < 2 ^ 24 -> -100 <= e <= 80 ->
  exists m : positive,
    binary_round prec32 emax32 sx p e
    = S754_finite sx m (Zpos (digits2_pos p) + e - 24)
    /\ Zpos m = Zpos p * 2 ^ (24 - Zpos (digits2_pos p))
    /\ 2 ^ 23 <= Zpos m < 2 ^ 24.
Proof.
  intros Hp He.
  pose proof (digits2_pos_bounds p) as [Hlo Hhi].
  pose proof (digits2_pos_24 p Hp) as Hd.
  set (d := Zpos (digits2_pos p)) in *.
  unfold binary_round, shl_align. fold d.
  replace (fexp prec32 emax32 (d + e) - e) with (d - 24)
    by (unfold fexp, emin, prec32, emax32; lia).
  destruct (d - 24) as [|q|q] eqn:Eq; try lia.
  - exists p. assert (d = 24) by lia.
    replace (24 - d) with 0 by lia. rewrite Z.mul_1_r.
    assert (Hb : 2 ^ 23 <= Zpos p < 2 ^ 24).
    { replace 23 with (d - 1) by lia. replace 24 with d by lia. lia. }
    split; [|split; [reflexivity | exact Hb]].
    rewrite binary_round_aux_24 by lia. f_equal. lia.
  - exists (Pos.iter xO p q).
    assert (Hv : Zpos (Pos.iter xO p q) = Zpos p * 2 ^ (24 - d)).
    { rewrite iter_xO_value. do 2 f_equal. lia. }
    assert (Hb : 2 ^ 23 <= Zpos (Pos.iter xO p q) < 2 ^ 24).
    { rewrite Hv.
      replace (2 ^ 23) with (2 ^ (d - 1) * 2 ^ (24 - d))
        by (rewrite <- Z.pow_add_r by lia; f_equal; lia).
      replace (2 ^ 24) with (2 ^ d * 2 ^ (24 - d))
        by (rewrite <- Z.pow_add_r by lia; f_equal; lia).
      assert (0 < 2 ^ (24 - d)) by (apply Z.pow_pos_nonneg; lia).
      nia. }
    split; [|split; [exact Hv | exact Hb]].
    replace (fexp prec32 emax32 (d + e)) with (d + e - 24)
      by (unfold fexp, emin, prec32, emax32; lia).
    rewrite binary_round_aux_24 by lia. reflexivity.
Qed.

(** Dividing by 32768 takes 15 from the exponent. *)
Lemma fdiv32_32768 (sx : bool) (m : positive) (e : Z) :
  2 ^ 23 <= Zpos m < 2 ^ 24 -> -100 <= e <= 100 ->
  fdiv32 (S754_finite sx m e) f32_32768 = S754_finite sx m (e - 15).
Proof.
  intros Hm He. unfold fdiv32, f32_32768, SFdiv, SFdiv_core_binary.
  rewrite (Zdigits2_unique (Zpos m) 24) by lia.
  change (Zdigits2 8388608) with 24.
  replace (Z.min (fexp prec32 emax32 (24 + e - (24 + -8))) (e - -8))
    with (e - 16) by (unfold fexp, emin, prec32, emax32; lia).
  replace (e - -8 - (e - 16)) with 24 by lia.
  rewrite Z.shiftl_mul_pow2 by lia.
  assert (Hdiv : Z.div_eucl (Zpos m * 2 ^ 24) 8388608 = (Zpos m~0, 0)).
  { pose proof (Z.div_eucl_eq (Zpos m * 2 ^ 24) 8388608 ltac:(lia)) as Heq.
    pose proof (Z.mod_pos_bound (Zpos m * 2 ^ 24) 8388608 ltac:(lia)) as Hb.
    unfold Z.modulo in Hb.
    destruct (Z.div_eucl (Zpos m * 2 ^ 24) 8388608) as [q r].
    change (2 ^ 24) with 16777216 in *.
    assert (q = Zpos m~0) by lia. assert (r = 0) by lia. now subst. }
  rewrite Hdiv.
  change (new_location 8388608 0) with loc_Exact.
  rewrite xorb_false_r.
  rewrite binary_round_aux_25 by lia.
  f_equal. lia.
Qed.

(** The sample of an int that is not zero: its sign, its bits at the top of
    the mantissa, and the exponent that makes it the int over 32768. *)
Lemma pcm_sample_shape (sx : bool) (p : positive) :
  Zpos p < 2 ^ 24 ->
  exists m : positive,
    pcm_sample (cond_Zopp sx (Zpos p))
    = S754_finite sx m (Zpos (digits2_pos p) - 39)
    /\ Zpos m = Zpos p * 2 ^ (24 - Zpos (digits2_pos p)).
Proof.
  intros Hp.
  pose proof (digits2_pos_24 p Hp) as Hd.
  destruct (binary_round_24 sx p 0) as (m & E & Hm & Hb); [lia | lia |].
  exists m. split; [|exact Hm].
  unfold pcm_sample, float32_of_Z.
  replace (binary_normalize prec32 emax32 (cond_Zopp sx (Zpos p)) 0 false)
    with (binary_round prec32 emax32 sx p 0) by now destruct sx.
  rewrite E, fdiv32_32768 by lia.
  f_equal. lia.
Qed.

Lemma pcm_sample_exact (v : Z) :
  - 2 ^ 24 < v < 2 ^ 24 -> is_ratio (pcm_sample v) v 15 = true.
Proof.
  intros Hv.
  assert (Hcase : v = 0 \/ exists sx p, v = cond_Zopp sx (Zpos p)).
  { destruct v as [|p|p]; [now left | right; now exists false, p
                          | right; now exists true, p]. }
  destruct Hcase as [->|(sx & p & ->)]; [reflexivity|].
  assert (Hp : Zpos p < 2 ^ 24) by (destruct sx; simpl in Hv; lia).
  pose proof (digits2_pos_24 p Hp) as Hd.
  destruct (pcm_sample_shape sx p Hp) as (m & -> & Hm).
  unfold is_ratio.
  set (d := Zpos (digits2_pos p)) in *.
  destruct (Z.leb_spec 0 (d - 39 + 15)) as [H0|H0]; apply Z.eqb_eq.
  - replace (d - 39 + 15) with 0 by lia.
    replace (24 - d) with 0 in Hm by lia.
    destruct sx; simpl cond_Zopp; [|lia].
    change (Z.neg m) with (- Zpos m). change (Z.neg p) with (- Zpos p). lia.
  - replace (- (d - 39 + 15)) with (24 - d) by lia.
    destruct sx; simpl cond_Zopp; [|lia].
    change (Z.neg m) with (- Zpos m). change (Z.neg p) with (- Zpos p). lia.
Qed.

Lemma pcm_sample_range (v : Z) :
  -32768 <= v < 32768 ->
  SFleb f32_minus_one (pcm_sample v) = true
  /\ SFltb (pcm_sample v) f32_one = true.
Proof.
  intros Hv.
  assert (Hcase : v = 0 \/ exists sx p, v = cond_Zopp sx (Zpos p)).
  { destruct v as [|p|p]; [now left | right; now exists false, p
                          | right; now exists true, p]. }
  destruct Hcase as [->|(sx & p & ->)]; [now split|].
  assert (Hp : Zpos p < 2 ^ 24) by (destruct sx; simpl in Hv; lia).
  pose proof (digits2_pos_bounds p) as [Hlo Hhi].
  destruct (pcm_sample_shape sx p Hp) as (m & -> & Hm).
  set (d := Zpos (digits2_pos p)) in *.
  assert (Hd : 1 <= d) by (unfold d; lia).
  unfold SFleb, SFltb, SFcompare, f32_minus_one, f32_one.
  destruct sx; simpl in Hv.
  - split; [|reflexivity].
    assert (Hd16 : d <= 16).
    { destruct (Z.le_gt_cases d 16) as [H|H]; [exact H|].
      assert (2 ^ 16 <= 2 ^ (d - 1)) by (apply Z.pow_le_mono_r; lia). lia. }
    destruct (Z.compare_spec (-23) (d - 39)) as [E|E|E];
      [|lia|reflexivity].
    assert (d = 16) by lia.
    assert (Em : m = 8388608%positive).
    { assert (Zpos p = 32768).
      { replace (d - 1) with 15 in Hlo by lia. change (2 ^ 15) with 32768 in Hlo.
        lia. }
      replace (24 - d) with 8 in Hm by lia. lia. }
    rewrite Em. reflexivity.
  - split; [reflexivity|].
    assert (Hd15 : d <= 15).
    { destruct (Z.le_gt_cases d 15) as [H|H]; [exact H|].
      assert (2 ^ 15 <= 2 ^ (d - 1)) by (apply Z.pow_le_mono_r; lia). lia. }
    destruct (Z.compare_spec (d - 39) (-23)) as [E|E|E];
      [lia|reflexivity|lia].
Qed.

Lemma is_ratio_unique (x : spec_float) (n n' k : Z) :
  is_ratio x n k = true -> is_ratio x n' k = true -> n = n'.
Proof.
  destruct x as [s|s| |s m e]; simpl; try discriminate.
  - intros H H'. apply Z.eqb_eq in H, H'. lia.
  - destruct (0 <=? e + k) eqn:E; intros H H'; apply Z.eqb_eq in H, H'.
    + lia.
    + apply Z.leb_gt in E.
      assert (0 < 2 ^ (- (e + k))) by (apply Z.pow_pos_nonneg; lia).
      nia.
Qed.

(** ** The buffer *)

Lemma int16_of_bytes_range (lo hi : Byte.byte) :
  -32768 <= int16_of_bytes lo hi < 32768.
Proof.
  unfold int16_of_bytes.
  pose proof (Byte.to_N_bounded lo). pose proof (Byte.to_N_bounded hi).
  destruct (Z.ltb_spec (Z.of_N (Byte.to_N lo) + 256 * Z.of_N (Byte.to_N hi))
              32768); lia.
Qed.

Lemma frombuffer_int16_spec (n : nat) :
  forall buf, (List.length buf <= n)%nat ->
    match frombuffer_int16 buf with
    | Ok values =>
        List.length buf = (2 * List.length values)%nat
        /\ Forall (fun v => -32768 <= v < 32768) values
    | Raise e => e = ValueError /\ Nat.odd (List.length buf) = true
    end.
Proof.
  induction n as [|n IH]; intros buf Hlen.
  - destruct buf; [|simpl in Hlen; lia]. simpl. now split.
  - destruct buf as [|lo [|hi rest]]; [now split | now split |].
    change (frombuffer_int16 (lo :: hi :: rest))
      with (values <- frombuffer_int16 rest ;;
            Ok (int16_of_bytes lo hi :: values)).
    specialize (IH rest ltac:(simpl in Hlen; lia)).
    destruct (frombuffer_int16 rest) as [values|e]; unfold bind.
    + destruct IH as [IHl IHv]. split.
      * simpl List.length. lia.
      * apply Forall_cons; [apply int16_of_bytes_range | exact IHv].
    + destruct IH as [-> IHo]. split; [reflexivity|].
      change (List.length (lo :: hi :: rest)) with (S (S (List.length rest))).
      now rewrite Nat.odd_succ_succ.
Qed.

(** X9.  [load_wav_mono_16k] refuses, with a [ValueError], exactly the
    files that are not mono, 16-bit and 16 kHz, and those whose data have
    an odd number of bytes; the number of frames the header announces plays
    no part; for any other file it returns one sample for each two bytes,
    the samples of the conversion of the data. *)
Theorem load_wav_mono_16k_accepts (wf : WavFile) :
  (load_wav_mono_16k wf = Raise ValueError
   <-> n_channels wf <> 1 \/ sampwidth wf <> 2 \/ framerate wf <> 16000
       \/ Nat.odd (List.length (audio_bytes wf)) = true)
  /\ (forall e, load_wav_mono_16k wf = Raise e -> e = ValueError)
  /\ (forall samples,
        load_wav_mono_16k wf = Ok samples ->
        pcm16_to_float32 (audio_bytes wf) = Ok samples
        /\ List.length (audio_bytes wf) = (2 * List.length samples)%nat).
Proof.
  unfold load_wav_mono_16k, pcm16_to_float32.
  pose proof (frombuffer_int16_spec _ (audio_bytes wf) (le_n _)) as Hbuf.
  destruct (Z.eqb_spec (n_channels wf) 1) as [Hc|Hc];
    [|split; [split; auto | split; [now intros e [= <-] | discriminate]]].
  destruct (Z.eqb_spec (sampwidth wf) 2) as [Hw|Hw];
    [|split; [split; auto | split; [now intros e [= <-] | discriminate]]].
  destruct (Z.eqb_spec (framerate wf) 16000) as [Hr|Hr];
    [|split; [split; auto | split; [now intros e [= <-] | discriminate]]].
  simpl orb. cbv iota.
  destruct (frombuffer_int16 (audio_bytes wf)) as [values|e]; unfold bind.
  - destruct Hbuf as [Hlen _]. split; [|split].
    + split; [discriminate|].
      intros [H|[H|[H|H]]]; try contradiction.
      rewrite Hlen in H. rewrite Nat.odd_mul in H. discriminate.
    + discriminate.
    + intros samples [= <-]. split; [reflexivity|].
      now rewrite length_map.
  - destruct Hbuf as [-> Hodd]. split; [|split].
    + split; auto.
    + now intros e [= <-].
    + discriminate.
Qed.

(** X10.  Every sample of the conversion is the 16-bit int of its two
    bytes, low byte first, divided by 32768, without any rounding; it lies
    between -1 and 1, and 1 is never reached; different ints give different
    samples. *)
Theorem pcm16_to_float32_exact (buf : list Byte.byte)
    (samples : list float32) :
  pcm16_to_float32 buf = Ok samples ->
  exists values : list Z,
    frombuffer_int16 buf = Ok values
    /\ Forall2 (fun v s =>
                  -32768 <= v < 32768
                  /\ is_ratio s v 15 = true
                  /\ SFleb f32_minus_one s = true
                  /\ SFltb s f32_one = true
                  /\ forall v', is_ratio s v' 15 = true -> v' = v)
               values samples.
Proof.
  unfold pcm16_to_float32.
  pose proof (frombuffer_int16_spec _ buf (le_n _)) as Hbuf.
  destruct (frombuffer_int16 buf) as [values|e]; [|discriminate].
  destruct Hbuf as [_ Hrange]. unfold bind. intros [= <-].
  exists values. split; [reflexivity|].
  induction Hrange as [|v values Hv _ IH]; [constructor|].
  simpl map. constructor; [|exact IH].
  assert (Hex : is_ratio (pcm_sample v) v 15 = true)
    by (apply pcm_sample_exact; lia).
  destruct (pcm_sample_range v Hv) as [Hlo Hhi].
  repeat split; try assumption; try lia.
  intros v' Hv'. now apply is_ratio_unique with (pcm_sample v) 15.
Qed.

Lemma pcm16_to_float32_exact_witness :
  exists values : list Z,
    frombuffer_int16 (audio_bytes example_wav) = Ok values
    /\ Forall2 (fun v s =>
                  -32768 <= v < 32768
                  /\ is_ratio s v 15 = true
                  /\ SFleb f32_minus_one s = true
                  /\ SFltb s f32_one = true
                  /\ forall v', is_ratio s v' 15 = true -> v' = v)
               values
               [S754_finite false 8388608 (-38);
                S754_finite true 8388608 (-23)].
Proof.
  apply (pcm16_to_float32_exact (audio_bytes example_wav)).
  vm_compute. reflexivity.
Defined.

(** * Properties of the engine's commands *)

(** ** The duration of a file *)

Lemma two_digits_value (n : Z) :
  0 <= n < 100 -> decimal_value (two_digits n) = n.
Proof.
  intros Hn. destruct (hours_field_spec n ltac:(lia)) as [Hv _].
  unfold hours_field in Hv.
  now replace (n <? 100) with true in Hv by (symmetry; apply Z.ltb_lt; lia).
Qed.

Lemma duration_string_nonneg (duration_sec : float) (n : Z) :
  int_of_float duration_sec = Ok n -> 0 <= n ->
  duration_string duration_sec
  = Ok (hours_field (n / 60) ++ ":" ++ two_digits (n mod 60)).
Proof.
  intros Hint Hn. unfold duration_string. rewrite Hint. unfold bind.
  pose proof (Z.mod_pos_bound n 60 ltac:(lia)) as Hs.
  rewrite format_hours by (apply Z.div_pos; lia).
  now rewrite format_two_digits by lia.
Qed.

Lemma duration_string_raises (duration_sec : float) (e : exn) :
  duration_string duration_sec = Raise e
  <-> int_of_float duration_sec = Raise e.
Proof.
  unfold duration_string.
  destruct (int_of_float duration_sec) as [n|e']; unfold bind.
  - split; discriminate.
  - split; intros H; injection H as ->; reflexivity.
Qed.

(** X11.  The duration shown for a file of [n] whole seconds, [n] not
    negative, is the minutes, a colon and the seconds: the seconds are the
    two digits of [n mod 60]; the minutes are the digits of [n / 60], two at
    least, and are not cut at the hour, so that an hour reads 60:00; the
    fraction of a second is dropped. *)
Theorem duration_string_minutes (duration_sec : float) (n : Z) :
  int_of_float duration_sec = Ok n -> 0 <= n ->
  duration_string duration_sec
  = Ok (hours_field (n / 60) ++ ":" ++ two_digits (n mod 60))
  /\ decimal_value (hours_field (n / 60)) = n / 60
  /\ all_digits (hours_field (n / 60)) = true
  /\ (2 <= String.length (hours_field (n / 60)))%nat
  /\ decimal_value (two_digits (n mod 60)) = n mod 60
  /\ 60 * decimal_value (hours_field (n / 60))
     + decimal_value (two_digits (n mod 60)) = n.
Proof.
  intros Hint Hn.
  pose proof (Z.mod_pos_bound n 60 ltac:(lia)) as Hs.
  pose proof (Z.div_mod n 60 ltac:(lia)) as Hd.
  destruct (hours_field_spec (n / 60) ltac:(apply Z.div_pos; lia))
    as (Hv & Ha & Hl).
  pose proof (two_digits_value (n mod 60) ltac:(lia)) as Ht.
  split; [now apply duration_string_nonneg|].
  repeat split; try assumption.
  rewrite Hv, Ht. lia.
Qed.

Lemma duration_string_minutes_witness :
  duration_string f_605 = Ok "10:05"
  /\ decimal_value (hours_field (605 / 60)) = 605 / 60
  /\ all_digits (hours_field (605 / 60)) = true
  /\ (2 <= String.length (hours_field (605 / 60)))%nat
  /\ decimal_value (two_digits (605 mod 60)) = 605 mod 60
  /\ 60 * decimal_value (hours_field (605 / 60))
     + decimal_value (two_digits (605 mod 60)) = 605.
Proof.
  apply (duration_string_minutes f_605 605); [reflexivity | lia].
Defined.

(** ** The analysis of a file *)

Section AnalysisFacts.

Variable b64encode : list Byte.byte -> string.

(** X12.  Every analysis prints exactly one payload, after everything it
    runs.  The payload is an error or the result; it is the result exactly
    when the file exists and the duration is read and is a finite number.
    Nothing is run for a file that does not exist; the frame is asked for
    only after the duration is known, and never for a file with one of the
    six audio extensions, whatever the case of its letters; such a file has
    no thumbnail. *)
Theorem analyze_file_reports (os : platform) (w : AnalysisWorld)
    (file_path : string) :
  exists (commands : list Event) (payload : Payload),
    analyze_file b64encode os w file_path = (commands ++ [Printed payload])%list
    /\ Forall is_command commands
    /\ (p_type payload = "analysis-result" \/ p_type payload = "error")
    /\ (p_type payload = "analysis-result"
        <-> file_exists w = true
            /\ exists duration_sec n,
                 probed_duration w = Gives duration_sec
                 /\ int_of_float duration_sec = Ok n)
    /\ (file_exists w = false -> commands = [])
    /\ (In (RanFfmpegFrame file_path) commands ->
        p_type payload = "analysis-result"
        /\ str_in (lower (snd (splitext os file_path))) audio_exts = false)
    /\ (str_in (lower (snd (splitext os file_path))) audio_exts = true ->
        forall path duration thumbnail,
          p_data payload = Some (data_analysis path duration thumbnail) ->
          thumbnail = None).
Proof.
  unfold analyze_file.
  destruct (file_exists w) eqn:Hex; cbn [negb].
  2:{ exists [], (send_to_electron "error" "File analysis failed: Not found"
                                   data_none).
      split; [reflexivity|]. split; [constructor|].
      split; [now right|].
      split; [split; [discriminate | now intros [H _]]|].
      split; [reflexivity|].
      split; [intros []|]. discriminate. }
  destruct (probed_duration w) as [duration_sec|str_e] eqn:Hp.
  2:{ exists [RanFfprobe file_path],
             (send_to_electron "error" ("Analysis failed: " ++ str_e)
                               data_none).
      split; [reflexivity|].
      split; [repeat constructor|].
      split; [now right|].
      split; [split; [discriminate | now intros [_ (d & n & H & _)]]|].
      split; [discriminate|].
      split; [intros [H|[]]; discriminate|]. discriminate. }
  destruct (duration_string duration_sec) as [duration_str|e] eqn:Hd.
  2:{ apply duration_string_raises in Hd.
      exists [RanFfprobe file_path],
             (send_to_electron "error"
                ("Analysis failed: " ++ int_error_text e) data_none).
      split; [reflexivity|].
      split; [repeat constructor|].
      split; [now right|].
      split; [split; [discriminate|]|].
      { intros [_ (d & n & [= <-] & Hn)]. rewrite Hd in Hn. discriminate. }
      split; [discriminate|].
      split; [intros [H|[]]; discriminate|]. discriminate. }
  assert (Hn : exists n, int_of_float duration_sec = Ok n).
  { destruct (int_of_float duration_sec) as [n|e] eqn:E; [now exists n|].
    apply duration_string_raises in E. rewrite E in Hd. discriminate. }
  destruct Hn as [n Hn].
  destruct (str_in (lower (snd (splitext os file_path))) audio_exts) eqn:Hext;
    cbn [negb].
  - exists [RanFfprobe file_path],
           (send_to_electron "analysis-result" "Analyzed"
              (data_analysis file_path duration_str None)).
    split; [reflexivity|].
    split; [repeat constructor|].
    split; [now left|].
    split; [split; [intros _; split; [reflexivity | now exists duration_sec, n]
                   | reflexivity]|].
    split; [discriminate|].
    split; [intros [H|[]]; discriminate|].
    intros _ path duration thumbnail [= _ _ <-]. reflexivity.
  - eexists [RanFfprobe file_path; RanFfmpegFrame file_path], _.
    split; [reflexivity|].
    split; [repeat constructor|].
    split; [now left|].
    split; [split; [intros _; split; [reflexivity | now exists duration_sec, n]
                   | reflexivity]|].
    split; [discriminate|].
    split; [intros _; now split|]. discriminate.
Qed.

(** X13.  A frame that cannot be grabbed does not break the analysis:
    whether the grab succeeds changes nothing in what is run, nor in the
    type, the message, the path and the duration that are printed; only the
    thumbnail is missing. *)
Theorem analyze_file_thumbnail_harmless (os : platform) (w : AnalysisWorld)
    (file_path : string) :
  Forall2
    (fun ev ev' =>
       match ev, ev' with
       | Printed p, Printed p' =>
           p_type p' = p_type p /\ p_message p' = p_message p
           /\ match p_data p with
              | Some (data_analysis path duration _) =>
                  p_data p' = Some (data_analysis path duration None)
              | other => p_data p' = other
              end
       | _, _ => ev' = ev
       end)
    (analyze_file b64encode os w file_path)
    (analyze_file b64encode os
       (mk_analysis_world (file_exists w) (probed_duration w) None)
       file_path).
Proof.
  unfold analyze_file. simpl file_exists. simpl probed_duration.
  simpl grabbed_frame.
  destruct (file_exists w); cbn [negb];
    [|repeat constructor].
  destruct (probed_duration w) as [duration_sec|str_e];
    [|repeat constructor].
  destruct (duration_string duration_sec) as [duration_str|e];
    [|repeat constructor].
  destruct (str_in (lower (snd (splitext os file_path))) audio_exts);
    cbn [negb]; repeat constructor.
Qed.

End AnalysisFacts.

(** ** The model in memory *)

Lemma dict_get_model_names (model_alias : string) :
  In (dict_get MODEL_MAP model_alias "base") model_names.
Proof.
  unfold MODEL_MAP, dict_get, model_names.
  repeat match goal with
         | |- context [(?a =? ?b)%string] => destruct (a =? b)%string
         end;
    simpl; tauto.
Qed.

Lemma get_device_cases (cuda_is_available : bool) (pref : string) :
  get_device cuda_is_available pref = "cpu"
  \/ get_device cuda_is_available pref = "cuda"
     /\ cuda_is_available = true /\ pref <> "cpu".
Proof.
  unfold get_device.
  destruct (String.eqb_spec pref "cpu") as [E|NE]; [now left|].
  destruct (pref =? "cuda")%string, cuda_is_available; simpl; auto.
Qed.

Lemma is_str_eq (x : option string) (s : string) :
  is_str x s = true <-> x = Some s.
Proof.
  destruct x as [t|]; simpl.
  - rewrite String.eqb_eq. split; [now intros -> | now intros [= ->]].
  - split; discriminate.
Qed.

Section ModelFacts.

Variable Model : Type.
Variable title upper : string -> string.


(** X15.  What a request for a model does.  The loader is called with one
    of the five model names and with cpu or cuda, never with a string of the
    request, and with cuda only if cuda is available and cpu was not asked
    for.  When a model is returned, the globals hold it with the name and
    the device of the request.  When none is returned, the loader was
    called and failed, the last payload printed is the error with its text,
    and the globals are as before, so that the model loaded earlier stays
    in use. *)
Theorem load_ai_model_outcome (cuda : bool) (loaded : answer Model)
    (model_alias device_pref : string) (g : Globals Model) :
  exists (result : option Model) (g' : Globals Model) (events : list Event),
    load_ai_model title upper cuda loaded model_alias device_pref g
    = (result, g', events)
    /\ Forall (fun ev =>
                 match ev with
                 | Printed _ => True
                 | LoadModel name device =>
                     In name model_names
                     /\ (device = "cpu"
                         \/ device = "cuda" /\ cuda = true
                            /\ device_pref <> "cpu")
                 | _ => False
                 end) events
    /\ (forall model,
          result = Some model ->
          current_model g' = Some model
          /\ loaded_model_name g'
             = Some (dict_get MODEL_MAP model_alias "base")
          /\ loaded_device g' = Some (get_device cuda device_pref))
    /\ (result = None ->
        g' = g
        /\ exists str_e earlier,
             loaded = Fails str_e
             /\ printed events
                = (earlier
                   ++ [send_to_electron "error"
                         ("Failed to load model: " ++ str_e) data_none])%list).
Proof.
  unfold load_ai_model.
  pose proof (dict_get_model_names model_alias) as Hname.
  pose proof (get_device_cases cuda device_pref) as Hdev.
  set (real_name := dict_get MODEL_MAP model_alias "base") in *.
  set (target_device := get_device cuda device_pref) in *.
  assert (Hload : In real_name model_names
                  /\ (target_device = "cpu"
                      \/ target_device = "cuda" /\ cuda = true
                         /\ device_pref <> "cpu")) by now split.
  destruct (match current_model g with
            | Some _ =>
                is_str (loaded_model_name g) real_name
                && is_str (loaded_device g) target_device
            | None => false
            end) eqn:Hhit.
  - exists (current_model g), g, []. split; [reflexivity|].
    split; [constructor|].
    destruct (current_model g) as [m0|]; [|discriminate].
    apply andb_true_iff in Hhit as [H1 H2].
    apply is_str_eq in H1, H2.
    split; [|discriminate].
    intros model [= <-]. now repeat split.
  - destruct loaded as [m1|str_e].
    + do 3 eexists. split; [reflexivity|].
      split; [apply Forall_cons; [exact I|];
              apply Forall_cons; [exact Hload|];
              apply Forall_cons; [exact I | apply Forall_nil]|].
      split; [|discriminate].
      intros model [= <-]. now repeat split.
    + do 3 eexists. split; [reflexivity|].
      split; [apply Forall_cons; [exact I|];
              apply Forall_cons; [exact Hload|];
              apply Forall_cons; [exact I | apply Forall_nil]|].
      split; [discriminate|].
      intros _. split; [reflexivity|].
      exists str_e. eexists [_]. split; reflexivity.
Qed.

End ModelFacts.


(** ** The name of the output *)

Lemma rfind_ge (c : ascii) (p : string) : -1 <= rfind c p.
Proof.
  induction p as [|a r IH]; simpl; [lia|].
  destruct (Z.leb_spec 0 (rfind c r)); [lia|].
  destruct (Ascii.eqb a c); lia.
Qed.

Lemma rfind_last (c : ascii) (p : string) :
  0 <= rfind c p ->
  exists r, drop_str (Z.to_nat (rfind c p)) p = String c r /\ rfind c r = -1.
Proof.
  induction p as [|a r IH]; simpl rfind; [lia|].
  pose proof (rfind_ge c r) as Hge.
  destruct (Z.leb_spec 0 (rfind c r)) as [Hin|Hout].
  - intros _. destruct (IH Hin) as (r' & Hd & Hr).
    exists r'. split; [|exact Hr].
    replace (Z.to_nat (rfind c r + 1)) with (S (Z.to_nat (rfind c r))) by lia.
    exact Hd.
  - destruct (Ascii.eqb_spec a c) as [->|NE]; [|lia].
    intros _. exists r. split; [reflexivity | lia].
Qed.

Lemma lstrip_dots_none (r : string) :
  rfind "." r = -1 -> lstrip_dots r = r.
Proof.
  destruct r as [|a r]; [reflexivity|]. simpl.
  pose proof (rfind_ge "." r) as Hge.
  destruct (Z.leb_spec 0 (rfind "." r)); [lia|].
  destruct (Ascii.eqb a "."); [lia | reflexivity].
Qed.

(** The two parts of [splitext] make the name; the extension is empty, or
    a dot and a text without a dot. *)
Lemma splitext_parts (os : platform) (p : string) :
  fst (splitext os p) ++ snd (splitext os p) = p
  /\ (snd (splitext os p) = ""
      \/ exists r, snd (splitext os p) = String "." r /\ rfind "." r = -1).
Proof.
  unfold splitext.
  set (sepIndex := match os with
                   | posix => rfind "/" p
                   | nt => Z.max (rfind "\" p) (rfind "/" p)
                   end).
  assert (Hsep : -1 <= sepIndex).
  { unfold sepIndex. destruct os; [apply rfind_ge|].
    pose proof (rfind_ge "\" p). pose proof (rfind_ge "/" p). lia. }
  destruct (Z.gtb_spec (rfind "." p) sepIndex) as [Hdot|Hdot];
    [|simpl; split; [apply append_nil_r | now left]].
  destruct (skip_dots _); simpl;
    [|split; [apply append_nil_r | now left]].
  split; [apply take_drop_str|]. right.
  apply rfind_last. lia.
Qed.

Lemma length_lower (s : string) : String.length (lower s) = String.length s.
Proof. induction s as [|c s IH]; simpl; [reflexivity | now rewrite IH]. Qed.

Lemma file_stem_length (os : platform) (name : string) :
  (String.length name <= String.length (file_stem os name) + 1)%nat.
Proof.
  unfold file_stem.
  destruct (splitext_parts os name) as [Hparts Hext].
  set (a := fst (splitext os name)) in *.
  set (b := snd (splitext os name)) in *.
  assert (Hlen : String.length name = (String.length a + String.length b)%nat)
    by (rewrite <- Hparts; apply length_append).
  destruct Hext as [Hb|(r & Hb & Hr)]; rewrite Hb in *.
  - simpl in *. lia.
  - change (lstrip_dots (String "." r)) with (lstrip_dots r).
    rewrite (lstrip_dots_none r Hr).
    destruct (String.eqb_spec (lower r) "") as [E|NE]; simpl negb; cbv iota.
    + assert (String.length r = 0%nat) by (rewrite <- length_lower, E; reflexivity).
      simpl in Hlen. lia.
    + rewrite !length_append, length_lower. simpl in *. lia.
Qed.

Lemma keep_chars_all (keep : ascii -> bool) (s : string) :
  all_chars keep (keep_chars keep s) = true.
Proof.
  induction s as [|c s IH]; [reflexivity|]. simpl.
  destruct (keep c) eqn:Hc; [|exact IH]. simpl. now rewrite Hc.
Qed.

Lemma keep_chars_same (keep : ascii -> bool) (s : string) :
  all_chars keep s = true -> keep_chars keep s = s.
Proof.
  induction s as [|c s IH]; [reflexivity|]. simpl.
  intros H. apply andb_true_iff in H as [Hc Hs].
  now rewrite Hc, IH.
Qed.

(** X16.  The name of the output.  The part taken from [outputName] is
    made of letters, digits, underscores and hyphens only, in the order they
    have there, so that it holds no separator, no dot and no space; a part
    made of such characters is taken as it is.  The name is longer than the
    name of the input, so the output is never written under the name of the
    input. *)
Theorem output_name_safe (os : platform) (name ext suffix : string) :
  output_name os name ext suffix
  = file_stem os name ++ "_" ++ keep_chars safe_char suffix ++ "." ++ ext
  /\ all_chars safe_char (keep_chars safe_char suffix) = true
  /\ (all_chars safe_char suffix = true -> keep_chars safe_char suffix = suffix)
  /\ safe_char "/" = false /\ safe_char "\" = false /\ safe_char "." = false
  /\ safe_char " " = false
  /\ (String.length name < String.length (output_name os name ext suffix))%nat
  /\ output_name os name ext suffix <> name.
Proof.
  assert (Hlen : (String.length name
                  < String.length (output_name os name ext suffix))%nat).
  { unfold output_name. rewrite !length_append.
    pose proof (file_stem_length os name). simpl. lia. }
  split; [reflexivity|].
  split; [apply keep_chars_all|].
  split; [apply keep_chars_same|].
  repeat (split; [reflexivity|]).
  split; [exact Hlen|].
  intros E. rewrite E in Hlen. lia.
Qed.

Lemma append_cancel_l (s t u : string) : s ++ t = s ++ u -> t = u.
Proof.
  induction s as [|c s IH]; simpl; [auto|].
  intros [= H]. auto.
Qed.

Lemma append_cancel_r (t : string) :
  forall s u, s ++ t = u ++ t -> s = u.
Proof.
  intros s. induction s as [|c s IH]; intros u H.
  - destruct u as [|d u]; [reflexivity|].
    apply (f_equal String.length) in H.
    simpl in H. rewrite length_append in H. lia.
  - destruct u as [|d u].
    + apply (f_equal String.length) in H.
      simpl in H. rewrite length_append in H. lia.
    + simpl in H. injection H as -> H. f_equal. now apply IH.
Qed.

(** X17.  The extension of the input is part of the name of the output,
    so that two inputs that differ in the extension only, as video.mp4 and
    video.wav, get different outputs, unless the extensions differ in the
    case of their letters only.  An input without an extension is not told
    from one with it: video.mp4 and video_mp4 get the same output. *)
Theorem output_name_extension (os : platform) (name name' ext suffix : string) :
  fst (splitext os name) = fst (splitext os name') ->
  lower (lstrip_dots (snd (splitext os name)))
  <> lower (lstrip_dots (snd (splitext os name'))) ->
  output_name os name ext suffix <> output_name os name' ext suffix
  /\ output_name os "video.mp4" ext suffix
     = output_name os "video_mp4" ext suffix
  /\ output_name os "video.MP4" ext suffix
     = output_name os "video.mp4" ext suffix.
Proof.
  intros Hbase Hext. split; [|split; [now destruct os | now destruct os]].
  unfold output_name, file_stem. rewrite <- Hbase.
  set (a := fst (splitext os name)).
  set (e := lower (lstrip_dots (snd (splitext os name)))) in *.
  set (e' := lower (lstrip_dots (snd (splitext os name')))) in *.
  set (T := "_" ++ keep_chars safe_char suffix ++ "." ++ ext).
  intros H.
  destruct (String.eqb_spec e "") as [E|NE],
           (String.eqb_spec e' "") as [E'|NE']; simpl negb in H; cbv iota in H.
  - apply Hext. now rewrite E, E'.
  - rewrite !append_assoc in H. apply append_cancel_l in H.
    apply (f_equal String.length) in H.
    rewrite !length_append in H. simpl in H. lia.
  - rewrite !append_assoc in H. apply append_cancel_l in H.
    apply (f_equal String.length) in H.
    rewrite !length_append in H. simpl in H. lia.
  - rewrite !append_assoc in H. apply append_cancel_l in H.
    simpl in H. injection H as H.
    apply Hext. now apply append_cancel_r with T.
Qed.

Lemma output_name_extension_witness :
  output_name nt "video.mp4" "srt" "subs"
  <> output_name nt "video.wav" "srt" "subs"
  /\ output_name nt "video.mp4" "srt" "subs"
     = output_name nt "video_mp4" "srt" "subs"
  /\ output_name nt "video.MP4" "srt" "subs"
     = output_name nt "video.mp4" "srt" "subs".
Proof.
  apply (output_name_extension nt "video.mp4" "video.wav" "srt" "subs");
    [reflexivity | discriminate].
Defined.

(** ** The run of a transcription *)

Lemma answered_cons (ev : Event) (events : list Event) :
  is_quiet ev -> answered events -> answered (ev :: events).
Proof.
  intros Hq (earlier & payload & -> & Hf & He).
  exists (ev :: earlier), payload. split; [reflexivity|].
  split; [exact Hf | now constructor].
Qed.

Lemma answered_app (before events : list Event) :
  Forall is_quiet before -> answered events -> answered (before ++ events).
Proof.
  induction 1 as [|ev before Hq _ IH]; intros Ha; [exact Ha|].
  simpl. apply answered_cons; auto.
Qed.

Lemma report_error_answered (str_e : string) : answered (report_error str_e).
Proof.
  exists [], (send_to_electron "error" str_e data_none).
  split; [reflexivity|]. split; [now right | constructor].
Qed.

Section ProcessingFacts.

Variable Model : Type.
Variable title upper : string -> string.
Variable basename dirname : string -> string.
Variable join_path : string -> string -> string.

Lemma save_output_answered (os : platform) (w : World Model) (args : Args)
    (content : string) (word_count conf : Z) :
  answered (save_output basename dirname join_path os w args content
                        word_count conf).
Proof.
  unfold save_output. destruct (written w) as [u|str_e].
  - eexists [_], _. split; [reflexivity|].
    split; [now left|]. apply Forall_cons; [exact I | apply Forall_nil].
  - apply answered_cons; [exact I | apply report_error_answered].
Qed.

Lemma format_result_answered (os : platform) (w : World Model) (args : Args)
    (result : Transcript) :
  answered (format_result basename dirname join_path os w args result).
Proof.
  unfold format_result. apply answered_cons; [now right|].
  destruct (confidence w) as [conf|str_e]; [|apply report_error_answered].
  destruct (generate_output _ _ _ _ _ _) as [[content word_count]|e];
    [apply save_output_answered | apply report_error_answered].
Qed.

Lemma transcribe_file_answered (os : platform) (w : World Model) (args : Args)
    (temp_audio_path : string) :
  answered (transcribe_file basename dirname join_path os w args
                            temp_audio_path).
Proof.
  unfold transcribe_file. apply answered_cons; [exact I|].
  destruct (transcribed w) as [result|str_e]; [|apply report_error_answered].
  destruct (negb (temp_audio_path =? a_path args)%string && temp_exists w);
    [|apply format_result_answered].
  apply answered_cons; [exact I|].
  destruct (removed w); [apply format_result_answered
                        | apply report_error_answered].
Qed.

Lemma load_ai_model_answered (cuda : bool) (loaded_model : answer Model)
    (model_alias device_pref : string) (g : Globals Model) :
  match load_ai_model title upper cuda loaded_model model_alias device_pref g
  with
  | (Some _, _, events) => Forall is_quiet events
  | (None, _, events) => answered events
  end.
Proof.
  unfold load_ai_model.
  destruct (match current_model g with
            | Some _ => _
            | None => false
            end) eqn:Hhit.
  - destruct (current_model g); [constructor | discriminate].
  - destruct loaded_model as [model|str_e].
    + apply Forall_cons; [now left|]. apply Forall_cons; [exact I|].
      apply Forall_cons; [now left | apply Forall_nil].
    + eexists [_; _], _. split; [reflexivity|].
      split; [now right|].
      apply Forall_cons; [now left|].
      apply Forall_cons; [exact I | apply Forall_nil].
Qed.


End ProcessingFacts.

Section TranscriptionFacts.

Variable Model : Type.
Variable title upper : string -> string.
Variable basename dirname : string -> string.
Variable join_path : string -> string -> string.

(** What the loading of the model does: it prints, and it calls the
    loader; it prints no success. *)
Lemma load_ai_model_events (cuda : bool) (loaded_model : answer Model)
    (model_alias device_pref : string) (g : Globals Model) :
  Forall (fun ev =>
            match ev with
            | Printed p => p_type p <> "success"
            | LoadModel _ _ => True
            | _ => False
            end)
         (snd (load_ai_model title upper cuda loaded_model model_alias
                             device_pref g)).
Proof.
  unfold load_ai_model.
  destruct (match current_model g with
            | Some _ => _
            | None => false
            end); [constructor|].
  destruct loaded_model as [model|str_e]; cbn [snd];
    (apply Forall_cons; [discriminate|]; apply Forall_cons; [exact I|];
     apply Forall_cons; [discriminate | apply Forall_nil]).
Qed.

Lemma format_result_keeps (os : platform) (w : World Model) (args : Args)
    (result : Transcript) (p : string) :
  ~ In (Remove p) (format_result basename dirname join_path os w args result).
Proof.
  unfold format_result, save_output, report_error.
  destruct (confidence w) as [conf|str_e].
  - destruct (generate_output _ _ _ _ _ _) as [[content word_count]|e].
    + destruct (written w); simpl; intros [H|[H|[H|[]]]]; discriminate.
    + simpl; intros [H|[H|[]]]; discriminate.
  - simpl; intros [H|[H|[]]]; discriminate.
Qed.

(** X19.  The input is never removed.  The one file [process_file] ever
    removes is the temporary file of the extracted audio, and it does so
    only when the file has another name than the input, the extraction
    succeeded, the transcription gave a result and the file is still
    there: when the transcription fails, the temporary file is left. *)
Theorem process_file_keeps_input (os : platform) (w : World Model)
    (args : Args) (g : Globals Model) (p : string) :
  In (Remove p)
     (snd (process_file title upper basename dirname join_path os w args g)) ->
  p <> a_path args
  /\ p = temp_audio w
  /\ input_exists w = true
  /\ extracted w = true
  /\ temp_exists w = true
  /\ exists result, transcribed w = Gives result.
Proof.
  unfold process_file.
  destruct (input_exists w); cbn [negb];
    [|simpl; intros [H|[]]; discriminate].
  pose proof (load_ai_model_events (cuda_is_available w) (loaded w)
                (get_or (a_model args) "standard")
                (get_or (a_device args) "auto") g) as Hload.
  destruct (load_ai_model _ _ _ _ _ _ _) as [[model g1] loading].
  cbn [snd] in Hload.
  assert (Hnone : ~ In (Remove p) loading).
  { intros Hin. rewrite Forall_forall in Hload. exact (Hload _ Hin). }
  destruct model as [model|]; cbn [snd]; [|intros H; contradiction].
  cbn [extract_audio_silent]. intros Hin.
  apply in_app_or in Hin as [Hin|Hin]; [contradiction|].
  destruct Hin as [Hin|[Hin|Hin]]; try discriminate.
  unfold transcribe_file in Hin.
  destruct Hin as [Hin|Hin]; [discriminate|].
  destruct (transcribed w) as [result|str_e];
    [|simpl in Hin; destruct Hin as [Hin|[]]; discriminate].
  match type of Hin with
  | In _ (if negb (?t =? _)%string && _ then _ else _) =>
      set (temp_audio_path := t) in *
  end.
  destruct (String.eqb_spec temp_audio_path (a_path args)) as [E|NE];
    cbn [negb andb] in Hin;
    [now apply format_result_keeps in Hin|].
  destruct (temp_exists w);
    [|now apply format_result_keeps in Hin].
  assert (Hp : p = temp_audio_path).
  { destruct Hin as [[= <-]|Hin]; [reflexivity|].
    destruct (removed w).
    - now apply format_result_keeps in Hin.
    - simpl in Hin. destruct Hin as [Hin|[]]; discriminate. }
  subst p. unfold temp_audio_path in *.
  destruct (extracted w); [|contradiction].
  destruct (temp_audio w =? "")%string; [contradiction|].
  repeat split; auto. now exists result.
Qed.

Lemma save_output_success (os : platform) (w : World Model) (args : Args)
    (content : string) (word_count conf : Z) (payload : Payload) :
  In (Printed payload)
     (save_output basename dirname join_path os w args content word_count
                  conf) ->
  p_type payload = "success" ->
  exists out_dir save_path,
    (out_dir = dirname (a_path args) \/ a_outputDir args = Some out_dir)
    /\ save_path
       = join_path out_dir
           (output_name os (basename (a_path args))
              (get_or (a_format args) "srt")
              (get_or (a_outputName args) "subs"))
    /\ save_output basename dirname join_path os w args content word_count
                   conf
       = [Write save_path content; Printed payload]
    /\ payload
       = mk_payload "success" "Done!"
           (Some (data_success (a_path args) save_path word_count conf)).
Proof.
  unfold save_output.
  set (out_dir := if (get_or (a_outputDir args) "" =? "")%string
                     || negb (out_dir_exists w)
                  then dirname (a_path args)
                  else get_or (a_outputDir args) "").
  intros Hin Htype.
  exists out_dir. eexists. split; [|split; [reflexivity|]].
  - unfold out_dir.
    destruct ((get_or (a_outputDir args) "" =? "")%string
              || negb (out_dir_exists w)) eqn:E; [now left|].
    right. apply orb_false_iff in E as [E _].
    destruct (a_outputDir args) as [d|]; [reflexivity | discriminate].
  - destruct (written w) as [u|str_e].
    + destruct Hin as [Hin|[[= <-]|[]]]; [discriminate|]. now split.
    + destruct Hin as [Hin|[[= <-]|[]]]; discriminate.
Qed.

(** X20.  A success is printed only when everything worked, and it tells
    what was done: the transcription gave a result, the confidence was
    computed, the rendering of the result in the format, the preset and
    the limits of the request (srt, standard, 42 and 2 where the request
    names none, no redaction) gave the content and the count of words, and
    the content was written, just before, to the file whose name is made
    from the name of the input, in the folder of the request if it is
    named and exists, beside the input otherwise; the payload holds the
    input, that file, that count and that confidence. *)
Theorem process_file_success (os : platform) (w : World Model) (args : Args)
    (g : Globals Model) (payload : Payload) :
  In (Printed payload)
     (snd (process_file title upper basename dirname join_path os w args g)) ->
  p_type payload = "success" ->
  exists (result : Transcript) (content : string) (word_count conf : Z)
         (out_dir save_path : string) (earlier : list Event),
    transcribed w = Gives result
    /\ confidence w = Gives conf
    /\ generate_output result
         (get_or (a_format args) "srt") (get_or (a_preset args) "standard")
         (get_or (a_maxChars args) 42) (get_or (a_maxLines args) 2)
         (get_or (a_profanity args) false)
       = Ok (content, word_count)
    /\ (out_dir = dirname (a_path args) \/ a_outputDir args = Some out_dir)
    /\ save_path
       = join_path out_dir
           (output_name os (basename (a_path args))
              (get_or (a_format args) "srt")
              (get_or (a_outputName args) "subs"))
    /\ snd (process_file title upper basename dirname join_path os w args g)
       = (earlier ++ [Write save_path content; Printed payload])%list
    /\ payload
       = mk_payload "success" "Done!"
           (Some (data_success (a_path args) save_path word_count conf)).
Proof.
  intros Hin Htype.
  assert (Hformat : forall result,
            In (Printed payload)
               (format_result basename dirname join_path os w args result) ->
            exists content word_count conf out_dir save_path earlier,
              confidence w = Gives conf
              /\ generate_output result
                   (get_or (a_format args) "srt")
                   (get_or (a_preset args) "standard")
                   (get_or (a_maxChars args) 42) (get_or (a_maxLines args) 2)
                   (get_or (a_profanity args) false)
                 = Ok (content, word_count)
              /\ (out_dir = dirname (a_path args)
                  \/ a_outputDir args = Some out_dir)
              /\ save_path
                 = join_path out_dir
                     (output_name os (basename (a_path args))
                        (get_or (a_format args) "srt")
                        (get_or (a_outputName args) "subs"))
              /\ format_result basename dirname join_path os w args result
                 = (earlier ++ [Write save_path content; Printed payload])%list
              /\ payload
                 = mk_payload "success" "Done!"
                     (Some (data_success (a_path args) save_path word_count
                                         conf))).
  { intros result. unfold format_result.
    intros [[= <-]|H]; [discriminate|].
    destruct (confidence w) as [conf|str_e];
      [|destruct H as [[= <-]|[]]; discriminate].
    destruct (generate_output _ _ _ _ _ _) as [[content word_count]|e];
      [|destruct H as [[= <-]|[]]; discriminate].
    destruct (save_output_success os w args content word_count conf payload
                H Htype) as (out_dir & save_path & Hd & Hs & -> & Hp).
    exists content, word_count, conf, out_dir, save_path.
    eexists [_]. now repeat split. }
  revert Hin. unfold process_file.
  destruct (input_exists w); cbn [negb];
    [|simpl; intros [[= <-]|[]]; discriminate].
  pose proof (load_ai_model_events (cuda_is_available w) (loaded w)
                (get_or (a_model args) "standard")
                (get_or (a_device args) "auto") g) as Hload.
  destruct (load_ai_model _ _ _ _ _ _ _) as [[model g1] loading].
  cbn [snd] in Hload.
  assert (Hnone : ~ In (Printed payload) loading).
  { intros Hin. rewrite Forall_forall in Hload.
    exact (Hload _ Hin Htype). }
  destruct model as [model|]; cbn [snd]; [|intros H; contradiction].
  cbn [extract_audio_silent]. intros Hin.
  apply in_app_or in Hin as [Hin|Hin]; [contradiction|].
  destruct Hin as [Hin|[Hin|Hin]];
    [injection Hin as <-; discriminate Htype | discriminate Hin |].
  cbn [app snd] in *.
  match type of Hin with
  | In _ (transcribe_file _ _ _ _ _ _ ?t) => set (temp_audio_path := t) in *
  end.
  unfold transcribe_file in *.
  destruct Hin as [Hin|Hin]; [discriminate|].
  destruct (transcribed w) as [result|str_e];
    [|destruct Hin as [[= <-]|[]]; discriminate].
  destruct (negb (temp_audio_path =? a_path args)%string && temp_exists w).
  - destruct Hin as [Hin|Hin]; [discriminate|].
    destruct (removed w) as [u|str_e];
      [|destruct Hin as [[= <-]|[]]; discriminate].
    destruct (Hformat result Hin)
      as (content & word_count & conf & out_dir & save_path & earlier
          & Hc & Hg & Hd & Hs & -> & Hp).
    exists result, content, word_count, conf, out_dir, save_path.
    eexists (loading ++ _ :: _ :: _ :: _ :: earlier)%list.
    repeat split; try assumption.
    rewrite <- !app_assoc. reflexivity.
  - destruct (Hformat result Hin)
      as (content & word_count & conf & out_dir & save_path & earlier
          & Hc & Hg & Hd & Hs & -> & Hp).
    exists result, content, word_count, conf, out_dir, save_path.
    eexists (loading ++ _ :: _ :: _ :: earlier)%list.
    repeat split; try assumption.
    rewrite <- !app_assoc. reflexivity.
Qed.

End TranscriptionFacts.

Lemma process_file_keeps_input_witness :
  "/tmp/v2s_temp_1.wav" <> a_path example_args
  /\ "/tmp/v2s_temp_1.wav" = temp_audio example_world
  /\ input_exists example_world = true
  /\ extracted example_world = true
  /\ temp_exists example_world = true
  /\ exists result, transcribed example_world = Gives result.
Proof.
  apply (process_file_keeps_input nat (fun s => s) (fun s => s)
           (fun s => "video.mp4") (fun s => "/in")
           (fun d n => d ++ "/" ++ n) posix example_world example_args
           globals_init "/tmp/v2s_temp_1.wav").
  vm_compute. do 6 right. left. reflexivity.
Defined.

Lemma process_file_success_witness :
  exists (result : Transcript) (content : string) (word_count conf : Z)
         (out_dir save_path : string) (earlier : list Event),
    transcribed example_world = Gives result
    /\ confidence example_world = Gives conf
    /\ generate_output result
         (get_or (a_format example_args) "srt")
         (get_or (a_preset example_args) "standard")
         (get_or (a_maxChars example_args) 42)
         (get_or (a_maxLines example_args) 2)
         (get_or (a_profanity example_args) false)
       = Ok (content, word_count)
    /\ (out_dir = "/in" \/ a_outputDir example_args = Some out_dir)
    /\ save_path
       = out_dir ++ "/"
         ++ output_name posix "video.mp4"
              (get_or (a_format example_args) "srt")
              (get_or (a_outputName example_args) "subs")
    /\ snd (process_file (fun s => s) (fun s => s)
              (fun s => "video.mp4") (fun s => "/in")
              (fun d n => d ++ "/" ++ n) posix example_world example_args
              globals_init)
       = (earlier ++ [Write save_path content;
                      Printed
                        (mk_payload "success" "Done!"
                           (Some (data_success "/in/video.mp4"
                                    "/in/video_mp4_subs.srt" 2 93)))])%list
    /\ mk_payload "success" "Done!"
         (Some (data_success "/in/video.mp4" "/in/video_mp4_subs.srt" 2 93))
       = mk_payload "success" "Done!"
           (Some (data_success (a_path example_args) save_path word_count
                               conf)).
Proof.
  apply (process_file_success nat (fun s => s) (fun s => s)
           (fun s => "video.mp4") (fun s => "/in")
           (fun d n => d ++ "/" ++ n) posix example_world example_args
           globals_init
           (mk_payload "success" "Done!"
              (Some (data_success "/in/video.mp4" "/in/video_mp4_subs.srt"
                                  2 93)))).
  - vm_compute. do 9 right. left. reflexivity.
  - reflexivity.
Defined.

(** * More on timestamps *)

Lemma take_str_app (a b : string) : take_str (String.length a) (a ++ b) = a.
Proof. induction a as [|c a IH]; simpl; [now destruct b | now rewrite IH]. Qed.

Lemma drop_str_app (a b : string) : drop_str (String.length a) (a ++ b) = b.
Proof. induction a as [|c a IH]; simpl; [reflexivity | exact IH]. Qed.

Lemma three_digits_value (n : Z) :
  0 <= n < 1000 -> decimal_value (three_digits n) = n.
Proof.
  intros Hn.
  assert (H : forallb
                (fun k => decimal_value (three_digits (Z.of_nat k))
                          =? Z.of_nat k)
                (seq 0 1000) = true)
    by (vm_compute; reflexivity).
  rewrite forallb_forall in H.
  specialize (H (Z.to_nat n)).
  rewrite Z2Nat.id in H by lia.
  apply Z.eqb_eq, H, in_seq. lia.
Qed.

Lemma clock_millis_clock (us : Z) (fmt : string) :
  0 <= us ->
  clock_millis (clock us fmt) = us / 1000
  /\ String.length (clock us fmt)
     = (String.length (hours_field (us / 3600000000)) + 10)%nat.
Proof.
  intros Hus.
  set (H := hours_field (us / 3600000000)).
  set (R := ":" ++ two_digits (us / 60000000 mod 60) ++ ":"
            ++ two_digits (us / 1000000 mod 60) ++ fraction_mark fmt
            ++ three_digits (us / 1000 mod 1000)).
  assert (Hc : clock us fmt = H ++ R) by reflexivity.
  assert (HR : String.length R = 10%nat)
    by (unfold R, fraction_mark; now destruct (fmt =? "vtt")%string).
  assert (Hl : String.length (clock us fmt) = (String.length H + 10)%nat)
    by (rewrite Hc, length_append, HR; reflexivity).
  split; [|exact Hl].
  unfold clock_millis. rewrite Hl.
  replace (String.length H + 10 - 10)%nat with (String.length H) by lia.
  rewrite Hc, take_str_app, drop_str_app.
  assert (Hm : take_str 2 (drop_str 1 R) = two_digits (us / 60000000 mod 60))
    by reflexivity.
  assert (Hs : take_str 2 (drop_str 4 R) = two_digits (us / 1000000 mod 60))
    by reflexivity.
  assert (Hf : drop_str 7 R = three_digits (us / 1000 mod 1000))
    by (unfold R, fraction_mark; now destruct (fmt =? "vtt")%string).
  rewrite Hm, Hs, Hf.
  destruct (hours_field_spec (us / 3600000000)
              ltac:(apply Z.div_pos; lia)) as [Hh _].
  fold H in Hh. rewrite Hh.
  rewrite !two_digits_value, three_digits_value
    by (Z.div_mod_to_equations; lia).
  Z.div_mod_to_equations; lia.
Qed.

Lemma clock_of_millis (us us' : Z) (fmt : string) :
  us / 1000 = us' / 1000 -> clock us fmt = clock us' fmt.
Proof.
  intros E. unfold clock.
  replace (us / 3600000000) with (us / 1000 / 3600000)
    by (rewrite Z.div_div by lia; reflexivity).
  replace (us / 60000000) with (us / 1000 / 60000)
    by (rewrite Z.div_div by lia; reflexivity).
  replace (us / 1000000) with (us / 1000 / 1000)
    by (rewrite Z.div_div by lia; reflexivity).
  replace (us' / 3600000000) with (us' / 1000 / 3600000)
    by (rewrite Z.div_div by lia; reflexivity).
  replace (us' / 60000000) with (us' / 1000 / 60000)
    by (rewrite Z.div_div by lia; reflexivity).
  replace (us' / 1000000) with (us' / 1000 / 1000)
    by (rewrite Z.div_div by lia; reflexivity).
  now rewrite E.
Qed.

(** The timestamp of an input whose microseconds are not negative and
    below 2^52: the clock reading of the microseconds. *)
Lemma format_timestamp_reading (seconds : float) (fmt : string)
    (td : timedelta) :
  timedelta_of_seconds seconds = Ok td ->
  0 <= delta_to_microseconds td < 2 ^ 52 ->
  format_timestamp seconds fmt = Ok (clock (delta_to_microseconds td) fmt).
Proof.
  intros Htd Hrange.
  pose proof (proj1 (timedelta_of_seconds_fields _ _ Htd)) as Hus.
  set (T := delta_to_microseconds td) in *.
  unfold format_timestamp. rewrite Htd. simpl bind.
  unfold total_seconds. fold T. unfold us_per_second.
  rewrite int_true_divide_floor by lia. simpl bind.
  rewrite Hus, int_true_divide_floor
    by (try (pose proof (Z.mod_pos_bound T 1000000 ltac:(lia))); lia).
  simpl bind.
  assert (H0 : 0 <= T / 1000000 / 3600)
    by (apply Z.div_pos; [apply Z.div_pos|]; lia).
  rewrite (format_hours _ H0).
  rewrite (format_two_digits ((T / 1000000) mod 3600 / 60))
    by (Z.div_mod_to_equations; lia).
  rewrite (format_two_digits ((T / 1000000) mod 60))
    by (Z.div_mod_to_equations; lia).
  rewrite (format_three_digits (T mod 1000000 / 1000))
    by (Z.div_mod_to_equations; lia).
  replace (T / 1000000 / 3600) with (T / 3600000000)
    by (Z.div_mod_to_equations; lia).
  replace ((T / 1000000) mod 3600 / 60) with (T / 60000000 mod 60)
    by (Z.div_mod_to_equations; lia).
  replace (T mod 1000000 / 1000) with (T / 1000 mod 1000)
    by (Z.div_mod_to_equations; lia).
  unfold clock, fraction_mark.
  now destruct (fmt =? "vtt")%string.
Qed.

(** X21.  A timestamp can be read back: for an input whose microseconds
    are not negative and below 2^52, the hours, minutes, seconds and
    milliseconds of the timestamp give the whole milliseconds of the
    microseconds; the timestamp has ten characters besides the hours, so
    twelve below a hundred hours. *)
Theorem format_timestamp_reads_back (seconds : float) (fmt : string)
    (td : timedelta) :
  timedelta_of_seconds seconds = Ok td ->
  0 <= delta_to_microseconds td < 2 ^ 52 ->
  exists s : string,
    format_timestamp seconds fmt = Ok s
    /\ clock_millis s = delta_to_microseconds td / 1000
    /\ String.length s
       = (String.length (hours_field (delta_to_microseconds td / 3600000000))
          + 10)%nat
    /\ (delta_to_microseconds td < 360000000000 ->
        String.length s = 12%nat).
Proof.
  intros Htd Hrange.
  exists (clock (delta_to_microseconds td) fmt).
  split; [now apply format_timestamp_reading|].
  destruct (clock_millis_clock (delta_to_microseconds td) fmt ltac:(lia))
    as [Hm Hl].
  split; [exact Hm|]. split; [exact Hl|].
  intros Hsmall. rewrite Hl. unfold hours_field.
  replace (delta_to_microseconds td / 3600000000 <? 100) with true;
    [reflexivity|].
  symmetry. apply Z.ltb_lt. apply Z.div_lt_upper_bound; lia.
Qed.

Lemma format_timestamp_reads_back_witness :
  exists s : string,
    format_timestamp f_1_4567 "srt" = Ok s
    /\ clock_millis s = 1456700 / 1000
    /\ String.length s
       = (String.length (hours_field (1456700 / 3600000000)) + 10)%nat
    /\ (1456700 < 360000000000 -> String.length s = 12%nat).
Proof.
  apply (format_timestamp_reads_back f_1_4567 "srt"
           (mk_timedelta 0 1 456700));
    [vm_compute; reflexivity | vm_compute; split; [discriminate | reflexivity]].
Defined.

(** X22.  Two inputs have the same timestamp exactly when their
    microseconds have the same whole milliseconds: the timestamp tells
    milliseconds apart and nothing finer. *)
Theorem format_timestamp_same (x y : float) (fmt : string)
    (tx ty : timedelta) :
  timedelta_of_seconds x = Ok tx ->
  timedelta_of_seconds y = Ok ty ->
  0 <= delta_to_microseconds tx < 2 ^ 52 ->
  0 <= delta_to_microseconds ty < 2 ^ 52 ->
  (format_timestamp x fmt = format_timestamp y fmt
   <-> delta_to_microseconds tx / 1000 = delta_to_microseconds ty / 1000).
Proof.
  intros Hx Hy Rx Ry.
  rewrite (format_timestamp_reading x fmt tx Hx Rx).
  rewrite (format_timestamp_reading y fmt ty Hy Ry).
  split.
  - intros [= E].
    rewrite <- (proj1 (clock_millis_clock (delta_to_microseconds tx) fmt
                         ltac:(lia))).
    rewrite <- (proj1 (clock_millis_clock (delta_to_microseconds ty) fmt
                         ltac:(lia))).
    now rewrite E.
  - intros E. f_equal. now apply clock_of_millis.
Qed.

Lemma format_timestamp_same_witness :
  format_timestamp f_1_4567 "vtt" = format_timestamp f_half "vtt"
  <-> 1456700 / 1000 = 500000 / 1000.
Proof.
  apply (format_timestamp_same f_1_4567 f_half "vtt"
           (mk_timedelta 0 1 456700) (mk_timedelta 0 0 500000)).
  - vm_compute; reflexivity.
  - vm_compute; reflexivity.
  - vm_compute; split; [discriminate | reflexivity].
  - vm_compute; split; [discriminate | reflexivity].
Defined.

(** ** Rounding to 53 bits *)

Lemma iter_pos_nat {A : Type} (f : A -> A) (n : positive) :
  forall x, iter_pos f n x = Nat.iter (Pos.to_nat n) f x.
Proof.
  induction n as [n IH|n IH|]; intros x; simpl iter_pos.
  - rewrite !IH, Pos2Nat.inj_xI.
    replace (S (2 * Pos.to_nat n)) with (Pos.to_nat n + (Pos.to_nat n + 1))%nat
      by lia.
    rewrite !Nat.iter_add. reflexivity.
  - rewrite !IH, Pos2Nat.inj_xO.
    replace (2 * Pos.to_nat n)%nat with (Pos.to_nat n + Pos.to_nat n)%nat
      by lia.
    rewrite Nat.iter_add. reflexivity.
  - reflexivity.
Qed.

Lemma shr_inv_start (P : Z) :
  0 <= P -> shr_inv P 0 (shr_record_of_loc P loc_Exact).
Proof.
  intros HP. unfold shr_inv.
  cbn [shr_record_of_loc shr_m shr_r shr_s].
  change (2 ^ 0) with 1. rewrite Z.mul_1_r.
  repeat split; try lia; try discriminate.
Qed.

Lemma shr_1_inv (P j : Z) (mrs : shr_record) :
  0 <= j -> shr_inv P j mrs -> shr_inv P (j + 1) (shr_1 mrs).
Proof.
  intros Hj. destruct mrs as [m r s]. unfold shr_inv. cbn [shr_m shr_r shr_s].
  intros (Hm & Hrho & Hr & Hs).
  rewrite Z.pow_add_r by lia. change (2 ^ 1) with 2.
  assert (Hpow : 0 < 2 ^ j) by (apply Z.pow_pos_nonneg; lia).
  assert (Hrs : r || s = true <-> P - m * 2 ^ j <> 0).
  { rewrite orb_true_iff, Hr, Hs. lia. }
  destruct m as [|[p|p|]|p]; try lia; cbn [shr_1 shr_m shr_r shr_s].
  - rewrite Hrs. repeat split; try lia; try discriminate.
  - rewrite Hrs. change (Zpos p~1) with (2 * Zpos p + 1) in *.
    repeat split; try lia.
  - rewrite Hrs. change (Zpos p~0) with (2 * Zpos p) in *.
    repeat split; try lia; try discriminate.
  - rewrite Hrs. repeat split; try lia.
Qed.

Lemma shr_iter_inv (P : Z) (mrs : shr_record) (n : nat) :
  shr_inv P 0 mrs -> shr_inv P (Z.of_nat n) (Nat.iter n shr_1 mrs).
Proof.
  intros H0. induction n as [|n IH]; [exact H0|].
  rewrite Nat2Z.inj_succ. unfold Z.succ. simpl Nat.iter.
  apply shr_1_inv; [lia | exact IH].
Qed.

(** What the rounding makes of the record of a shift: the mantissa, or the
    mantissa and one, and never further from the number than half of what
    the last kept bit is worth. *)
Lemma round_shr_inv (P j : Z) (mrs : shr_record) :
  0 <= j -> shr_inv P j mrs ->
  let R := round_nearest_even (shr_m mrs) (loc_of_shr_record mrs) in
  (R = shr_m mrs \/ R = shr_m mrs + 1)
  /\ 2 * Z.abs (R * 2 ^ j - P) <= 2 ^ j.
Proof.
  intros Hj. destruct mrs as [m r s]. unfold shr_inv.
  cbn [shr_m shr_r shr_s]. intros (Hm & Hrho & Hr & Hs).
  assert (Hpow : 0 < 2 ^ j) by (apply Z.pow_pos_nonneg; lia).
  destruct r, s; cbn [loc_of_shr_record round_nearest_even shr_m].
  - assert (2 ^ j <= 2 * (P - m * 2 ^ j)) by now apply Hr.
    split; [now right | nia].
  - assert (2 ^ j <= 2 * (P - m * 2 ^ j)) by now apply Hr.
    assert (~ (P - m * 2 ^ j <> 0 /\ 2 * (P - m * 2 ^ j) <> 2 ^ j))
      by (intros H'; apply Hs in H'; discriminate).
    destruct (Z.even m); [split; [now left | nia] | split; [now right | nia]].
  - assert (~ 2 ^ j <= 2 * (P - m * 2 ^ j))
      by (intros H'; apply Hr in H'; discriminate).
    split; [now left | nia].
  - assert (~ (P - m * 2 ^ j <> 0 /\ 2 * (P - m * 2 ^ j) <> 2 ^ j))
      by (intros H'; apply Hs in H'; discriminate).
    assert (~ 2 ^ j <= 2 * (P - m * 2 ^ j))
      by (intros H'; apply Hr in H'; discriminate).
    split; [now left | nia].
Qed.

Lemma fexp_value (x : Z) : fexp prec emax x = Z.max (x - 53) (-1074).
Proof. reflexivity. Qed.

Lemma shr_none (mrs : shr_record) (e n : Z) :
  n <= 0 -> shr mrs e n = (mrs, e).
Proof. intros Hn. destruct n; [reflexivity | lia | reflexivity]. Qed.

Lemma shr_some (P : Z) (e n : Z) :
  0 <= P -> 0 < n ->
  exists mrs,
    shr (shr_record_of_loc P loc_Exact) e n = (mrs, e + n)
    /\ shr_inv P n mrs.
Proof.
  intros HP Hn. destruct n as [|p|p]; try lia.
  exists (iter_pos shr_1 p (shr_record_of_loc P loc_Exact)).
  split; [reflexivity|].
  rewrite iter_pos_nat, <- (positive_nat_Z p).
  apply shr_iter_inv, shr_inv_start, HP.
Qed.

(** The rounding of a positive number [P * 2 ^ ex] that is not below the
    least float: a finite float [R * 2 ^ E], with [R] of 53 bits at most,
    no further from the number than half of [2 ^ E]. *)
Lemma binary_round_aux_error (P ex : Z) :
  0 < P ->
  ex <= 900 -> Zdigits2 P + ex <= 900 -> -1074 <= Zdigits2 P + ex - 1 ->
  exists (R : positive) (E : Z),
    binary_round_aux prec emax false P ex loc_Exact = S754_finite false R E
    /\ ex <= E
    /\ E <= Z.max ex (fexp prec emax (Zdigits2 P + ex)) + 1
    /\ 2 * Z.abs (Zpos R * 2 ^ (E - ex) - P) <= 2 ^ (E - ex)
    /\ Zpos R < 2 ^ 53
    /\ -1074 <= E.
Proof.
  intros HP Hex Hhi Hlo.
  destruct (Zdigits2_bounds P HP) as (Hd & HPlo & HPhi).
  set (d := Zdigits2 P) in *.
  unfold binary_round_aux, shr_fexp. fold d.
  set (E0 := fexp prec emax (d + ex)).
  assert (HE0 : E0 = Z.max (d + ex - 53) (-1074)) by apply fexp_value.
  destruct (Z.le_gt_cases (E0 - ex) 0) as [Hn|Hn].
  - (* nothing is shifted out *)
    rewrite shr_none by exact Hn.
    cbn [shr_record_of_loc shr_m loc_of_shr_record round_nearest_even].
    fold d. fold E0. rewrite shr_none by exact Hn.
    cbn [shr_record_of_loc shr_m].
    destruct P as [|p|p]; try lia.
    replace (ex <=? emax - prec) with true
      by (symmetry; apply Z.leb_le; unfold emax, prec; lia).
    exists p, ex. split; [reflexivity|]. split; [lia|]. split; [lia|].
    replace (ex - ex) with 0 by lia. change (2 ^ 0) with 1.
    split; [lia|]. split; [|lia].
    assert (2 ^ d <= 2 ^ 53) by (apply Z.pow_le_mono_r; lia). lia.
  - (* [E0 - ex] bits are shifted out *)
    set (n := E0 - ex) in *.
    destruct (shr_some P ex n ltac:(lia) Hn) as (mrs1 & -> & Hinv).
    pose proof (round_shr_inv P n mrs1 ltac:(lia) Hinv) as [HR Herr].
    destruct Hinv as (Hm1 & Hrho & _ & _).
    set (m1 := shr_m mrs1) in *.
    set (R0 := round_nearest_even m1 (loc_of_shr_record mrs1)) in *.
    assert (Hpn : 0 < 2 ^ n) by (apply Z.pow_pos_nonneg; lia).
    assert (Hdn : d - n <= 53) by lia.
    assert (Hnd : n <= d - 1) by lia.
    assert (H2n : 2 ^ n <= 2 ^ (d - 1)) by (apply Z.pow_le_mono_r; lia).
    assert (Hm1pos : 1 <= m1) by nia.
    assert (Hm1hi : m1 < 2 ^ (d - n)).
    { assert (2 ^ d = 2 ^ (d - n) * 2 ^ n)
        by (rewrite <- Z.pow_add_r by lia; f_equal; lia).
      nia. }
    assert (H53 : 2 ^ (d - n) <= 2 ^ 53) by (apply Z.pow_le_mono_r; lia).
    assert (HR0 : 1 <= R0 <= 2 ^ 53) by lia.
    replace (ex + n) with E0 by (unfold n; lia).
    destruct (Z.eq_dec R0 (2 ^ 53)) as [Etop|Etop].
    + (* the rounding went up to the next power of two *)
      rewrite Etop.
      change (Zdigits2 (2 ^ 53)) with 54.
      replace (fexp prec emax (54 + E0) - E0) with 1
        by (rewrite fexp_value; lia).
      cbn [shr shr_record_of_loc iter_pos shr_1 shr_m fst snd].
      change (shr_m (shr_1 {| shr_m := 2 ^ 53; shr_r := false;
                             shr_s := false |}))
        with (Zpos (2 ^ 52)%positive).
      cbv iota beta.
      replace (E0 + 1 <=? emax - prec) with true
        by (symmetry; apply Z.leb_le; unfold emax, prec; lia).
      exists (2 ^ 52)%positive, (E0 + 1).
      split; [reflexivity|]. split; [lia|]. split; [lia|].
      split; [|split; [reflexivity | lia]].
      replace (E0 + 1 - ex) with (n + 1) by (unfold n; lia).
      rewrite Z.pow_add_r by lia. change (2 ^ 1) with 2.
      change (Zpos (2 ^ 52)%positive) with (2 ^ 52).
      rewrite Etop in Herr. change (2 ^ 53) with (2 ^ 52 * 2) in Herr.
      lia.
    + assert (HdR : Zdigits2 R0 <= 53) by (apply Zdigits2_le; lia).
      rewrite shr_none by (rewrite fexp_value; lia).
      cbn [shr_record_of_loc shr_m].
      destruct R0 as [|r|r] eqn:ER0; try lia.
      replace (E0 <=? emax - prec) with true
        by (symmetry; apply Z.leb_le; unfold emax, prec; lia).
      exists r, E0.
      split; [reflexivity|]. split; [lia|]. split; [lia|].
      fold n. split; [exact Herr | lia].
Qed.

(** A number that needs no shift is kept as it stands. *)
Lemma binary_round_aux_kept (p : positive) (ex : Z) :
  fexp prec emax (Zdigits2 (Zpos p) + ex) <= ex -> ex <= 900 ->
  binary_round_aux prec emax false (Zpos p) ex loc_Exact
  = S754_finite false p ex.
Proof.
  intros Hn Hex. unfold binary_round_aux, shr_fexp.
  rewrite shr_none by lia.
  cbn [shr_record_of_loc shr_m loc_of_shr_record round_nearest_even].
  rewrite shr_none by lia.
  cbn [shr_record_of_loc shr_m].
  now replace (ex <=? emax - prec) with true
    by (symmetry; apply Z.leb_le; unfold emax, prec; lia).
Qed.

(** The float of [p * 2 ^ e], for [p] of 53 bits at most and [e] not below
    the least exponent: the number itself, its bits moved up by [j]. *)
Lemma binary_round_kept (p : positive) (e : Z) :
  Zpos p < 2 ^ 53 -> -1074 <= e <= 900 ->
  exists (mz : positive) (j : Z),
    0 <= j
    /\ binary_round prec emax false p e = S754_finite false mz (e - j)
    /\ Zpos mz = Zpos p * 2 ^ j
    /\ Zpos mz < 2 ^ 53.
Proof.
  intros Hp He.
  pose proof (digits2_pos_bounds p) as [Hlo Hhi].
  set (d := Zpos (digits2_pos p)) in *.
  assert (Hd : 1 <= d <= 53).
  { split; [unfold d; lia|].
    destruct (Z.le_gt_cases d 53) as [H|H]; [exact H|].
    assert (2 ^ 53 <= 2 ^ (d - 1)) by (apply Z.pow_le_mono_r; lia). lia. }
  unfold binary_round, shl_align. fold d. rewrite fexp_value.
  destruct (Z.max (d + e - 53) (-1074) - e) as [|q|q] eqn:Eq; try lia.
  - exists p, 0. split; [lia|]. rewrite Z.sub_0_r, Z.mul_1_r.
    split; [|split; [reflexivity | exact Hp]].
    apply binary_round_aux_kept; [|lia].
    change (Zdigits2 (Zpos p)) with d. rewrite fexp_value. lia.
  - exists (Pos.iter xO p q), (Zpos q).
    assert (Hv : Zpos (Pos.iter xO p q) = Zpos p * 2 ^ Zpos q)
      by apply iter_xO_value.
    assert (Hq : Zpos q <= 53 - d) by lia.
    assert (Hpq : 0 < 2 ^ Zpos q) by (apply Z.pow_pos_nonneg; lia).
    assert (Hdig : Zdigits2 (Zpos (Pos.iter xO p q)) = d + Zpos q).
    { apply Zdigits2_unique; [lia|]. rewrite Hv.
      replace (d + Zpos q - 1) with (d - 1 + Zpos q) by lia.
      rewrite !Z.pow_add_r by lia. nia. }
    split; [lia|].
    replace (Z.max (d + e - 53) (-1074)) with (e - Zpos q) by lia.
    split; [|split; [exact Hv|]].
    + apply binary_round_aux_kept; [|lia].
      rewrite Hdig, fexp_value. lia.
    + rewrite Hv.
      assert (2 ^ d * 2 ^ Zpos q <= 2 ^ 53)
        by (rewrite <- Z.pow_add_r by lia; apply Z.pow_le_mono_r; lia).
      nia.
Qed.

(** The two parts of a float that is not negative and has bits behind the
    point: the integer part is the mantissa without its last [k] bits, the
    fractional part is these bits, exactly. *)
Lemma modf_exact (m k : positive) :
  Zpos m < 2 ^ 53 -> Zpos k <= 1074 ->
  int_part (S754_finite false m (Zneg k)) = Zpos m / 2 ^ Zpos k
  /\ (Zpos m mod 2 ^ Zpos k = 0
      /\ frac_part (S754_finite false m (Zneg k)) = S754_zero false
      \/ 0 < Zpos m mod 2 ^ Zpos k
         /\ exists (mf : positive) (j : Z),
              0 <= j
              /\ frac_part (S754_finite false m (Zneg k))
                 = S754_finite false mf (Zneg k - j)
              /\ Zpos mf = Zpos m mod 2 ^ Zpos k * 2 ^ j
              /\ Zpos mf < 2 ^ 53).
Proof.
  intros Hm Hk.
  assert (Hpk : 0 < 2 ^ Zpos k) by (apply Z.pow_pos_nonneg; lia).
  pose proof (Z.mod_pos_bound (Zpos m) (2 ^ Zpos k) Hpk) as Hr.
  split.
  - unfold int_part. cbn [cond_Zopp]. apply Z.shiftr_div_pow2. lia.
  - unfold frac_part. cbn [cond_Zopp]. rewrite Z.land_ones by lia.
    destruct (Zpos m mod 2 ^ Zpos k) as [|r|r] eqn:Er; try lia.
    + left. now split.
    + right. split; [lia|].
      assert (Hrm : Zpos r < 2 ^ 53).
      { pose proof (Z.mod_le (Zpos m) (2 ^ Zpos k) ltac:(lia) Hpk). lia. }
      destruct (binary_round_kept r (Zneg k) Hrm ltac:(lia))
        as (mf & j & Hj & E & Hv & Hb).
      exists mf, j. now repeat split.
Qed.

(** ** The microseconds of an input *)

Lemma float_of_us_per_second :
  float_of_Z us_per_second = S754_finite false 8589934592000000 (-33).
Proof. vm_compute. reflexivity. Qed.

(** The fractional part, in microseconds, as the float product gives it:
    a float [R * 2 ^ (- a)] with 32 bits at least behind the point, no
    further from the exact product than half of [2 ^ (- a)]. *)
Lemma fmul_us_error (mf : positive) (r k j : Z) :
  0 < r < 2 ^ k -> 1 <= k <= 1074 -> 0 <= j ->
  Zpos mf = r * 2 ^ j -> Zpos mf < 2 ^ 53 ->
  exists (R a : positive),
    fmul (float_of_Z us_per_second) (S754_finite false mf (- k - j))
    = S754_finite false R (Zneg a)
    /\ 32 <= Zpos a <= 1074
    /\ Zpos a <= 33 + k + j
    /\ Zpos R < 2 ^ 53
    /\ 2 * Z.abs (Zpos R * 2 ^ (33 + k + j - Zpos a)
                  - 1000000 * 2 ^ 33 * Zpos mf)
       <= 2 ^ (33 + k + j - Zpos a).
Proof.
  intros Hr Hk Hj Hmf Hb.
  rewrite float_of_us_per_second. unfold fmul, SFmul. cbn [xorb].
  set (P := Zpos (8589934592000000 * mf)).
  assert (HP : P = 1000000 * 2 ^ 33 * Zpos mf)
    by (unfold P; rewrite Pos2Z.inj_mul; reflexivity).
  replace (-33 + (- k - j)) with (- (33 + k + j)) by lia.
  set (ex := - (33 + k + j)).
  assert (Hpj : 0 < 2 ^ j) by (apply Z.pow_pos_nonneg; lia).
  assert (Hpk : 0 < 2 ^ k) by (apply Z.pow_pos_nonneg; lia).
  assert (HPr : P = 1000000 * r * 2 ^ (33 + j)).
  { rewrite HP, Hmf, Z.pow_add_r by lia. ring. }
  assert (Hp33 : 0 < 2 ^ (33 + j)) by (apply Z.pow_pos_nonneg; lia).
  assert (Hlow : 2 ^ (52 + j) <= P).
  { replace (52 + j) with (19 + (33 + j)) by lia.
    rewrite HPr, Z.pow_add_r by lia. change (2 ^ 19) with 524288. nia. }
  assert (Hhigh : P < 2 ^ (20 - ex)).
  { replace (20 - ex) with (20 + k + (33 + j)) by (unfold ex; lia).
    rewrite HPr, !Z.pow_add_r by lia. change (2 ^ 20) with 1048576. nia. }
  assert (HPpos : 0 < P) by (unfold P; lia).
  assert (Hdlo : 53 + j <= Zdigits2 P)
    by (replace (53 + j) with (52 + j + 1) by lia;
        apply Zdigits2_ge; [lia | exact Hlow]).
  assert (Hdhi : Zdigits2 P <= 20 - ex)
    by (apply Zdigits2_le; [exact HPpos | unfold ex; lia | exact Hhigh]).
  destruct (binary_round_aux_error P ex HPpos ltac:(unfold ex; lia)
              ltac:(lia) ltac:(unfold ex; lia))
    as (R & E & -> & HE1 & HE2 & Herr & HR & HE3).
  rewrite fexp_value in HE2.
  assert (HE : E <= -32) by (unfold ex in *; lia).
  destruct E as [|a|a]; try lia.
  exists R, a. split; [reflexivity|].
  split; [lia|]. split; [unfold ex in HE1; lia|]. split; [exact HR|].
  replace (33 + k + j - Zpos a) with (Zneg a - ex) by (unfold ex; lia).
  now rewrite <- HP.
Qed.

(** What is left below a microsecond, rounded: nothing or one, and never
    further from it than a half. *)
Lemma round_leftover_error (x : Z) (R a : positive) :
  Zpos R < 2 ^ 53 -> Zpos a <= 1074 ->
  exists rho : Z,
    round_leftover x (frac_part (S754_finite false R (Zneg a))) = rho
    /\ (rho = 0 \/ rho = 1)
    /\ 2 * Z.abs (rho * 2 ^ Zpos a - Zpos R mod 2 ^ Zpos a) <= 2 ^ Zpos a.
Proof.
  intros HR Ha.
  assert (Hpa : 0 < 2 ^ Zpos a) by (apply Z.pow_pos_nonneg; lia).
  destruct (modf_exact R a HR Ha) as [_ [[Hrem ->]|(Hrem & mF & j & Hj & -> & Hv & Hb)]].
  - exists 0. split; [reflexivity|]. split; [now left|]. rewrite Hrem. lia.
  - set (rem := Zpos R mod 2 ^ Zpos a) in *.
    pose proof (Z.mod_pos_bound (Zpos R) (2 ^ Zpos a) Hpa) as Hbound.
    fold rem in Hbound.
    assert (Hpj : 0 < 2 ^ j) by (apply Z.pow_pos_nonneg; lia).
    destruct (Zneg a - j) as [|kF|kF] eqn:EkF; try lia.
    assert (HkF : Zpos kF = Zpos a + j) by lia.
    unfold round_leftover. rewrite HkF, Hv, Z.pow_add_r by lia.
    destruct (Z.compare_spec (2 * (rem * 2 ^ j)) (2 ^ Zpos a * 2 ^ j))
      as [E|E|E].
    + destruct (Z.odd x); cbn [cond_Zopp].
      * exists 1. split; [reflexivity|]. split; [now right | nia].
      * exists 0. split; [reflexivity|]. split; [now left | nia].
    + exists 0. split; [reflexivity|]. split; [now left | nia].
    + exists 1. split; [reflexivity|]. split; [now right | nia].
Qed.

Lemma microseconds_to_delta_small (us : Z) :
  0 <= us < 2 ^ 52 ->
  exists td, microseconds_to_delta us = Ok td /\ delta_to_microseconds td = us.
Proof.
  intros Hus. unfold microseconds_to_delta, us_per_second.
  assert (Hd : 0 <= us / 1000000 / 86400 <= 999999999).
  { split; [apply Z.div_pos; [apply Z.div_pos|]; lia|].
    assert (us / 1000000 / 86400 < 1000000000); [|lia].
    apply Z.div_lt_upper_bound; [lia|].
    apply Z.div_lt_upper_bound; lia. }
  replace ((-999999999 <=? us / 1000000 / 86400)
           && (us / 1000000 / 86400 <=? 999999999)) with true
    by (symmetry; apply andb_true_iff; split; apply Z.leb_le; lia).
  eexists. split; [reflexivity|].
  unfold delta_to_microseconds, us_per_second. cbn [td_days td_seconds td_microseconds].
  pose proof (Z.div_mod (us / 1000000) 86400 ltac:(lia)).
  pose proof (Z.div_mod us 1000000 ltac:(lia)).
  lia.
Qed.

(** The microseconds of a float with bits behind the point. *)
Lemma timedelta_of_seconds_near (m k : positive) :
  Zpos m < 2 ^ 53 -> Zpos k <= 1074 -> Zpos m / 2 ^ Zpos k < 2 ^ 31 ->
  exists td : timedelta,
    timedelta_of_seconds (S754_finite false m (Zneg k)) = Ok td
    /\ 0 <= delta_to_microseconds td < 2 ^ 52
    /\ 2 ^ 33 * Z.abs (delta_to_microseconds td * 2 ^ Zpos k
                       - 1000000 * Zpos m)
       <= (2 ^ 32 + 1) * 2 ^ Zpos k.
Proof.
  intros Hm Hk Hq.
  assert (Hpk : 0 < 2 ^ Zpos k) by (apply Z.pow_pos_nonneg; lia).
  pose proof (Z.div_mod (Zpos m) (2 ^ Zpos k) ltac:(lia)) as Hdm.
  pose proof (Z.mod_pos_bound (Zpos m) (2 ^ Zpos k) Hpk) as Hrb.
  assert (Hq0 : 0 <= Zpos m / 2 ^ Zpos k) by (apply Z.div_pos; lia).
  destruct (modf_exact m k Hm Hk)
    as [Hint [[Hrem Hfrac]|(Hrem & mf & j & Hj & Hfrac & Hv & Hb)]].
  - (* no bits behind the point are set *)
    unfold timedelta_of_seconds, accum_seconds.
    change (int_of_float (S754_finite false m (Zneg k)))
      with (Ok (int_part (S754_finite false m (Zneg k)))).
    unfold bind. rewrite Hfrac, Hint. cbn [is_zero round_leftover].
    rewrite Z.add_0_r.
    set (q := Zpos m / 2 ^ Zpos k) in *.
    destruct (microseconds_to_delta_small (q * us_per_second))
      as (td & Htd & HT); [unfold us_per_second; lia|].
    exists td. split; [exact Htd|]. rewrite HT. unfold us_per_second.
    split; [lia|].
    replace (q * 1000000 * 2 ^ Zpos k - 1000000 * Zpos m) with 0 by lia.
    simpl Z.abs. lia.
  - set (q := Zpos m / 2 ^ Zpos k) in *.
    set (r := Zpos m mod 2 ^ Zpos k) in *.
    replace (Zneg k - j) with (- Zpos k - j) in Hfrac by lia.
    destruct (fmul_us_error mf r (Zpos k) j ltac:(lia) ltac:(lia) Hj Hv Hb)
      as (R & a & Hmul & Ha & Haj & HR & Herr).
    destruct (modf_exact R a HR ltac:(lia)) as [HI _].
    unfold timedelta_of_seconds, accum_seconds.
    change (int_of_float (S754_finite false m (Zneg k)))
      with (Ok (int_part (S754_finite false m (Zneg k)))).
    unfold bind. rewrite Hfrac, Hint. cbn [is_zero]. fold q.
    rewrite Hmul, HI.
    set (I := Zpos R / 2 ^ Zpos a).
    destruct (round_leftover_error (q * us_per_second + I) R a HR ltac:(lia))
      as (rho & -> & Hrho & Hle).
    set (rem := Zpos R mod 2 ^ Zpos a) in *.
    set (A := 2 ^ Zpos a) in *.
    set (N := 2 ^ (33 + Zpos k + j - Zpos a)) in *.
    set (S := 2 ^ (33 + j)).
    assert (HA : 2 ^ 32 <= A) by (apply Z.pow_le_mono_r; lia).
    assert (HN : 0 < N) by (apply Z.pow_pos_nonneg; lia).
    assert (HS : 0 < S) by (apply Z.pow_pos_nonneg; lia).
    assert (HD : A * N = 2 ^ Zpos k * S).
    { unfold A, N, S. rewrite <- !Z.pow_add_r by lia. f_equal. lia. }
    assert (HP : 1000000 * 2 ^ 33 * Zpos mf = 1000000 * r * S).
    { rewrite Hv. unfold S. rewrite Z.pow_add_r by lia. ring. }
    rewrite HP in Herr.
    assert (HRI : Zpos R = I * A + rem).
    { unfold I, rem, A.
      pose proof (Z.div_mod (Zpos R) (2 ^ Zpos a)
                    ltac:(apply Z.pow_nonzero; lia)). lia. }
    assert (Hremb : 0 <= rem < A)
      by (apply Z.mod_pos_bound; unfold A; apply Z.pow_pos_nonneg; lia).
    assert (HI0 : 0 <= I) by (apply Z.div_pos; [lia | unfold A in *; lia]).
    assert (HAN : 0 < A * N) by (apply Z.mul_pos_pos; lia).
    assert (HIhi : I <= 1000000).
    { assert (H1 : I * A * N <= Zpos R * N)
        by (apply Z.mul_le_mono_nonneg_r; lia).
      assert (H2 : Zpos R * N <= 1000000 * r * S + N) by lia.
      assert (H3 : r * S < 2 ^ Zpos k * S)
        by (apply Z.mul_lt_mono_pos_r; lia).
      assert (H4 : 1 * N <= A * N)
        by (apply Z.mul_le_mono_nonneg_r; lia).
      rewrite <- HD in H3.
      assert (H5 : I * (A * N) < (1000000 + 1) * (A * N)).
      { replace (I * (A * N)) with (I * A * N) by ring.
        replace (1000000 * r * S) with (1000000 * (r * S)) in H2 by ring.
        lia. }
      apply Z.mul_lt_mono_pos_r in H5; lia. }
    set (T := q * us_per_second + I + rho).
    assert (HT : 0 <= T < 2 ^ 52) by (unfold T, us_per_second; lia).
    destruct (microseconds_to_delta_small T HT) as (td & Htd & HTd).
    exists td. split; [exact Htd|]. rewrite HTd. split; [exact HT|].
    assert (Hkey : (T * 2 ^ Zpos k - 1000000 * Zpos m) * S
                   = (Zpos R * N - 1000000 * r * S)
                     + (rho * A - rem) * N).
    { transitivity ((I + rho) * (2 ^ Zpos k * S) - 1000000 * r * S).
      - unfold T, us_per_second. rewrite Hdm at 1. fold q r. ring.
      - rewrite <- HD, HRI. ring. }
    set (X := T * 2 ^ Zpos k - 1000000 * Zpos m) in *.
    assert (Hb1 : 2 * (Z.abs (rho * A - rem) * N) <= A * N).
    { replace (2 * (Z.abs (rho * A - rem) * N))
        with (2 * Z.abs (rho * A - rem) * N) by ring.
      apply Z.mul_le_mono_nonneg_r; lia. }
    assert (Hbound : 2 * (Z.abs X * S) <= N + A * N).
    { rewrite <- (Z.abs_eq S) at 1 by lia.
      rewrite <- Z.abs_mul, Hkey.
      pose proof (Z.abs_triangle (Zpos R * N - 1000000 * r * S)
                    ((rho * A - rem) * N)) as Htri.
      rewrite (Z.abs_mul (rho * A - rem) N), (Z.abs_eq N) in Htri by lia.
      lia. }
    assert (HNS : 2 ^ 32 * N <= A * N)
      by (apply Z.mul_le_mono_nonneg_r; lia).
    assert (Hfin : 2 ^ 33 * Z.abs X * S <= (2 ^ 32 + 1) * 2 ^ Zpos k * S).
    { replace (2 ^ 33 * Z.abs X * S) with (2 ^ 32 * (2 * (Z.abs X * S)))
        by (change (2 ^ 33) with (2 ^ 32 * 2); ring).
      replace ((2 ^ 32 + 1) * 2 ^ Zpos k * S)
        with ((2 ^ 32 + 1) * (A * N)) by (rewrite HD; ring).
      change (2 ^ 32) with 4294967296 in *. lia. }
    apply Z.mul_le_mono_pos_r in Hfin; [exact Hfin | exact HS].
Qed.

(** X23.  The microseconds a timestamp shows are those of the input,
    rounded to the nearest: for an input that is not negative and below
    2^31 seconds, they differ from a million times the input by a half and
    2^-33 at most, less than the float product errs by; they are exact when
    the input is a whole number of seconds.  The timestamp is the clock
    reading of these microseconds, cut to milliseconds. *)
Theorem format_timestamp_accurate (m : positive) (e : Z) (fmt : string) :
  Zpos m < 2 ^ 53 -> -1074 <= e ->
  int_part (S754_finite false m e) < 2 ^ 31 ->
  exists td : timedelta,
    timedelta_of_seconds (S754_finite false m e) = Ok td
    /\ format_timestamp (S754_finite false m e) fmt
       = Ok (clock (delta_to_microseconds td) fmt)
    /\ 0 <= delta_to_microseconds td
    /\ (0 <= e -> delta_to_microseconds td = 1000000 * (Zpos m * 2 ^ e))
    /\ (e < 0 ->
        2 ^ 33 * Z.abs (delta_to_microseconds td * 2 ^ (- e)
                        - 1000000 * Zpos m)
        <= (2 ^ 32 + 1) * 2 ^ (- e)).
Proof.
  intros Hm He Hint.
  destruct e as [|p|k].
  - (* a whole number *)
    unfold int_part in Hint. cbn [cond_Zopp Z.shiftl] in Hint.
    destruct (microseconds_to_delta_small (Zpos m * us_per_second))
      as (td & Htd & HT); [unfold us_per_second; lia|].
    exists td.
    assert (E : timedelta_of_seconds (S754_finite false m 0) = Ok td).
    { unfold timedelta_of_seconds, accum_seconds.
      change (int_of_float (S754_finite false m 0)) with (Ok (Zpos m)).
      unfold bind. cbn [frac_part is_zero round_leftover].
      now rewrite Z.add_0_r. }
    split; [exact E|].
    split; [apply format_timestamp_reading; [exact E|];
            rewrite HT; unfold us_per_second; lia|].
    rewrite HT. unfold us_per_second.
    split; [lia|]. split; [intros _; lia | lia].
  - unfold int_part in Hint. cbn [cond_Zopp] in Hint.
    rewrite Z.shiftl_mul_pow2 in Hint by lia.
    destruct (microseconds_to_delta_small (Zpos m * 2 ^ Zpos p * us_per_second))
      as (td & Htd & HT); [unfold us_per_second; lia|].
    exists td.
    assert (E : timedelta_of_seconds (S754_finite false m (Zpos p)) = Ok td).
    { unfold timedelta_of_seconds, accum_seconds.
      change (int_of_float (S754_finite false m (Zpos p)))
        with (Ok (int_part (S754_finite false m (Zpos p)))).
      unfold bind. unfold int_part. cbn [cond_Zopp frac_part is_zero round_leftover].
      rewrite Z.shiftl_mul_pow2 by lia.
      now rewrite Z.add_0_r. }
    split; [exact E|].
    split; [apply format_timestamp_reading; [exact E|];
            rewrite HT; unfold us_per_second; lia|].
    rewrite HT. unfold us_per_second.
    split; [lia|]. split; [intros _; lia | lia].
  - assert (Hq : Zpos m / 2 ^ Zpos k < 2 ^ 31).
    { destruct (modf_exact m k Hm ltac:(lia)) as [<- _]. exact Hint. }
    destruct (timedelta_of_seconds_near m k Hm ltac:(lia) Hq)
      as (td & Htd & HT & Herr).
    exists td. split; [exact Htd|].
    split; [now apply format_timestamp_reading|].
    split; [lia|]. split; [lia|].
    intros _. exact Herr.
Qed.

Lemma format_timestamp_accurate_witness :
  exists td : timedelta,
    timedelta_of_seconds f_1_4567 = Ok td
    /\ format_timestamp f_1_4567 "srt"
       = Ok (clock (delta_to_microseconds td) "srt")
    /\ 0 <= delta_to_microseconds td
    /\ (0 <= -52 ->
        delta_to_microseconds td = 1000000 * (6560393577190602 * 2 ^ (-52)))
    /\ (-52 < 0 ->
        2 ^ 33 * Z.abs (delta_to_microseconds td * 2 ^ (- -52)
                        - 1000000 * 6560393577190602)
        <= (2 ^ 32 + 1) * 2 ^ (- -52)).
Proof.
  apply (format_timestamp_accurate 6560393577190602 (-52) "srt").
  - reflexivity.
  - discriminate.
  - reflexivity.
Defined.

(** ** One answer to each request *)

Lemma answers_app (a b : list Event) :
  answers (a ++ b) = (answers a ++ answers b)%list.
Proof.
  unfold answers, printed. now rewrite flat_map_app, filter_app.
Qed.

Lemma answers_quiet (events : list Event) :
  Forall is_quiet events -> answers events = [].
Proof.
  induction 1 as [|ev events Hq _ IH]; [reflexivity|].
  change (ev :: events) with ([ev] ++ events)%list.
  rewrite answers_app, IH, app_nil_r.
  destruct ev as [p| | | | | | |]; try reflexivity.
  unfold answers. simpl. unfold is_answer.
  destruct Hq as [-> | ->]; reflexivity.
Qed.

Lemma answered_one (events : list Event) :
  answered events -> List.length (answers events) = 1%nat.
Proof.
  intros (earlier & payload & -> & Hf & Hq).
  rewrite answers_app, (answers_quiet _ Hq).
  unfold answers. simpl. unfold is_answer.
  destruct Hf as [-> | ->]; reflexivity.
Qed.

Section MainFacts.

Variable Model : Type.
Variable title upper : string -> string.
Variable basename dirname : string -> string.
Variable join_path : string -> string -> string.
Variable b64encode : list Byte.byte -> string.

Lemma analyze_file_one_answer (os : platform) (w : AnalysisWorld)
    (file_path : string) :
  List.length (answers (analyze_file b64encode os w file_path)) = 1%nat.
Proof.
  unfold analyze_file.
  destruct (file_exists w); cbn [negb]; [|reflexivity].
  destruct (probed_duration w) as [duration_sec|str_e]; [|reflexivity].
  destruct (duration_string duration_sec) as [duration_str|e];
    [|reflexivity].
  destruct (str_in _ audio_exts); reflexivity.
Qed.

Lemma process_file_one_answer (os : platform) (w : World Model)
    (args : Args) (g : Globals Model) :
  List.length
    (answers (snd (process_file title upper basename dirname join_path
                                os w args g)))
  = 1%nat.
Proof.
  apply answered_one. unfold process_file.
  destruct (input_exists w); cbn [negb].
  2:{ exists [], (send_to_electron "error" "File not found" data_none).
      split; [reflexivity|]. split; [now right | constructor]. }
  pose proof (load_ai_model_answered Model title upper (cuda_is_available w)
                (loaded w) (get_or (a_model args) "standard")
                (get_or (a_device args) "auto") g) as Hload.
  destruct (load_ai_model _ _ _ _ _ _ _) as [[[model|] g1] loading];
    [|exact Hload].
  cbn [snd extract_audio_silent].
  apply answered_app; [exact Hload|].
  apply answered_cons; [now right|].
  apply answered_cons; [exact I|].
  apply transcribe_file_answered.
Qed.

Lemma main_loop_answers (os : platform) (lines : list (InputLine Model)) :
  forall g,
    List.length
      (answers (fst (main_loop title upper basename dirname join_path
                               b64encode os lines g)))
    = served_requests lines.
Proof.
  induction lines as [|line rest IH]; intros g; [reflexivity|].
  destruct line as [| |command args aw pw]; [apply IH | reflexivity |].
  cbn [main_loop served_requests].
  destruct (is_command_name command "analyze").
  - cbn [orb]. destruct args as [args|]; [|reflexivity].
    specialize (IH g).
    destruct (main_loop _ _ _ _ _ _ _ rest g) as [events ending].
    cbn [fst] in *.
    rewrite answers_app, length_app, analyze_file_one_answer, IH.
    reflexivity.
  - cbn [orb]. destruct (is_command_name command "transcribe");
      [|apply IH].
    destruct args as [args|]; [|reflexivity].
    pose proof (process_file_one_answer os pw args g) as Hone.
    destruct (process_file _ _ _ _ _ _ _ _ _) as [g1 served].
    cbn [snd] in Hone. specialize (IH g1).
    destruct (main_loop _ _ _ _ _ _ _ rest g1) as [events ending].
    cbn [fst] in *.
    rewrite answers_app, length_app, Hone, IH. reflexivity.
Qed.


End MainFacts.
